(** * ror2-editor: identifier resolution and unlock-state synchronisation

    Shallow embedding of [src/lib/save-operations.ts] and
    [src/lib/challenge-logbook-mapping.ts], with the survivor table of
    [src/lib/survivor-achievement-mapping.ts], the list reader of
    [src/lib/xml-parser.ts] and the handlers of
    [src/components/LogbookEditor.tsx].

    Conventions of the embedding.
    - A JavaScript string is a [string] of ASCII characters; [toUpperCase] and
      [toLowerCase] fold the letters a-z / A-Z and leave every other
      character alone.
    - A [Set<string>] is the list of its elements in insertion order, without
      duplicates ([JsSet]); [Array.from] of a set is that list.
    - A [Map<string,string>] is a [gmap string string]; the properties below
      only read it through lookups.
    - A record literal used as a lookup table ([overrides], [droneMap], ...)
      is an association list holding exactly the keys written in the source:
      identifiers are taken not to be names of members inherited from
      [Object.prototype] ("constructor", "toString", ...), for which such a
      lookup would return the inherited member.
    - The two catalogs [challenges] and [logbookEntries] are module-level
      constants imported from [src/data]; every operation that reads them
      takes them as parameters, so the results hold for any catalog.
    - [coins] is a JavaScript number; no operation here computes with it and
      it is carried as an integer. *)

From stdpp Require Import base list strings gmap.
From Stdlib Require Import Ascii String ZArith.

Local Open Scope string_scope.
Local Open Scope list_scope.

(** ** JavaScript string primitives *)

Module JsString.

(** [s.startsWith(p)] *)
Fixpoint startsWith (s p : string) {struct p} : bool :=
  match p with
  | EmptyString => true
  | String a p' =>
      match s with
      | EmptyString => false
      | String b s' => if Ascii.eqb a b then startsWith s' p' else false
      end
  end.

(** [s.endsWith(suf)] *)
Fixpoint endsWith (s suf : string) : bool :=
  if String.eqb s suf then true
  else match s with
       | EmptyString => false
       | String _ s' => endsWith s' suf
       end.

(** [s.includes(sub)] *)
Fixpoint includes (s sub : string) : bool :=
  if startsWith s sub then true
  else match s with
       | EmptyString => false
       | String _ s' => includes s' sub
       end.

(** [s.slice(n)] for [0 <= n] *)
Fixpoint sliceFrom (n : nat) (s : string) : string :=
  match n, s with
  | O, _ => s
  | S _, EmptyString => EmptyString
  | S n', String _ s' => sliceFrom n' s'
  end.

(** [s.slice(0, -n)] *)
Definition dropEnd (n : nat) (s : string) : string :=
  String.substring 0 (String.length s - n) s.

(** [s.replace(/^p/, "")] for a literal [p] *)
Definition stripPrefix (p s : string) : string :=
  if startsWith s p then sliceFrom (String.length p) s else s.

(** [s.replace(/suf$/, "")] for a literal [suf] *)
Definition stripSuffix (suf s : string) : string :=
  if endsWith s suf then dropEnd (String.length suf) s else s.

(** [s.split(sep)] for a one-character separator: never empty *)
Fixpoint split (sep : ascii) (s : string) : list string :=
  match s with
  | EmptyString => [EmptyString]
  | String c s' =>
      if Ascii.eqb c sep then EmptyString :: split sep s'
      else match split sep s' with
           | [] => [String c EmptyString]
           | h :: t => String c h :: t
           end
  end.

(** [parts.join("")] *)
Definition join (parts : list string) : string :=
  foldr String.append EmptyString parts.

Definition upperAscii (c : ascii) : ascii :=
  let n := nat_of_ascii c in
  if (97 <=? n)%nat && (n <=? 122)%nat then ascii_of_nat (n - 32) else c.

Definition lowerAscii (c : ascii) : ascii :=
  let n := nat_of_ascii c in
  if (65 <=? n)%nat && (n <=? 90)%nat then ascii_of_nat (n + 32) else c.

Fixpoint mapString (f : ascii → ascii) (s : string) : string :=
  match s with
  | EmptyString => EmptyString
  | String c s' => String (f c) (mapString f s')
  end.

Definition toUpperCase : string → string := mapString upperAscii.
Definition toLowerCase : string → string := mapString lowerAscii.

(** [s.charAt(0)]: the empty string when [s] is empty *)
Definition charAt0 (s : string) : string :=
  match s with
  | EmptyString => EmptyString
  | String c _ => String c EmptyString
  end.

(** truthiness of a string value *)
Definition truthy (s : string) : bool :=
  match s with EmptyString => false | _ => true end.

(** A line terminator stops the regular-expression dot. *)
Definition isLineTerminator (c : ascii) : bool :=
  Ascii.eqb c "010"%char || Ascii.eqb c "013"%char.

Fixpoint noLineTerminator (s : string) : bool :=
  match s with
  | EmptyString => true
  | String c s' => negb (isLineTerminator c) && noLineTerminator s'
  end.

(** Leftmost match of [/lit(.+)$/]: the text after the first occurrence of
    [lit] that is followed, up to the end of the input, by one or more
    characters none of which is a line terminator. *)
Fixpoint matchRest (lit s : string) : option string :=
  let rest := sliceFrom (String.length lit) s in
  if startsWith s lit && truthy rest && noLineTerminator rest then Some rest
  else match s with
       | EmptyString => None
       | String _ s' => matchRest lit s'
       end.

(** Capture group of the lazy [(.+?)] in [/(.+?)(?:Body)?(?:\.0)?$/] once
    the text [r] up to the end of input is known: the shortest non-empty
    prefix whose remainder is one of "Body.0", ".0", "Body" or "". *)
Fixpoint lazyBody (r : string) : string :=
  match r with
  | EmptyString => EmptyString
  | String c r' =>
      if String.eqb r' "Body.0" || String.eqb r' ".0"
         || String.eqb r' "Body" || String.eqb r' ""
      then String c EmptyString
      else String c (lazyBody r')
  end.

End JsString.

(** ** Insertion-ordered sets of strings *)

Module JsSet.

(** [set.has(x)] *)
Definition has (x : string) (s : list string) : bool := bool_decide (x ∈ s).

(** [set.add(x)]: appended when new, otherwise the set is unchanged *)
Definition add (x : string) (s : list string) : list string :=
  if has x s then s else s ++ [x].

(** [set.delete(x)] *)
Definition delete (x : string) (s : list string) : list string :=
  filter (λ y, y ≠ x) s.

(** [new Set(array)] *)
Definition ofArray (l : list string) : list string :=
  foldl (λ s x, add x s) [] l.

(** [for (const x of xs) set.add(x)] *)
Definition addAll (xs : list string) (s : list string) : list string :=
  foldl (λ s x, add x s) s xs.

(** [for (const x of xs) set.delete(x)] *)
Definition deleteAll (xs : list string) (s : list string) : list string :=
  foldl (λ s x, delete x s) s xs.

End JsSet.

Global Arguments JsSet.has : simpl never.
Global Arguments JsSet.add : simpl never.
Global Arguments JsSet.delete : simpl never.
Global Arguments JsSet.ofArray : simpl never.
Global Arguments JsSet.addAll : simpl never.
Global Arguments JsSet.deleteAll : simpl never.

(** ** Data model ([src/data/types.ts]) *)

Inductive DLC := dlc_base | dlc_sotv | dlc_sots | dlc_ac.

(** The string a [DLC] value is at run time. *)
Definition dlcKey (d : DLC) : string :=
  match d with
  | dlc_base => "base" | dlc_sotv => "sotv" | dlc_sots => "sots" | dlc_ac => "ac"
  end.

Inductive ChallengeCategory :=
  | cat_survivors | cat_skills | cat_skins | cat_items | cat_artifacts.

Inductive LogbookCategory :=
  | monsters | environments | survivors | items | equipment | drones.

Global Instance DLC_eq_dec : EqDecision DLC.
Proof. solve_decision. Defined.
Global Instance LogbookCategory_eq_dec : EqDecision LogbookCategory.
Proof. solve_decision. Defined.
Global Instance ChallengeCategory_eq_dec : EqDecision ChallengeCategory.
Proof. solve_decision. Defined.

(** [LogbookEntry]; the presentation fields (description, rarity, image) are
    read by no operation and are left out. *)
Record LogbookEntry := mkEntry {
  e_id : string;
  e_name : string;
  e_category : LogbookCategory;
  e_unlockId : string;
  e_pickupId : option string;
  e_dlc : DLC
}.

(** [Challenge], without its presentation fields. *)
Record Challenge := mkChallenge {
  c_id : string;
  c_name : string;
  c_achievement : string;
  c_unlocks : list string;
  c_category : ChallengeCategory;
  c_survivor : option string;
  c_dlc : DLC
}.

Global Instance LogbookEntry_eq_dec : EqDecision LogbookEntry.
Proof. solve_decision. Defined.
Global Instance Challenge_eq_dec : EqDecision Challenge.
Proof. solve_decision. Defined.

(** [SaveData] *)
Record SaveData := mkSave {
  name : string;
  coins : Z;
  achievements : list string;
  unviewedAchievements : list string;
  viewedUnlockables : list string;
  unlocks : list string;
  stats : gmap string string;
  viewedViewables : list string;
  discoveredPickups : list string
}.

(** [entry.pickupId] where the source tests it for truthiness: an absent or
    empty pickup id counts as none. *)
Definition pickupOf (e : LogbookEntry) : option string :=
  match e_pickupId e with
  | Some p => if JsString.truthy p then Some p else None
  | None => None
  end.

(** Field updates of the working copy an operation builds from its input. *)
Definition updAchievements (f : list string → list string) (w : SaveData) : SaveData :=
  mkSave (name w) (coins w) (f (achievements w)) (unviewedAchievements w)
    (viewedUnlockables w) (unlocks w) (stats w) (viewedViewables w) (discoveredPickups w).
Definition updUnviewedAchievements (f : list string → list string) (w : SaveData) : SaveData :=
  mkSave (name w) (coins w) (achievements w) (f (unviewedAchievements w))
    (viewedUnlockables w) (unlocks w) (stats w) (viewedViewables w) (discoveredPickups w).
Definition updViewedUnlockables (f : list string → list string) (w : SaveData) : SaveData :=
  mkSave (name w) (coins w) (achievements w) (unviewedAchievements w)
    (f (viewedUnlockables w)) (unlocks w) (stats w) (viewedViewables w) (discoveredPickups w).
Definition updUnlocks (f : list string → list string) (w : SaveData) : SaveData :=
  mkSave (name w) (coins w) (achievements w) (unviewedAchievements w)
    (viewedUnlockables w) (f (unlocks w)) (stats w) (viewedViewables w) (discoveredPickups w).
Definition updStats (f : gmap string string → gmap string string) (w : SaveData) : SaveData :=
  mkSave (name w) (coins w) (achievements w) (unviewedAchievements w)
    (viewedUnlockables w) (unlocks w) (f (stats w)) (viewedViewables w) (discoveredPickups w).
Definition updViewedViewables (f : list string → list string) (w : SaveData) : SaveData :=
  mkSave (name w) (coins w) (achievements w) (unviewedAchievements w)
    (viewedUnlockables w) (unlocks w) (stats w) (f (viewedViewables w)) (discoveredPickups w).
Definition updDiscoveredPickups (f : list string → list string) (w : SaveData) : SaveData :=
  mkSave (name w) (coins w) (achievements w) (unviewedAchievements w)
    (viewedUnlockables w) (unlocks w) (stats w) (viewedViewables w) (f (discoveredPickups w)).

(** The [new Set(saveData.x)] copies every operation starts from. *)
Definition openSets (s : SaveData) : SaveData :=
  mkSave (name s) (coins s)
    (JsSet.ofArray (achievements s)) (JsSet.ofArray (unviewedAchievements s))
    (JsSet.ofArray (viewedUnlockables s)) (JsSet.ofArray (unlocks s))
    (stats s)
    (JsSet.ofArray (viewedViewables s)) (JsSet.ofArray (discoveredPickups s)).

(** ** Identifier resolver ([save-operations.ts], logbook part) *)

(** [table[key]] on a record literal *)
Fixpoint tableGet (table : list (string * string)) (key : string) : option string :=
  match table with
  | [] => None
  | (k, v) :: rest => if String.eqb k key then Some v else tableGet rest key
  end.

Definition overrides : list (string * string) :=
  [ ("TITANGOLD", "TitanGoldBody");
    ("SUPERROBOBALLBOSS", "SuperRoboBallBossBody");
    ("ROBOBALLBOSS", "RoboBallBossBody");
    ("ROBOBALLMINI", "RoboBallMiniBody");
    ("DRONE_BACKUP", "BackupDroneBody");
    ("DRONE_BOMBER", "DroneBomberBody");
    ("DRONE_DTHEALING", "DTHealingDroneBody");
    ("DRONE_CLEANUP", "CleanupDroneBody");
    ("DRONE_CHIRP", "ChirpBody");
    ("MINIMUSHROOM", "Logs.MiniMushroom.0");
    ("PARENT", "Logs.Parent.0");
    ("NULLIFIER", "Logs.Nullifier.0");
    ("SCAV", "Logs.Scav.0");
    ("LUNARGOLEM", "Logs.LunarGolem.0");
    ("LUNAREXPLODER", "Logs.LunarExploder.0");
    ("LUNARWISP", "Logs.LunarWisp.0");
    ("ACIDLARVA", "Logs.AcidLarva");
    ("VOIDMEGACRAB", "Logs.VoidMegaCrab");
    ("VOIDINFESTOR", "Logs.VoidInfestorBody");
    ("MINORCONSTRUCT", "Logs.MinorConstructBody");
    ("VOIDBARNACLE", "Logs.VoidBarnacleBody");
    ("CLAYGRENADIER", "Logs.ClayGrenadierBody");
    ("VOIDJAILER", "Logs.VoidJailerBody");
    ("MEGACONSTRUCT", "Logs.MegaConstructBody");
    ("XICONSTRUCT", "Logs.MegaConstructBody");
    ("MINIVOIDRAIDCRAB", "Logs.MiniVoidRaidCrab");
    ("FLYINGVERMIN", "Logs.FlyingVerminBody.0");
    ("WORKERUNIT", "Logs.WorkerUnitBody.0");
    ("EXTRACTORUNIT", "Logs.ExtractorUnitBody.0");
    ("DEFECTIVEUNIT", "Logs.DefectiveUnitBody.0");
    ("VULTUREHUNTER", "Logs.VultureHunter.0");
    ("SOLUSWING", "Logs.SolusWingBody.0");
    ("IRONHAULER", "Logs.IronHaulerBody.0");
    ("SOLUSAMALGAMATOR", "Logs.SolusAmalgamatorBody.0");
    ("FALSESONBOSS", "Logs.FalseSonBossBody.0");
    ("SOLUSHEART", "Log.SolusHeart");
    ("MINEPOD", "Logs.MinePodBody");
    ("ELECTRICWORM", "Logs.ElectricWormBody.0");
    ("MAGMAWORM", "Logs.MagmaWormBody.0");
    ("IMPBOSS", "Logs.ImpBossBody.0");
    ("BEETLEQUEEN", "Logs.BeetleQueenBody.0");
    ("CLAYBOSS", "Logs.ClayBossBody.0");
    ("BEETLEGUARD", "Logs.BeetleGuardBody.0");
    ("GREATERWISP", "Logs.GreaterWispBody.0");
    ("LEMURIANBRUISER", "Logs.LemurianBruiserBody.0");
    ("CLAYBRUISER", "Logs.ClayBruiserBody.0");
    ("VOIDSURVIVOR", "VoidSurvivorBody");
    ("DRONETECH", "DroneTechBody");
    ("FALSESON", "FalseSonBody");
    ("CHEF", "ChefBody");
    ("DAMPCAVE", "dampcavesimple") ].

(** One segment of the UNDERSCORE_CASE to PascalCase conversion. *)
Definition pascalSegment (s : string) : string :=
  JsString.toUpperCase (JsString.charAt0 s) +:+ JsString.toLowerCase (JsString.sliceFrom 1 s).

Definition getInternalBodyName (viewableId : string) : string :=
  let lastPart := List.last (JsString.split "/"%char viewableId) "" in
  if negb (JsString.truthy lastPart) then ""
  else
    let clean :=
      JsString.stripSuffix "_TITLE"
        (JsString.stripPrefix "MAP_"
           (JsString.stripSuffix "_NAME"
              (JsString.stripSuffix "_BODY_NAME" lastPart))) in
    match tableGet overrides clean with
    | Some v => v
    | None => JsString.join (map pascalSegment (JsString.split "_"%char clean))
    end.

Definition specialMappings : list (string * string) :=
  [ ("OPERATOR", "DRONETECH"); ("BANDIT2", "BANDIT2"); ("MULT", "TOOLBOT");
    ("ENGI", "ENGI"); ("MAGE", "MAGE"); ("MERC", "MERC"); ("REX", "TREEBOT");
    ("LOADER", "LOADER"); ("ACRID", "CROCO"); ("VOIDFIEND", "VOIDSURVIVOR");
    ("DRONE1", "GUNNER"); ("DRONE2", "HEALING"); ("TURRET1", "TURRET1");
    ("FLAMEDRONE", "FLAMEDRONE"); ("MEGADRONE", "MEGA");
    ("DRONECOMMANDER", "COMMANDER"); ("HAULERDRONE", "HAULER");
    ("JUNKDRONE", "JUNK"); ("CLEANUPDRONE", "CLEANUP"); ("DRONEBOMBER", "BOMBER");
    ("DTGUNNERDRONE", "DTGUNNER"); ("DTHAULERDRONE", "DTHAULER");
    ("DTHEALINGDRONE", "DTHEALING"); ("JAILERDRONE", "JAILER");
    ("RECHARGEDRONE", "RECHARGE"); ("BOMBARDMENTDRONE", "BOMBARDMENT");
    ("COPYCATDRONE", "COPYCAT"); ("EMERGENCYDRONE", "EMERGENCYDRONE");
    ("EQUIPMENTDRONE", "EQUIPMENTDRONE");
    ("MINORCONSTRUCT", "MINORCONSTRUCT"); ("XICONSTRUCT", "MEGACONSTRUCT");
    ("ACIDLARVA", "ACIDLARVA"); ("VOIDMEGACRAB", "VOIDMEGACRAB");
    ("SOLUSPROBE", "ROBOALLMINI"); ("SOLUSCONTROLUNIT", "ROBOBALLBOSS");
    ("ALLOYWORSHIPUNIT", "SUPERROBOBALLBOSS"); ("CHILD", "CHILD");
    ("SCORCHLING", "SCORCHLING"); ("HALCYONITE", "HALCYONITE");
    ("FALSESONBOSS", "FALSESON_BOSS") ].

Definition directDroneNames : list string :=
  ["EMERGENCYDRONE"; "EQUIPMENTDRONE"; "FLAMEDRONE"; "MEGADRONE"].

Definition convertToViewableId (entry : LogbookEntry) : option string :=
  let category := e_category entry in
  let unlockId := e_unlockId entry in
  let bodyMatch := option_map JsString.lazyBody (JsString.matchRest "Logs." unlockId) in
  let stageMatch := JsString.matchRest "Logs.Stages." unlockId in
  match stageMatch, category with
  | Some stage, environments =>
      Some ("/Logbook/LOGBOOK_CATEGORY_STAGE/MAP_" +:+ JsString.toUpperCase stage +:+ "_TITLE")
  | _, _ =>
      match bodyMatch with
      | None => None
      | Some group =>
          let bodyName := JsString.stripSuffix "BODY" (JsString.toUpperCase group) in
          let bodyName :=
            match tableGet specialMappings bodyName with
            | Some v => v
            | None => bodyName
            end in
          match category with
          | monsters => Some ("/Logbook/LOGBOOK_CATEGORY_MONSTER/" +:+ bodyName +:+ "_BODY_NAME")
          | survivors => Some ("/Logbook/LOGBOOK_CATEGORY_SURVIVOR/" +:+ bodyName +:+ "_BODY_NAME")
          | drones =>
              if bool_decide (bodyName ∈ directDroneNames)
              then Some ("/Logbook/LOGBOOK_CATEGORY_DRONE/" +:+ bodyName +:+ "_BODY_NAME")
              else Some ("/Logbook/LOGBOOK_CATEGORY_DRONE/DRONE_" +:+ bodyName +:+ "_BODY_NAME")
          | _ => None
          end
      end
  end.

Definition LOGBOOK_ALIASES : list (string * string) :=
  [ ("/Logbook/LOGBOOK_CATEGORY_SURVIVOR/COMMANDO_BODY_NAME", "/Survivors/Commando");
    ("/Logbook/LOGBOOK_CATEGORY_SURVIVOR/HUNTRESS_BODY_NAME", "/Survivors/Huntress");
    ("/Logbook/LOGBOOK_CATEGORY_SURVIVOR/BANDIT2_BODY_NAME", "/Survivors/Bandit2");
    ("/Logbook/LOGBOOK_CATEGORY_SURVIVOR/TOOLBOT_BODY_NAME", "/Survivors/Toolbot");
    ("/Logbook/LOGBOOK_CATEGORY_SURVIVOR/ENGI_BODY_NAME", "/Survivors/Engi");
    ("/Logbook/LOGBOOK_CATEGORY_SURVIVOR/MAGE_BODY_NAME", "/Survivors/Mage");
    ("/Logbook/LOGBOOK_CATEGORY_SURVIVOR/MERC_BODY_NAME", "/Survivors/Merc");
    ("/Logbook/LOGBOOK_CATEGORY_SURVIVOR/TREEBOT_BODY_NAME", "/Survivors/Treebot");
    ("/Logbook/LOGBOOK_CATEGORY_SURVIVOR/LOADER_BODY_NAME", "/Survivors/Loader");
    ("/Logbook/LOGBOOK_CATEGORY_SURVIVOR/CROCO_BODY_NAME", "/Survivors/Croco");
    ("/Logbook/LOGBOOK_CATEGORY_SURVIVOR/CAPTAIN_BODY_NAME", "/Survivors/Captain");
    ("/Logbook/LOGBOOK_CATEGORY_SURVIVOR/RAILGUNNER_BODY_NAME", "/Survivors/Railgunner");
    ("/Logbook/LOGBOOK_CATEGORY_SURVIVOR/VOIDSURVIVOR_BODY_NAME", "/Survivors/VoidSurvivor");
    ("/Logbook/LOGBOOK_CATEGORY_SURVIVOR/SEEKER_BODY_NAME", "/Survivors/Seeker");
    ("/Logbook/LOGBOOK_CATEGORY_SURVIVOR/FALSESON_BODY_NAME", "/Survivors/FalseSon");
    ("/Logbook/LOGBOOK_CATEGORY_SURVIVOR/CHEF_BODY_NAME", "/Survivors/Chef");
    ("/Logbook/LOGBOOK_CATEGORY_SURVIVOR/DRONETECH_BODY_NAME", "/Survivors/DroneTech");
    ("/Logbook/LOGBOOK_CATEGORY_SURVIVOR/DRIFTER_BODY_NAME", "/Survivors/Drifter") ].

(** Every value of [LOGBOOK_ALIASES] is a one-element array. *)
Definition getLogbookAliases (mainId : string) : list string :=
  match tableGet LOGBOOK_ALIASES mainId with
  | Some a => [a]
  | None => []
  end.

Definition droneMap : list (string * string) :=
  [ ("Logs.Drone1Body.0", "DroneIndex.Drone1");
    ("Logs.Drone2Body.0", "DroneIndex.Drone2");
    ("Logs.Turret1Body.0", "DroneIndex.Turret1");
    ("Logs.EmergencyDroneBody.0", "DroneIndex.EmergencyDrone");
    ("Logs.EquipmentDroneBody.0", "DroneIndex.EquipmentDrone");
    ("Logs.FlameDroneBody.0", "DroneIndex.FlameDrone");
    ("Logs.MissileDroneBody.0", "DroneIndex.MissileDrone");
    ("Logs.MegaDroneBody.0", "DroneIndex.MegaDrone");
    ("Logs.DroneCommanderBody.0", "DroneIndex.DroneCommander");
    ("Logs.HaulerDroneBody.0", "DroneIndex.HaulerDrone");
    ("Logs.JunkDroneBody.0", "DroneIndex.JunkDrone");
    ("Logs.BestBuddyBody.0", "DroneIndex.BestBuddy");
    ("Logs.CleanupDroneBody.0", "DroneIndex.CleanupDrone");
    ("Logs.DroneBomberBody.0", "DroneIndex.DroneBomber");
    ("Logs.DTGunnerDroneBody.0", "DroneIndex.DTGunnerDrone");
    ("Logs.DTHaulerDroneBody.0", "DroneIndex.DTHaulerDrone");
    ("Logs.DTHealingDroneBody.0", "DroneIndex.DTHealingDrone");
    ("Logs.JailerDroneBody.0", "DroneIndex.JailerDrone");
    ("Logs.RechargeDroneBody.0", "DroneIndex.RechargeDrone");
    ("Logs.BombardmentDroneBody.0", "DroneIndex.BombardmentDrone");
    ("Logs.CopycatDroneBody.0", "DroneIndex.CopycatDrone");
    ("Logs.LtDroneboyBody.0", "DroneIndex.LtDroneboy");
    ("Logs.CrosshairsBody.0", "DroneIndex.Crosshairs");
    ("Logs.ChirpBody.0", "DroneIndex.Chirp");
    ("Logs.DocBody.0", "DroneIndex.Doc");
    ("Logs.BarrierDroneBody.0", "DroneIndex.BarrierDrone");
    ("Logs.FreezeDroneBody.0", "DroneIndex.FreezeDrone");
    ("Logs.BackupDroneBody.0", "DroneIndex.BackupDrone");
    ("DroneIndex.Drone1", "DroneIndex.Drone1") ].

Definition getDronePickupId (unlockId : string) : option string :=
  tableGet droneMap unlockId.

(** [startsWith("Logs.") || startsWith("Log.")] *)
Definition isLogString (s : string) : bool :=
  JsString.startsWith s "Logs." || JsString.startsWith s "Log.".

(** [parts[1]] of [unlockId.split(".")] when [parts.length >= 2] *)
Definition secondPart (unlockId : string) : option string :=
  match JsString.split "."%char unlockId with
  | _ :: p :: _ => Some p
  | _ => None
  end.

(** ** Unlock-state predicate *)

(** The "failsafe" block that closes [isLogbookEntryUnlocked]: a body name is
    derived from the unlock id and a log id is looked for in [unlocks] or,
    for the default "Logs.<name>Body.0" shape, in the counter map as well. *)
Definition statsFailsafe (saveData : SaveData) (entry : LogbookEntry) : bool :=
  let bodyName :=
    if JsString.startsWith (e_unlockId entry) "Logs." then
      match secondPart (e_unlockId entry) with
      | Some p => JsString.stripSuffix ".0" p
      | None => ""
      end
    else if JsString.includes (e_unlockId entry) "/Logbook/" then
      getInternalBodyName (e_unlockId entry)
    else "" in
  if JsString.truthy bodyName then
    if isLogString bodyName then bool_decide (bodyName ∈ unlocks saveData)
    else
      let logStat := "Logs." +:+ bodyName +:+ "Body.0" in
      bool_decide (is_Some (stats saveData !! logStat))
      || bool_decide (logStat ∈ unlocks saveData)
  else false.

Definition isLogbookEntryUnlocked (saveData : SaveData) (entry : LogbookEntry) : bool :=
  if bool_decide (e_unlockId entry ∈ unlocks saveData) then true
  else if bool_decide (e_unlockId entry ∈ viewedViewables saveData) then true
  else if existsb (λ alias, bool_decide (alias ∈ viewedViewables saveData))
            (getLogbookAliases (e_unlockId entry)) then true
  else if match convertToViewableId entry with
          | Some viewableId =>
              JsString.truthy viewableId && bool_decide (viewableId ∈ viewedViewables saveData)
          | None => false
          end then true
  else if match pickupOf entry with
          | Some p => bool_decide (p ∈ discoveredPickups saveData)
          | None => false
          end then true
  else if match e_category entry, pickupOf entry with
          | drones, None =>
              match getDronePickupId (e_unlockId entry) with
              | Some d => JsString.truthy d && bool_decide (d ∈ discoveredPickups saveData)
              | None => false
              end
          | _, _ => false
          end then true
  else statsFailsafe saveData entry.

(** The body name the failsafe derives from the unlock id ([bodyName] of
    [statsFailsafe]; empty when none is derived). *)
Definition failsafeBodyName (entry : LogbookEntry) : string :=
  if JsString.startsWith (e_unlockId entry) "Logs." then
    match secondPart (e_unlockId entry) with
    | Some p => JsString.stripSuffix ".0" p
    | None => ""
    end
  else if JsString.includes (e_unlockId entry) "/Logbook/" then
    getInternalBodyName (e_unlockId entry)
  else "".

(** The one log id the failsafe looks for: the body name when that is itself
    a log id, "Logs.<name>Body.0" otherwise; none when no body name is
    derived. *)
Definition failsafeLogId (entry : LogbookEntry) : option string :=
  let bodyName := failsafeBodyName entry in
  if JsString.truthy bodyName then
    Some (if isLogString bodyName then bodyName else "Logs." +:+ bodyName +:+ "Body.0")
  else None.

(** ** Stat projection ([updateLogbookStats]) *)

(** [x.replace(/^Logs\./, "").replace(/^Log\./, "").replace(/\.0$/, "")] *)
Definition cleanLogString (x : string) : string :=
  JsString.stripSuffix ".0" (JsString.stripPrefix "Log." (JsString.stripPrefix "Logs." x)).

(** First part of [updateLogbookStats]: the pair [(bodyName, fullLogString)]. *)
Definition logbookNames (entry : LogbookEntry) : string * string :=
  if JsString.startsWith (e_unlockId entry) "Logs." then
    let overrideName := getInternalBodyName (e_unlockId entry) in
    if JsString.truthy overrideName && isLogString overrideName then
      (cleanLogString overrideName, overrideName)
    else
      (match secondPart (e_unlockId entry) with
       | Some p => JsString.stripSuffix "Body" (JsString.stripSuffix ".0" p)
       | None => ""
       end, "")
  else
    let internal := getInternalBodyName (e_unlockId entry) in
    if isLogString internal then (cleanLogString internal, internal)
    else (internal, "").

Definition stagesToUnlock (stageName : string) : list string :=
  [stageName]
  ++ (if JsString.includes stageName "artifactworld"
      then ["artifactworld01"; "artifactworld02"; "artifactworld03"; "artifactworld04"]
      else [])
  ++ (if String.eqb stageName "moon" || String.eqb stageName "moon2" then ["moon2"] else []).

(** [logUnlock] of the monsters / survivors / drones branch *)
Definition logUnlockOf (bodyName fullLogString : string) : string :=
  if JsString.truthy fullLogString then fullLogString
  else
    let logBodyName :=
      if JsString.endsWith bodyName "Body" then bodyName else bodyName +:+ "Body" in
    "Logs." +:+ logBodyName +:+ ".0".

(** [statBodyName] of the monsters / survivors / drones branch *)
Definition statBodyNameOf (bodyName fullLogString : string) : string :=
  if negb (JsString.endsWith bodyName "Body")
     && negb (JsString.includes fullLogString "SolusHeart")
  then bodyName +:+ "Body" else bodyName.

(** Body of the [for (const stage of stagesToUnlock)] loop when enabling *)
Definition enableStage (acc : list string * gmap string string) (stage : string)
  : list string * gmap string string :=
  (JsSet.add ("Logs.Stages." +:+ stage) acc.1,
   <["totalTimesCleared." +:+ stage := "1"]>
     (<["totalTimesVisited." +:+ stage := "1"]> acc.2)).

(** Body of the same loop when disabling *)
Definition disableStage (acc : list string * gmap string string) (stage : string)
  : list string * gmap string string :=
  (JsSet.delete ("Logs.Stages." +:+ stage) acc.1,
   delete ("Logs.Stages." +:+ stage) acc.2).

Definition updateLogbookStats (entry : LogbookEntry) (enabled : bool)
    (unlocks : list string) (stats : gmap string string)
  : list string * gmap string string :=
  let '(bodyName, fullLogString) := logbookNames entry in
  if negb (JsString.truthy bodyName) && negb (JsString.truthy fullLogString)
  then (unlocks, stats)
  else if enabled then
    match e_category entry with
    | environments =>
        let stageName := JsString.toLowerCase bodyName in
        foldl enableStage (unlocks, stats) (stagesToUnlock stageName)
    | items | equipment => (unlocks, stats)
    | cat =>
        let logUnlock := logUnlockOf bodyName fullLogString in
        let unlocks := JsSet.add logUnlock unlocks in
        let statBodyName := statBodyNameOf bodyName fullLogString in
        if String.eqb logUnlock "Log.SolusHeart" then (unlocks, stats)
        else match cat with
             | drones =>
                 (unlocks,
                  <["totalTimeAlive." +:+ statBodyName := "1"]>
                    (<["timesSummoned." +:+ statBodyName := "1"]> stats))
             | monsters =>
                 let stats :=
                   <["deathsFrom." +:+ statBodyName := "0"]>
                     (<["killsAgainst." +:+ statBodyName := "1"]> stats) in
                 if String.eqb logUnlock "Logs.MiniVoidRaidCrab" then
                   (unlocks,
                    <["killsAgainst.MiniVoidRaidCrabBodyPhase3" := "1"]>
                      (<["killsAgainst.MiniVoidRaidCrabBodyPhase2" := "1"]>
                         (<["killsAgainst.MiniVoidRaidCrabBodyPhase1" := "1"]>
                            (<["killsAgainst.MiniVoidRaidCrabBodyBase" := "1"]> stats))))
                 else (unlocks, stats)
             | _ =>
                 (unlocks,
                  <["totalWins." +:+ statBodyName := "1"]>
                    (<["timesPicked." +:+ statBodyName := "1"]>
                       (<["totalTimeAlive." +:+ statBodyName := "1"]> stats)))
             end
    end
  else
    match e_category entry with
    | environments =>
        let stageName := JsString.toLowerCase bodyName in
        foldl disableStage (unlocks, stats) (stagesToUnlock stageName)
    | items | equipment => (unlocks, stats)
    | cat =>
        let logUnlock := logUnlockOf bodyName fullLogString in
        let unlocks := JsSet.delete logUnlock unlocks in
        let statBodyName := statBodyNameOf bodyName fullLogString in
        if String.eqb logUnlock "Log.SolusHeart" then (unlocks, stats)
        else match cat with
             | drones =>
                 (unlocks,
                  delete ("totalTimeAlive." +:+ statBodyName)
                    (delete ("timesSummoned." +:+ statBodyName) stats))
             | monsters =>
                 (unlocks,
                  delete ("deathsFrom." +:+ statBodyName)
                    (delete ("killsAgainst." +:+ statBodyName) stats))
             | _ =>
                 (unlocks,
                  delete ("totalWins." +:+ statBodyName)
                    (delete ("timesPicked." +:+ statBodyName)
                       (delete ("totalTimeAlive." +:+ statBodyName) stats)))
             end
    end.

(** [updateLogbookStats(entry, enabled, unlocks, stats)] on the working copy *)
Definition applyLogbookStats (entry : LogbookEntry) (enabled : bool) (w : SaveData) : SaveData :=
  let '(u, st) := updateLogbookStats entry enabled (unlocks w) (stats w) in
  updStats (λ _, st) (updUnlocks (λ _, u) w).

(** ** Reference graph ([challenge-logbook-mapping.ts]) *)

Record ChallengeLogbookMapping := mkMapping {
  challengeToLogbook : gmap string (list string);
  logbookToChallenge : gmap string (list string);
  unlockIdToLogbook : gmap string LogbookEntry;
  pickupIdToLogbook : gmap string LogbookEntry;
  unlockIdToChallenges : gmap string (list Challenge)
}.

Definition MAPPED_PREFIXES : list string := ["Items."; "Equipment."].

Definition isMappedPrefix (unlock : string) : bool :=
  existsb (λ prefix, JsString.startsWith unlock prefix) MAPPED_PREFIXES.

(** [dlcSkipped allowedDLCs dlc]: the [continue] test of the bulk loops,
    [allowedDLCs && dlc !== "base" && allowedDLCs[dlc] === false]. *)
Definition dlcSkipped (allowedDLCs : option (gmap string bool)) (dlc : DLC) : bool :=
  match allowedDLCs with
  | Some allowed =>
      negb (String.eqb (dlcKey dlc) "base")
      && match allowed !! dlcKey dlc with
         | Some false => true
         | _ => false
         end
  | None => false
  end.

Section Catalog.

Variable challenges : list Challenge.
Variable logbookEntries : list LogbookEntry.

(** First loop of [buildMapping]: the unlock-id and pickup-id indices,
    items and equipment only. *)
Definition buildEntryIndices : gmap string LogbookEntry * gmap string LogbookEntry :=
  foldl (λ '(byUnlock, byPickup) entry,
           match e_category entry with
           | items | equipment =>
               (<[e_unlockId entry := entry]> byUnlock,
                match pickupOf entry with
                | Some p => <[p := entry]> byPickup
                | None => byPickup
                end)
           | _ => (byUnlock, byPickup)
           end)
        (∅, ∅) logbookEntries.

(** Inner loop of [buildMapping] for one challenge; the state is
    [(linkedLogbookIds, logbookToChallenge, unlockIdToChallenges)]. *)
Definition linkUnlock (byUnlock : gmap string LogbookEntry) (challenge : Challenge)
    (acc : list string * gmap string (list string) * gmap string (list Challenge))
    (unlock : string)
  : list string * gmap string (list string) * gmap string (list Challenge) :=
  let '(linked, l2c, u2c) := acc in
  if isMappedPrefix unlock then
    match byUnlock !! unlock with
    | Some logbookEntry =>
        (linked ++ [e_id logbookEntry],
         <[e_id logbookEntry := default [] (l2c !! e_id logbookEntry) ++ [c_id challenge]]> l2c,
         <[unlock := default [] (u2c !! unlock) ++ [challenge]]> u2c)
    | None => acc
    end
  else acc.

Definition buildMapping : ChallengeLogbookMapping :=
  let '(byUnlock, byPickup) := buildEntryIndices in
  let '(c2l, l2c, u2c) :=
    foldl (λ '(c2l, l2c, u2c) challenge,
             let '(linked, l2c, u2c) :=
               foldl (linkUnlock byUnlock challenge) ([], l2c, u2c) (c_unlocks challenge) in
             (match linked with
              | [] => c2l
              | _ => <[c_id challenge := linked]> c2l
              end, l2c, u2c))
          (∅, ∅, ∅) challenges in
  mkMapping c2l l2c byUnlock byPickup u2c.

Definition mapping : ChallengeLogbookMapping := buildMapping.

Definition challengeById : gmap string Challenge :=
  foldl (λ m c, <[c_id c := c]> m) ∅ challenges.

Definition logbookEntryById : gmap string LogbookEntry :=
  foldl (λ m e, <[e_id e := e]> m) ∅ logbookEntries.

Definition getLogbookEntriesForChallenge (challengeId : string) : list LogbookEntry :=
  omap (λ id, logbookEntryById !! id)
       (default [] (challengeToLogbook mapping !! challengeId)).

Definition getChallengesForLogbookEntry (entryId : string) : list Challenge :=
  omap (λ id, challengeById !! id)
       (default [] (logbookToChallenge mapping !! entryId)).

Definition isLogbookEntryProvidedByOtherChallenge (entry : LogbookEntry)
    (excludeAchievementId : string) (unlockedAchievements : list string) : bool :=
  existsb (λ challenge,
             negb (String.eqb (c_achievement challenge) excludeAchievementId)
             && JsSet.has (c_achievement challenge) unlockedAchievements)
          (getChallengesForLogbookEntry (e_id entry)).

Definition shouldDisableChallengeForEntry (challenge : Challenge)
    (entryBeingDisabled : LogbookEntry) (currentViewedViewables : list string) : bool :=
  let relatedEntries := getLogbookEntriesForChallenge (c_id challenge) in
  if Nat.eqb (List.length relatedEntries) 1 then true
  else
    negb (existsb (λ entry,
                     negb (String.eqb (e_id entry) (e_id entryBeingDisabled))
                     && JsSet.has (e_unlockId entry) currentViewedViewables)
                  relatedEntries).

(** ** Synchronisation engine ([save-operations.ts]) *)

(** [viewedUnlockables.add(unlock); unlocks.add(unlock)] *)
Definition grantUnlock (w : SaveData) (unlock : string) : SaveData :=
  updUnlocks (JsSet.add unlock) (updViewedUnlockables (JsSet.add unlock) w).

(** [viewedUnlockables.delete(unlock); unlocks.delete(unlock)] *)
Definition revokeUnlock (w : SaveData) (unlock : string) : SaveData :=
  updUnlocks (JsSet.delete unlock) (updViewedUnlockables (JsSet.delete unlock) w).

(** [viewedViewables.add(entry.unlockId); unlocks.add(entry.unlockId);
    if (entry.pickupId) discoveredPickups.add(entry.pickupId)] *)
Definition markEntry (w : SaveData) (entry : LogbookEntry) : SaveData :=
  let w := updUnlocks (JsSet.add (e_unlockId entry))
             (updViewedViewables (JsSet.add (e_unlockId entry)) w) in
  match pickupOf entry with
  | Some p => updDiscoveredPickups (JsSet.add p) w
  | None => w
  end.

(** [viewedViewables.delete(entry.unlockId); unlocks.delete(entry.unlockId);
    if (entry.pickupId) discoveredPickups.delete(entry.pickupId)] *)
Definition unmarkEntry (w : SaveData) (entry : LogbookEntry) : SaveData :=
  let w := updUnlocks (JsSet.delete (e_unlockId entry))
             (updViewedViewables (JsSet.delete (e_unlockId entry)) w) in
  match pickupOf entry with
  | Some p => updDiscoveredPickups (JsSet.delete p) w
  | None => w
  end.

(** [challenges.find((c) => c.achievement === achievementId)] *)
Definition findChallenge (achievementId : string) : option Challenge :=
  List.find (λ c, String.eqb (c_achievement c) achievementId) challenges.

Definition toggleAchievement (saveData : SaveData) (achievementId : string)
    (enabled : bool) : SaveData :=
  let w := openSets saveData in
  let challenge := findChallenge achievementId in
  if enabled then
    let w := updAchievements (JsSet.add achievementId) w in
    let w := updUnviewedAchievements (JsSet.add achievementId) w in
    match challenge with
    | Some challenge =>
        let w := foldl grantUnlock w (c_unlocks challenge) in
        foldl markEntry w (getLogbookEntriesForChallenge (c_id challenge))
    | None => w
    end
  else
    let w := updAchievements (JsSet.delete achievementId) w in
    let w := updUnviewedAchievements (JsSet.delete achievementId) w in
    match challenge with
    | Some challenge =>
        let w := foldl revokeUnlock w (c_unlocks challenge) in
        foldl (λ w entry,
                 if isLogbookEntryProvidedByOtherChallenge entry achievementId
                      (achievements w)
                 then w else unmarkEntry w entry)
              w (getLogbookEntriesForChallenge (c_id challenge))
    | None => w
    end.

(** [aliases.forEach(alias => viewedViewables.add(alias))] and its
    [delete] twin *)
Definition addAliases (entry : LogbookEntry) (w : SaveData) : SaveData :=
  updViewedViewables (JsSet.addAll (getLogbookAliases (e_unlockId entry))) w.
Definition deleteAliases (entry : LogbookEntry) (w : SaveData) : SaveData :=
  updViewedViewables (JsSet.deleteAll (getLogbookAliases (e_unlockId entry))) w.

(** Body of the challenge loop in the enable branch of [toggleLogbookEntry] *)
Definition enableChallenge (w : SaveData) (challenge : Challenge) : SaveData :=
  let w := updAchievements (JsSet.add (c_achievement challenge)) w in
  let w := updUnviewedAchievements (JsSet.add (c_achievement challenge)) w in
  let w := foldl grantUnlock w (c_unlocks challenge) in
  foldl markEntry w (getLogbookEntriesForChallenge (c_id challenge)).

(** Body of the challenge loop in the disable branch of [toggleLogbookEntry] *)
Definition disableChallenge (w : SaveData) (challenge : Challenge) : SaveData :=
  let w := updAchievements (JsSet.delete (c_achievement challenge)) w in
  let w := updUnviewedAchievements (JsSet.delete (c_achievement challenge)) w in
  let w := foldl revokeUnlock w (c_unlocks challenge) in
  foldl unmarkEntry w (getLogbookEntriesForChallenge (c_id challenge)).

Definition toggleLogbookEntry (saveData : SaveData) (entry : LogbookEntry)
    (enabled : bool) : SaveData :=
  let w := openSets saveData in
  if enabled then
    let w := markEntry w entry in
    let w := foldl enableChallenge w (getChallengesForLogbookEntry (e_id entry)) in
    let w := addAliases entry w in
    applyLogbookStats entry true w
  else
    let challengesToDisable :=
      filter (λ challenge,
                shouldDisableChallengeForEntry challenge entry (viewedViewables w) = true)
             (getChallengesForLogbookEntry (e_id entry)) in
    let w := updViewedViewables (JsSet.delete (e_unlockId entry))
               (updUnlocks (JsSet.delete (e_unlockId entry)) w) in
    let w := deleteAliases entry w in
    let w := match pickupOf entry with
             | Some p => updDiscoveredPickups (JsSet.delete p) w
             | None => w
             end in
    let w := applyLogbookStats entry false w in
    foldl disableChallenge w challengesToDisable.

(** Body of the challenge loop nested in [unlockAllLogbook] *)
Definition unlockLinkedChallenge (allowedDLCs : option (gmap string bool))
    (w : SaveData) (challenge : Challenge) : SaveData :=
  if dlcSkipped allowedDLCs (c_dlc challenge) then w
  else
    foldl grantUnlock
      (updAchievements (JsSet.add (c_achievement challenge)) w)
      (c_unlocks challenge).

(** Body of the entry loop of [unlockAllLogbook] *)
Definition unlockEntry (allowedDLCs : option (gmap string bool))
    (w : SaveData) (entry : LogbookEntry) : SaveData :=
  if dlcSkipped allowedDLCs (e_dlc entry) then w
  else
    let w := markEntry w entry in
    let w := foldl (unlockLinkedChallenge allowedDLCs) w
               (getChallengesForLogbookEntry (e_id entry)) in
    let w := addAliases entry w in
    applyLogbookStats entry true w.

Definition unlockAllLogbook (saveData : SaveData)
    (allowedDLCs : option (gmap string bool)) : SaveData :=
  let w := foldl (unlockEntry allowedDLCs) (openSets saveData) logbookEntries in
  updUnviewedAchievements (λ _, []) w.

(** Body of the challenge loop of [unlockAll] *)
Definition unlockChallenge (allowedDLCs : option (gmap string bool))
    (w : SaveData) (challenge : Challenge) : SaveData :=
  if dlcSkipped allowedDLCs (c_dlc challenge) then w
  else
    let w := updAchievements (JsSet.add (c_achievement challenge)) w in
    let w := foldl grantUnlock w (c_unlocks challenge) in
    foldl markEntry w (getLogbookEntriesForChallenge (c_id challenge)).

Definition unlockAll (saveData : SaveData)
    (allowedDLCs : option (gmap string bool)) : SaveData :=
  let w := foldl (unlockChallenge allowedDLCs) (openSets saveData) challenges in
  let saveDataWithAchievements :=
    mkSave (name saveData) (coins saveData)
      (achievements w) [] (viewedUnlockables w) (unlocks w)
      (stats saveData) (viewedViewables w) (discoveredPickups w) in
  unlockAllLogbook saveDataWithAchievements allowedDLCs.

(** Name derivation of [lockAllLogbook]: [(bodyName, fullLogString)] *)
Definition lockNames (entry : LogbookEntry) : string * string :=
  if JsString.startsWith (e_unlockId entry) "Logs." then
    (match secondPart (e_unlockId entry) with
     | Some p => JsString.stripSuffix "Body" (JsString.stripSuffix ".0" p)
     | None => ""
     end, "")
  else
    let internal := getInternalBodyName (e_unlockId entry) in
    if isLogString internal then (cleanLogString internal, internal)
    else (internal, "").

(** [statBodyName] of [lockAllLogbook], with its "Body" re-appended *)
Definition lockStatBody (bodyName : string) : string :=
  (if JsString.endsWith bodyName "Body" then JsString.dropEnd 4 bodyName else bodyName)
  +:+ "Body".

(** The [Logs.*] key and counter part of one iteration of [lockAllLogbook] *)
Definition lockEntryStats (entry : LogbookEntry) (w : SaveData) : SaveData :=
  let '(bodyName, fullLogString) := lockNames entry in
  if JsString.truthy bodyName || JsString.truthy fullLogString then
    let '(key, w) :=
      match e_category entry with
      | environments => ("Logs.Stages." +:+ JsString.toLowerCase bodyName, w)
      | items | equipment => (fullLogString, w)
      | cat =>
          let key := if JsString.truthy fullLogString then fullLogString
                     else "Logs." +:+ bodyName +:+ "Body.0" in
          let sb := lockStatBody bodyName in
          (key,
           match cat with
           | drones =>
               updStats (λ st, delete ("totalTimeAlive." +:+ sb)
                                 (delete ("timesSummoned." +:+ sb) st)) w
           | monsters =>
               updStats (λ st, delete ("deathsFrom." +:+ sb)
                                 (delete ("killsAgainst." +:+ sb) st)) w
           | _ =>
               updStats (λ st, delete ("totalWins." +:+ sb)
                                 (delete ("timesPicked." +:+ sb)
                                    (delete ("totalTimeAlive." +:+ sb) st))) w
           end)
      end in
    if JsString.truthy key
    then updStats (delete key) (updUnlocks (JsSet.delete key) w)
    else w
  else w.

(** One iteration of the first loop of [lockAllLogbook]; the state is the
    working copy and the [challengesToDisable] set. *)
Definition lockEntry (acc : SaveData * list string) (entry : LogbookEntry)
  : SaveData * list string :=
  let '(w, challengesToDisable) := acc in
  let w := updViewedViewables (JsSet.delete (e_unlockId entry))
             (updUnlocks (JsSet.delete (e_unlockId entry)) w) in
  let w := deleteAliases entry w in
  let w := lockEntryStats entry w in
  let w := match pickupOf entry with
           | Some p => updDiscoveredPickups (JsSet.delete p) w
           | None => w
           end in
  (w, foldl (λ s challenge, JsSet.add (c_achievement challenge) s)
        challengesToDisable (getChallengesForLogbookEntry (e_id entry))).

(** One iteration of the second loop of [lockAllLogbook] *)
Definition lockAchievement (w : SaveData) (achievementId : string) : SaveData :=
  let w := updAchievements (JsSet.delete achievementId) w in
  let w := updUnviewedAchievements (JsSet.delete achievementId) w in
  match findChallenge achievementId with
  | Some challenge => foldl revokeUnlock w (c_unlocks challenge)
  | None => w
  end.

Definition lockAllLogbook (saveData : SaveData) : SaveData :=
  let '(w, challengesToDisable) := foldl lockEntry (openSets saveData, []) logbookEntries in
  foldl lockAchievement w challengesToDisable.

End Catalog.

(** ** A small catalog for concrete runs

    Two challenges grant the same item (so that they share a logbook entry),
    one challenge grants two items, and one is tagged with an expansion; the
    logbook holds the three items and one entry of each other category. *)

Module Sample.

Definition eliteSlayer : Challenge :=
  mkChallenge "elite-slayer" "Elite Slayer" "KillEliteMonster"
    ["Items.Medkit"] cat_items None dlc_base.
Definition fieldMedic : Challenge :=
  mkChallenge "field-medic" "Field Medic" "HealAllies"
    ["Items.Medkit"] cat_items None dlc_base.
Definition blockadeBreaker : Challenge :=
  mkChallenge "blockade-breaker" "Blockade Breaker" "KillBossQuantityInRun"
    ["Items.LunarUtilityReplacement"; "Items.LunarPrimaryReplacement"]
    cat_items None dlc_base.
Definition voidTouched : Challenge :=
  mkChallenge "void-touched" "Void Touched" "CompleteVoidEnding"
    ["Characters.VoidSurvivor"] cat_survivors (Some "void-fiend") dlc_sotv.

Definition sampleChallenges : list Challenge :=
  [eliteSlayer; fieldMedic; blockadeBreaker; voidTouched].

Definition medkit : LogbookEntry :=
  mkEntry "medkit" "Medkit" items "Items.Medkit" (Some "ItemIndex.Medkit") dlc_base.
Definition strides : LogbookEntry :=
  mkEntry "strides-of-heresy" "Strides of Heresy" items
    "Items.LunarUtilityReplacement" (Some "ItemIndex.LunarUtilityReplacement") dlc_base.
Definition visions : LogbookEntry :=
  mkEntry "visions-of-heresy" "Visions of Heresy" items
    "Items.LunarPrimaryReplacement" (Some "ItemIndex.LunarPrimaryReplacement") dlc_base.
Definition chirp : LogbookEntry :=
  mkEntry "chirp" "Chirp" drones "Logs.ChirpBody.0" (Some "DroneIndex.Chirp") dlc_base.
Definition beetle : LogbookEntry :=
  mkEntry "beetle" "Beetle" monsters
    "/Logbook/LOGBOOK_CATEGORY_MONSTER/BEETLE_BODY_NAME" None dlc_base.
Definition commando : LogbookEntry :=
  mkEntry "commando" "Commando" survivors
    "/Logbook/LOGBOOK_CATEGORY_SURVIVOR/COMMANDO_BODY_NAME" None dlc_base.
Definition distantRoost : LogbookEntry :=
  mkEntry "blackbeach" "Distant Roost" environments
    "/Logbook/LOGBOOK_CATEGORY_STAGE/MAP_BLACKBEACH_TITLE" None dlc_base.

Definition sampleEntries : list LogbookEntry :=
  [medkit; strides; visions; chirp; beetle; commando; distantRoost].

Definition emptySave : SaveData :=
  mkSave "Player" 0 [] [] [] [] ∅ [] [].

(** A profile that holds [fieldMedic] and some play-time telemetry. *)
Definition medicSave : SaveData :=
  mkSave "Player" 3 ["HealAllies"] ["HealAllies"] ["Items.Medkit"] ["Items.Medkit"]
    {[ "totalGamesPlayed" := "12" ]} ["Items.Medkit"] ["ItemIndex.Medkit"].

(** Progress counters for the beetle in a profile that holds the log of
    another monster, in [unlocks] and as a key of the counter map. *)
Definition beetleCountersSave : SaveData :=
  mkSave "Player" 0 [] [] [] ["Logs.LemurianBody.0"]
    (<["killsAgainst.BeetleBody" := "5"]>
       (<["deathsFrom.BeetleBody" := "2"]> {[ "Logs.LemurianBody.0" := "1" ]})) [] [].

End Sample.

(** ** Comparing collections

    [unchangedSet before after]: the array [after] is [before] read as a set,
    that is, it has the same elements and no duplicate, and it is [before]
    itself when [before] had no duplicate. *)
Definition unchangedSet (before after : list string) : Prop :=
  (∀ x, x ∈ after ↔ x ∈ before) ∧ NoDup after ∧ (NoDup before → after = before).

(** [setsGrow w w']: each of the five unlock collections of [w] is included
    in that of [w'] (the enable steps only add). *)
Definition setsGrow (w w' : SaveData) : Prop :=
  achievements w ⊆ achievements w'
  ∧ viewedUnlockables w ⊆ viewedUnlockables w'
  ∧ unlocks w ⊆ unlocks w'
  ∧ viewedViewables w ⊆ viewedViewables w'
  ∧ discoveredPickups w ⊆ discoveredPickups w'.

(** [stateShrinks w w']: every collection and the counter map of [w'] is
    included in that of [w] (the disable steps only delete). *)
Definition stateShrinks (w w' : SaveData) : Prop :=
  achievements w' ⊆ achievements w
  ∧ unviewedAchievements w' ⊆ unviewedAchievements w
  ∧ viewedUnlockables w' ⊆ viewedUnlockables w
  ∧ unlocks w' ⊆ unlocks w
  ∧ viewedViewables w' ⊆ viewedViewables w
  ∧ discoveredPickups w' ⊆ discoveredPickups w
  ∧ (∀ k, stats w !! k = None → stats w' !! k = None).

(** ** Counter families

    The prefixes of the keys that [lockAllLogbook] can delete from the counter
    map: the six per-body counter families and the two log-id prefixes. *)
Definition trackedPrefixes : list string :=
  ["timesSummoned."; "totalTimeAlive."; "killsAgainst."; "deathsFrom.";
   "timesPicked."; "totalWins."; "Logs."; "Log."].

Definition isTrackedKey (k : string) : bool :=
  existsb (JsString.startsWith k) trackedPrefixes.

(** The phase counters of the one multi-phase monster. *)
Definition phaseKeys : list string :=
  ["killsAgainst.MiniVoidRaidCrabBodyBase"; "killsAgainst.MiniVoidRaidCrabBodyPhase1";
   "killsAgainst.MiniVoidRaidCrabBodyPhase2"; "killsAgainst.MiniVoidRaidCrabBodyPhase3"].

(** ** Remaining queries of the reference graph ([challenge-logbook-mapping.ts]) *)

(** Result of [getMappingStats] *)
Record MappingStats := mkMappingStats {
  totalChallenges : nat;
  challengesWithLogbook : nat;
  totalLogbookEntries : nat;
  logbookWithChallenges : nat;
  itemsMapped : nat;
  equipmentMapped : nat
}.

Section CatalogQueries.

Variable challenges : list Challenge.
Variable logbookEntries : list LogbookEntry.

(** [new Map(challenges.map((c) => [c.achievement, c]))] *)
Definition challengeByAchievement : gmap string Challenge :=
  foldl (λ m c, <[c_achievement c := c]> m) ∅ challenges.

Definition hasLogbookConnection (challenge : Challenge) : bool :=
  bool_decide (is_Some (challengeToLogbook (mapping challenges logbookEntries)
                          !! c_id challenge)).

Definition hasChallengeConnection (entry : LogbookEntry) : bool :=
  bool_decide (is_Some (logbookToChallenge (mapping challenges logbookEntries)
                          !! e_id entry)).

(** [mapping.challengeToLogbook.get(challengeId)?.length || 0] *)
Definition getLogbookCountForChallenge (challengeId : string) : nat :=
  match challengeToLogbook (mapping challenges logbookEntries) !! challengeId with
  | Some ids => List.length ids
  | None => 0
  end.

(** [mapping.logbookToChallenge.get(entryId)?.length || 0] *)
Definition getChallengeCountForLogbookEntry (entryId : string) : nat :=
  match logbookToChallenge (mapping challenges logbookEntries) !! entryId with
  | Some ids => List.length ids
  | None => 0
  end.

Definition getChallengesForUnlockId (unlockId : string) : list Challenge :=
  default [] (unlockIdToChallenges (mapping challenges logbookEntries) !! unlockId).

Definition getLogbookEntryByUnlockId (unlockId : string) : option LogbookEntry :=
  unlockIdToLogbook (mapping challenges logbookEntries) !! unlockId.

Definition getLogbookEntryByPickupId (pickupId : string) : option LogbookEntry :=
  pickupIdToLogbook (mapping challenges logbookEntries) !! pickupId.

Definition getChallengeByAchievement (achievementId : string) : option Challenge :=
  challengeByAchievement !! achievementId.

(** [Array.from(map.values())] lists the values in insertion order; only the
    number of values that pass a test is read here, which no order changes. *)
Definition getMappingStats : MappingStats :=
  let values := (map_to_list (unlockIdToLogbook (mapping challenges logbookEntries))).*2 in
  mkMappingStats
    (List.length challenges)
    (size (challengeToLogbook (mapping challenges logbookEntries)))
    (List.length logbookEntries)
    (size (logbookToChallenge (mapping challenges logbookEntries)))
    (List.length (filter (λ e, e_category e = items) values))
    (List.length (filter (λ e, e_category e = equipment) values)).

(** The list of [{ challenge, unmappedUnlock }] records, as pairs. *)
Definition findUnmappedChallengeUnlocks : list (Challenge * string) :=
  flat_map
    (λ challenge,
       map (λ unlock, (challenge, unlock))
         (filter (λ unlock,
                    isMappedPrefix unlock
                    && negb (bool_decide
                               (is_Some (unlockIdToLogbook (mapping challenges logbookEntries)
                                           !! unlock))) = true)
            (c_unlocks challenge)))
    challenges.

End CatalogQueries.

(** ** Whole-profile operations and statistics ([save-operations.ts]) *)

(** Result of [calculateSaveStats] *)
Record SaveStats := mkSaveStats {
  totalAchievements : nat;
  unlockedAchievements : nat;
  unlockedSurvivors : nat;
  unlockedSkills : nat;
  unlockedSkins : nat;
  unlockedItems : nat;
  unlockedArtifacts : nat
}.

(** One [{ total, unlocked }] cell of the result of [calculateLogbookStats] *)
Record CategoryCount := mkCategoryCount {
  total : nat;
  unlocked : nat
}.

(** Result of [calculateLogbookStats]; the six per-category cells, which the
    loop reaches as [stats[entry.category]], are a function of the category. *)
Record LogbookStats := mkLogbookStats {
  totalEntries : nat;
  unlockedEntries : nat;
  byCategory : LogbookCategory → CategoryCount
}.

Definition isAchievementUnlocked (saveData : SaveData) (achievementId : string) : bool :=
  bool_decide (achievementId ∈ achievements saveData).

Definition getUnlockedCount (saveData : SaveData) : nat :=
  List.length (achievements saveData).

(** The test that guards [newStats.delete(key)] in [lockAll] *)
Definition isResetKey (key : string) : bool :=
  JsString.startsWith key "Logs."
  || JsString.startsWith key "timesSummoned."
  || JsString.startsWith key "totalTimeAlive."
  || JsString.startsWith key "killsAgainst."
  || JsString.startsWith key "minionKillsAs."
  || JsString.startsWith key "deathsFrom."
  || JsString.startsWith key "timesPicked."
  || JsString.startsWith key "totalWins.".

(** [lockAll]; its first loop only fills two sets that nothing reads. *)
Definition lockAll (saveData : SaveData) : SaveData :=
  mkSave (name saveData) (coins saveData) [] [] [] []
    (filter (λ kv, isResetKey kv.1 = false) (stats saveData)) [] [].

Section CatalogStatistics.

Variable challenges : list Challenge.
Variable logbookEntries : list LogbookEntry.

Definition getTotalCount : nat := List.length challenges.

(** Body of the loop of [calculateSaveStats]; [unlockedAchievements] is the
    local [validUnlocked]. *)
Definition countChallenge (unlockedSet : list string) (acc : SaveStats)
    (challenge : Challenge) : SaveStats :=
  if JsSet.has (c_achievement challenge) unlockedSet then
    let n := S (unlockedAchievements acc) in
    match c_category challenge with
    | cat_survivors =>
        mkSaveStats (totalAchievements acc) n (S (unlockedSurvivors acc))
          (unlockedSkills acc) (unlockedSkins acc) (unlockedItems acc) (unlockedArtifacts acc)
    | cat_skills =>
        mkSaveStats (totalAchievements acc) n (unlockedSurvivors acc)
          (S (unlockedSkills acc)) (unlockedSkins acc) (unlockedItems acc)
          (unlockedArtifacts acc)
    | cat_skins =>
        mkSaveStats (totalAchievements acc) n (unlockedSurvivors acc)
          (unlockedSkills acc) (S (unlockedSkins acc)) (unlockedItems acc)
          (unlockedArtifacts acc)
    | cat_items =>
        mkSaveStats (totalAchievements acc) n (unlockedSurvivors acc)
          (unlockedSkills acc) (unlockedSkins acc) (S (unlockedItems acc))
          (unlockedArtifacts acc)
    | cat_artifacts =>
        mkSaveStats (totalAchievements acc) n (unlockedSurvivors acc)
          (unlockedSkills acc) (unlockedSkins acc) (unlockedItems acc)
          (S (unlockedArtifacts acc))
    end
  else acc.

Definition calculateSaveStats (saveData : SaveData) : SaveStats :=
  foldl (countChallenge (JsSet.ofArray (achievements saveData)))
    (mkSaveStats (List.length challenges) 0 0 0 0 0 0) challenges.

(** [stats[category]] after an update of that cell *)
Definition updCategory (category : LogbookCategory) (f : CategoryCount → CategoryCount)
    (cells : LogbookCategory → CategoryCount) : LogbookCategory → CategoryCount :=
  λ c, if decide (c = category) then f (cells c) else cells c.

(** Body of the loop of [calculateLogbookStats] *)
Definition countEntry (saveData : SaveData) (acc : LogbookStats) (entry : LogbookEntry)
  : LogbookStats :=
  let cells :=
    updCategory (e_category entry) (λ c, mkCategoryCount (S (total c)) (unlocked c))
      (byCategory acc) in
  if isLogbookEntryUnlocked saveData entry then
    mkLogbookStats (totalEntries acc) (S (unlockedEntries acc))
      (updCategory (e_category entry) (λ c, mkCategoryCount (total c) (S (unlocked c)))
         cells)
  else mkLogbookStats (totalEntries acc) (unlockedEntries acc) cells.

Definition calculateLogbookStats (saveData : SaveData) : LogbookStats :=
  foldl (countEntry saveData)
    (mkLogbookStats (List.length logbookEntries) 0 (λ _, mkCategoryCount 0 0))
    logbookEntries.

End CatalogStatistics.

(** ** Survivor entries and their achievements
       ([survivor-achievement-mapping.ts]) *)

Definition SURVIVOR_LOGBOOK_TO_ACHIEVEMENT : list (string * string) :=
  [ ("toolbot", "RepeatFirstTeleporter");
    ("engineer", "Complete30StagesCareer");
    ("mage", "FreeMage");
    ("mercenary", "CompleteUnknownEnding");
    ("treebot", "RescueTreebot");
    ("loader", "DefeatSuperRoboBallBoss");
    ("croco", "BeatArena");
    ("captain", "CompleteMainEnding");
    ("void-survivor", "CompleteVoidEnding");
    ("chef", "ActivateChef");
    ("false-son", "UnlockFalseSon");
    ("drifter", "FreeDrifter") ].

Definition SURVIVOR_UNLOCKID_TO_ACHIEVEMENT : list (string * string) :=
  [ ("/Logbook/LOGBOOK_CATEGORY_SURVIVOR/TOOLBOT_BODY_NAME", "RepeatFirstTeleporter");
    ("/Logbook/LOGBOOK_CATEGORY_SURVIVOR/ENGI_BODY_NAME", "Complete30StagesCareer");
    ("/Logbook/LOGBOOK_CATEGORY_SURVIVOR/MAGE_BODY_NAME", "FreeMage");
    ("/Logbook/LOGBOOK_CATEGORY_SURVIVOR/MERC_BODY_NAME", "CompleteUnknownEnding");
    ("/Logbook/LOGBOOK_CATEGORY_SURVIVOR/TREEBOT_BODY_NAME", "RescueTreebot");
    ("/Logbook/LOGBOOK_CATEGORY_SURVIVOR/LOADER_BODY_NAME", "DefeatSuperRoboBallBoss");
    ("/Logbook/LOGBOOK_CATEGORY_SURVIVOR/CROCO_BODY_NAME", "BeatArena");
    ("/Logbook/LOGBOOK_CATEGORY_SURVIVOR/CAPTAIN_BODY_NAME", "CompleteMainEnding");
    ("/Logbook/LOGBOOK_CATEGORY_SURVIVOR/VOIDSURVIVOR_BODY_NAME", "CompleteVoidEnding");
    ("/Logbook/LOGBOOK_CATEGORY_SURVIVOR/CHEF_BODY_NAME", "ActivateChef");
    ("/Logbook/LOGBOOK_CATEGORY_SURVIVOR/FALSESON_BODY_NAME", "UnlockFalseSon");
    ("/Logbook/LOGBOOK_CATEGORY_SURVIVOR/DRIFTER_BODY_NAME", "FreeDrifter") ].

(** A looked-up string that passes the [if (!achievementId)] test: absent and
    empty both count as none. *)
Definition truthyValue (v : option string) : option string :=
  match v with
  | Some x => if JsString.truthy x then Some x else None
  | None => None
  end.

(** The achievement id [getAchievementForSurvivorLogbook] settles on before
    it searches the catalog. *)
Definition survivorAchievementId (entry : LogbookEntry) : option string :=
  let achievementId := tableGet SURVIVOR_UNLOCKID_TO_ACHIEVEMENT (e_unlockId entry) in
  let achievementId :=
    match truthyValue achievementId with
    | Some v => Some v
    | None => tableGet SURVIVOR_LOGBOOK_TO_ACHIEVEMENT (e_id entry)
    end in
  let achievementId :=
    match truthyValue achievementId with
    | Some v => Some v
    | None =>
        let a := achievementId in
        let a := if String.eqb (e_id entry) "voidfiend" then Some "CompleteVoidEnding" else a in
        let a := if String.eqb (e_id entry) "void-fiend" then Some "CompleteVoidEnding" else a in
        let a := if String.eqb (e_id entry) "mult" then Some "RepeatFirstTeleporter" else a in
        let a := if String.eqb (e_id entry) "rex" then Some "RescueTreebot" else a in
        if String.eqb (e_id entry) "acrid" then Some "BeatArena" else a
    end in
  truthyValue achievementId.

Definition getAchievementForSurvivorLogbook (challenges : list Challenge)
    (entry : LogbookEntry) : option Challenge :=
  if decide (e_category entry ≠ survivors) then None
  else
    match survivorAchievementId entry with
    | Some achievementId => findChallenge challenges achievementId
    | None => None
    end.

(** ** The handlers of the logbook view ([components/LogbookEditor.tsx])

    Each handler is the function from the profile the view was rendered with
    to the profile it hands to [onSaveDataChange]. *)

Module LogbookEditor.

Section Handlers.

Variable challenges : list Challenge.
Variable logbookEntries : list LogbookEntry.

(** [if (entry.category === "survivors") { ... toggleAchievement(newData,
    achievement.achievement, true) }] *)
Definition unlockSurvivorAchievement (newData : SaveData) (entry : LogbookEntry)
  : SaveData :=
  if decide (e_category entry = survivors) then
    match getAchievementForSurvivorLogbook challenges entry with
    | Some achievement =>
        toggleAchievement challenges logbookEntries newData (c_achievement achievement) true
    | None => newData
    end
  else newData.

Definition handleToggleEntry (saveData : SaveData) (entry : LogbookEntry)
    (enabled : bool) : SaveData :=
  if negb enabled then toggleLogbookEntry challenges logbookEntries saveData entry false
  else
    let newData := toggleLogbookEntry challenges logbookEntries saveData entry true in
    unlockSurvivorAchievement newData entry.

Definition allOwned : gmap string bool :=
  <["base" := true]> (<["sotv" := true]> (<["sots" := true]> (<["ac" := true]> ∅))).

Definition handleUnlockAllClick (saveData : SaveData) : SaveData :=
  let newData := unlockAllLogbook challenges logbookEntries saveData (Some allOwned) in
  foldl unlockSurvivorAchievement newData logbookEntries.

Definition unlockGroup (saveData : SaveData) (category : LogbookCategory) : SaveData :=
  let categoryEntries := filter (λ e, e_category e = category) logbookEntries in
  foldl (λ newData entry,
           unlockSurvivorAchievement
             (toggleLogbookEntry challenges logbookEntries newData entry true) entry)
        saveData categoryEntries.

Definition handleLockAll (saveData : SaveData) : SaveData :=
  lockAllLogbook challenges logbookEntries saveData.

(** [totalUnlocked], the count shown in the header of the view *)
Definition totalUnlocked (saveData : SaveData) : nat :=
  List.length (filter (λ e, isLogbookEntryUnlocked saveData e = true) logbookEntries).

End Handlers.

End LogbookEditor.

(** ** Space-separated lists ([xml-parser.ts]) *)

Module JsText.

(** White space and line terminators of the ASCII range, the characters
    [trim] removes. *)
Definition isWhiteSpace (c : ascii) : bool :=
  let n := nat_of_ascii c in
  ((9 <=? n)%nat && (n <=? 13)%nat) || (n =? 32)%nat.

Fixpoint trimStart (s : string) : string :=
  match s with
  | EmptyString => EmptyString
  | String c s' => if isWhiteSpace c then trimStart s' else s
  end.

Fixpoint trimEnd (s : string) : string :=
  match s with
  | EmptyString => EmptyString
  | String c s' =>
      match trimEnd s' with
      | EmptyString => if isWhiteSpace c then EmptyString else String c EmptyString
      | t => String c t
      end
  end.

(** [s.trim()] *)
Definition trim (s : string) : string := trimEnd (trimStart s).

(** [parts.join(sep)] *)
Fixpoint joinWith (sep : string) (parts : list string) : string :=
  match parts with
  | [] => EmptyString
  | [p] => p
  | p :: rest => p +:+ sep +:+ joinWith sep rest
  end.

End JsText.

(** [parseSpaceSeparatedList]; [None] is [undefined]. *)
Definition parseSpaceSeparatedList (value : option string) : list string :=
  match value with
  | None => []
  | Some v =>
      if negb (JsString.truthy v) then []
      else filter (λ s, (0 < String.length s)%nat)
             (map JsText.trim (JsString.split " "%char v))
  end.

(** What the round trip through a space-separated list preserves: a token is
    not empty, holds no space and neither starts nor ends with white space. *)
Definition isToken (s : string) : bool :=
  JsString.truthy s && negb (JsString.includes s " ") && String.eqb (JsText.trim s) s.

(** ** Duplicate-free profiles *)

(** Each of the six collections lists an identifier at most once. *)
Definition normalised (w : SaveData) : Prop :=
  NoDup (achievements w) ∧ NoDup (unviewedAchievements w)
  ∧ NoDup (viewedUnlockables w) ∧ NoDup (unlocks w)
  ∧ NoDup (viewedViewables w) ∧ NoDup (discoveredPickups w).

(** ** Marked entries and granted challenges *)

(** The three markers an enable step leaves for an entry. *)
Definition entryMarked (w : SaveData) (e : LogbookEntry) : Prop :=
  e_unlockId e ∈ unlocks w ∧ e_unlockId e ∈ viewedViewables w
  ∧ (∀ p, pickupOf e = Some p → p ∈ discoveredPickups w).

(** The achievement id of a challenge is held and its unlock ids granted. *)
Definition challengeGranted (w : SaveData) (c : Challenge) : Prop :=
  c_achievement c ∈ achievements w
  ∧ (∀ u, u ∈ c_unlocks c → u ∈ viewedUnlockables w ∧ u ∈ unlocks w).

(** ** The reference graph read off the catalogs *)

(** The two categories the reference graph covers. *)
Definition isItemLike (e : LogbookEntry) : Prop :=
  e_category e = items ∨ e_category e = equipment.

Global Instance isItemLike_dec (e : LogbookEntry) : Decision (isItemLike e).
Proof. unfold isItemLike. apply _. Defined.

(** The entry an unlock id stands for: the last items or equipment entry of
    the catalog that carries it. *)
Definition indexedByUnlock (logbookEntries : list LogbookEntry) (unlockId : string)
  : option LogbookEntry :=
  last (filter (λ e, isItemLike e ∧ e_unlockId e = unlockId) logbookEntries).

Definition indexedByPickup (logbookEntries : list LogbookEntry) (pickupId : string)
  : option LogbookEntry :=
  last (filter (λ e, isItemLike e ∧ pickupOf e = Some pickupId) logbookEntries).

(** The entries a challenge links to, one per unlock id of the challenge that
    starts with a mapped prefix and stands for an entry. *)
Definition linksOf (logbookEntries : list LogbookEntry) (c : Challenge) : list LogbookEntry :=
  omap (λ u, if isMappedPrefix u then indexedByUnlock logbookEntries u else None)
       (c_unlocks c).

(** The same reading against an arbitrary unlock-id index, and the unlock ids
    that produce a link. *)
Definition linkedEntries (byUnlock : gmap string LogbookEntry) (us : list string)
  : list LogbookEntry :=
  omap (λ u, if isMappedPrefix u then byUnlock !! u else None) us.

Definition linkedUnlocks (byUnlock : gmap string LogbookEntry) (us : list string)
  : list string :=
  filter (λ u, isMappedPrefix u = true ∧ is_Some (byUnlock !! u)) us.

(** [(map.get(k) || []).push(...)] then [map.set(k, ...)], for each element
    of [new]: the slot is untouched when [new] is empty. *)
Definition extendWith {A} (old : option (list A)) (new : list A) : option (list A) :=
  match new with
  | [] => old
  | _ => Some (default [] old ++ new)
  end.

(** ** Disabling only removes *)

(** [profileShrinks s r]: every collection of [r] is included in that of [s],
    and every counter of [r] is a counter of [s] with the same value. *)
Definition profileShrinks (s r : SaveData) : Prop :=
  achievements r ⊆ achievements s
  ∧ unviewedAchievements r ⊆ unviewedAchievements s
  ∧ viewedUnlockables r ⊆ viewedUnlockables s
  ∧ unlocks r ⊆ unlocks s
  ∧ viewedViewables r ⊆ viewedViewables s
  ∧ discoveredPickups r ⊆ discoveredPickups s
  ∧ stats r ⊆ stats s.

(** * Properties *)

(** ** Insertion-ordered sets *)

Section JsSetFacts.

Implicit Types (x y : string) (s l xs : list string).

Lemma has_true x s : JsSet.has x s = true ↔ x ∈ s.
Proof. unfold JsSet.has. apply bool_decide_eq_true. Qed.

Lemma has_false x s : JsSet.has x s = false ↔ x ∉ s.
Proof. unfold JsSet.has. apply bool_decide_eq_false. Qed.

Lemma elem_of_add y x s : y ∈ JsSet.add x s ↔ y = x ∨ y ∈ s.
Proof.
  unfold JsSet.add. destruct (JsSet.has x s) eqn:E.
  - apply has_true in E. split; [auto | intros [-> | ?]; done].
  - rewrite elem_of_app, list_elem_of_singleton. tauto.
Qed.

Lemma elem_of_delete y x s : y ∈ JsSet.delete x s ↔ y ≠ x ∧ y ∈ s.
Proof. unfold JsSet.delete. by rewrite list_elem_of_filter. Qed.

Lemma elem_of_addAll y xs s : y ∈ JsSet.addAll xs s ↔ y ∈ xs ∨ y ∈ s.
Proof.
  unfold JsSet.addAll. revert s. induction xs as [|x xs IH]; intros s; simpl.
  - rewrite elem_of_nil. tauto.
  - rewrite IH, elem_of_add, elem_of_cons. tauto.
Qed.

Lemma elem_of_ofArray y l : y ∈ JsSet.ofArray l ↔ y ∈ l.
Proof.
  change (JsSet.ofArray l) with (JsSet.addAll l []).
  rewrite elem_of_addAll, elem_of_nil. tauto.
Qed.

Lemma deleteAll_filter xs s : JsSet.deleteAll xs s = filter (λ y, y ∉ xs) s.
Proof.
  unfold JsSet.deleteAll. revert s. induction xs as [|x xs IH]; intros s; simpl.
  - induction s as [|a s IHs]; [done|].
    rewrite filter_cons_True by apply not_elem_of_nil. by rewrite <- IHs.
  - rewrite IH. unfold JsSet.delete. rewrite list_filter_filter.
    apply list_filter_iff. intros y. rewrite (not_elem_of_cons xs y x). tauto.
Qed.

Lemma elem_of_deleteAll y xs s : y ∈ JsSet.deleteAll xs s ↔ (y ∉ xs) ∧ y ∈ s.
Proof. by rewrite deleteAll_filter, list_elem_of_filter. Qed.

Lemma NoDup_add x s : NoDup s → NoDup (JsSet.add x s).
Proof.
  intros H. unfold JsSet.add. destruct (JsSet.has x s) eqn:E; [done|].
  apply has_false in E. apply NoDup_app. split_and!; [done | | apply NoDup_singleton].
  intros y Hy ->%list_elem_of_singleton. done.
Qed.

Lemma NoDup_addAll xs s : NoDup s → NoDup (JsSet.addAll xs s).
Proof.
  unfold JsSet.addAll. revert s. induction xs as [|x xs IH]; intros s H; simpl; [done|].
  apply IH, NoDup_add, H.
Qed.

Lemma NoDup_ofArray l : NoDup (JsSet.ofArray l).
Proof. apply (NoDup_addAll l []), NoDup_nil_2. Qed.

Lemma NoDup_delete x s : NoDup s → NoDup (JsSet.delete x s).
Proof. apply NoDup_filter. Qed.

Lemma NoDup_deleteAll xs s : NoDup s → NoDup (JsSet.deleteAll xs s).
Proof. rewrite deleteAll_filter. apply NoDup_filter. Qed.

(** Adding elements that fail [P] is invisible through [filter P]. *)
Lemma filter_add (P : string → Prop) `{!∀ y, Decision (P y)} x s :
  ¬ P x → filter P (JsSet.add x s) = filter P s.
Proof.
  intros Hx. unfold JsSet.add. destruct (JsSet.has x s); [done|].
  rewrite filter_app, filter_cons_False, filter_nil by done. apply app_nil_r.
Qed.

Lemma filter_addAll (P : string → Prop) `{!∀ y, Decision (P y)} xs s :
  Forall (λ x, ¬ P x) xs → filter P (JsSet.addAll xs s) = filter P s.
Proof.
  unfold JsSet.addAll. intros Hxs. revert s.
  induction Hxs as [|x xs Hx _ IH]; intros s; simpl; [done|].
  rewrite IH. by apply filter_add.
Qed.

Lemma filter_all {A} (P : A → Prop) `{!∀ a, Decision (P a)} (l0 : list A) :
  Forall P l0 → filter P l0 = l0.
Proof.
  induction 1 as [|a l0 Ha _ IH]; [done|]. rewrite filter_cons_True by done. by rewrite IH.
Qed.

(** A list without duplicates is its own set. *)
Lemma addAll_fresh xs s :
  NoDup xs → (∀ x, x ∈ xs → x ∉ s) → JsSet.addAll xs s = s ++ xs.
Proof.
  unfold JsSet.addAll. intros Hnd. revert s.
  induction Hnd as [|x xs Hx _ IH]; intros s Hs; simpl; [by rewrite app_nil_r|].
  assert (JsSet.add x s = s ++ [x]) as ->.
  { unfold JsSet.add. assert (JsSet.has x s = false) as ->; [|done].
    apply has_false, Hs. by left. }
  rewrite IH.
  - by rewrite <- app_assoc.
  - intros y Hy. rewrite elem_of_app, list_elem_of_singleton.
    intros [?| ->]; [|done]. eapply Hs; [|done]. by right.
Qed.

Lemma ofArray_NoDup l : NoDup l → JsSet.ofArray l = l.
Proof.
  intros H. change (JsSet.ofArray l) with (JsSet.addAll l []).
  rewrite addAll_fresh; [done | done |]. intros x _. apply not_elem_of_nil.
Qed.

Lemma ofArray_idemp l : JsSet.ofArray (JsSet.ofArray l) = JsSet.ofArray l.
Proof. apply ofArray_NoDup, NoDup_ofArray. Qed.

Lemma has_ofArray x l : JsSet.has x (JsSet.ofArray l) = JsSet.has x l.
Proof.
  unfold JsSet.has. apply bool_decide_ext, elem_of_ofArray.
Qed.

End JsSetFacts.

(** ** Folds over the working copy *)

Lemma foldl_proj {A B C} (f : A → B → A) (p : A → C) (l : list B) (a : A) :
  (∀ a b, p (f a b) = p a) → p (foldl f a l) = p a.
Proof.
  intros H. revert a. induction l as [|b l IH]; intros a; simpl; [done|].
  by rewrite IH, H.
Qed.

(** A property established by the step for its own element and kept by every
    other step holds after the loop for every element of the list. *)
Lemma foldl_establish {A B} (f : A → B → A) (P : B → A → Prop) :
  (∀ a b, P b (f a b)) →
  (∀ a b b', P b a → P b (f a b')) →
  ∀ l a b, b ∈ l → P b (foldl f a l).
Proof.
  intros Hest Hkeep. induction l as [|b' l IH]; intros a b Hb; simpl.
  - by apply elem_of_nil in Hb.
  - apply elem_of_cons in Hb as [-> | Hb]; [|by apply IH].
    clear IH. generalize (Hest a b'). generalize (f a b').
    induction l as [|c l IH]; intros a' Ha'; simpl; [done|].
    apply IH, Hkeep, Ha'.
Qed.

Lemma foldl_invariant {A B} (f : A → B → A) (I : A → Prop) (l : list B) (a : A) :
  I a → (∀ a b, b ∈ l → I a → I (f a b)) → I (foldl f a l).
Proof.
  revert a. induction l as [|b l IH]; intros a Ha H; simpl; [done|].
  apply IH.
  - apply H; [by left | done].
  - intros a' b' Hb'. apply H. by right.
Qed.

(** ** The working copy under the loop bodies *)

Section EngineFacts.

Variable challenges : list Challenge.
Variable logbookEntries : list LogbookEntry.

Local Abbreviation entriesFor := (getLogbookEntriesForChallenge challenges logbookEntries).
Local Abbreviation challengesFor := (getChallengesForLogbookEntry challenges logbookEntries).
Local Abbreviation toggleAch := (toggleAchievement challenges logbookEntries).
Local Abbreviation toggleEntry := (toggleLogbookEntry challenges logbookEntries).

Lemma foldl_grantUnlock w us :
  foldl grantUnlock w us
  = updUnlocks (JsSet.addAll us) (updViewedUnlockables (JsSet.addAll us) w).
Proof.
  revert w. induction us as [|u us IH]; intros w; simpl.
  - by destruct w.
  - rewrite IH. by destruct w.
Qed.

Lemma foldl_revokeUnlock w us :
  foldl revokeUnlock w us
  = updUnlocks (JsSet.deleteAll us) (updViewedUnlockables (JsSet.deleteAll us) w).
Proof.
  revert w. induction us as [|u us IH]; intros w; simpl.
  - by destruct w.
  - rewrite IH. by destruct w.
Qed.

Lemma foldl_markEntry w es :
  foldl markEntry w es
  = updDiscoveredPickups (JsSet.addAll (omap pickupOf es))
      (updUnlocks (JsSet.addAll (map e_unlockId es))
         (updViewedViewables (JsSet.addAll (map e_unlockId es)) w)).
Proof.
  revert w. induction es as [|e es IH]; intros w; simpl.
  - by destruct w.
  - rewrite IH. unfold markEntry. destruct (pickupOf e); by destruct w.
Qed.

Lemma foldl_unmarkEntry w es :
  foldl unmarkEntry w es
  = updDiscoveredPickups (JsSet.deleteAll (omap pickupOf es))
      (updUnlocks (JsSet.deleteAll (map e_unlockId es))
         (updViewedViewables (JsSet.deleteAll (map e_unlockId es)) w)).
Proof.
  revert w. induction es as [|e es IH]; intros w; simpl.
  - by destruct w.
  - rewrite IH. unfold unmarkEntry. destruct (pickupOf e); by destruct w.
Qed.

(** The guarded removal loop of the disable branch of [toggleAchievement]
    never changes [achievements], so its guard can be decided up front. *)
Lemma foldl_guarded_unmark a w es :
  foldl (λ w entry,
           if isLogbookEntryProvidedByOtherChallenge challenges logbookEntries
                entry a (achievements w)
           then w else unmarkEntry w entry) w es
  = foldl unmarkEntry w
      (filter (λ e, isLogbookEntryProvidedByOtherChallenge challenges logbookEntries
                      e a (achievements w) = false) es).
Proof.
  revert w. induction es as [|e es IH]; intros w; simpl; [done|].
  destruct (isLogbookEntryProvidedByOtherChallenge _ _ e a (achievements w)) eqn:E.
  - rewrite filter_cons_False by (rewrite E; done). apply IH.
  - rewrite filter_cons_True by done. simpl. rewrite IH.
    assert (achievements (unmarkEntry w e) = achievements w) as ->; [|done].
    unfold unmarkEntry. destruct (pickupOf e); by destruct w.
Qed.

Lemma findChallenge_None a :
  (∀ c, c ∈ challenges → c_achievement c ≠ a) → findChallenge challenges a = None.
Proof.
  unfold findChallenge. induction challenges as [|c cs IH]; intros H; simpl; [done|].
  assert (c_achievement c ≠ a) as Hc by (apply H; by left).
  apply String.eqb_neq in Hc. rewrite Hc. apply IH. intros c' Hc'. apply H. by right.
Qed.

Lemma findChallenge_Some a c :
  findChallenge challenges a = Some c → c ∈ challenges ∧ c_achievement c = a.
Proof.
  unfold findChallenge. intros H%List.find_some. destruct H as [Hin Heq].
  split; [by apply list_elem_of_In | by apply String.eqb_eq].
Qed.

Lemma unchangedSet_ofArray (l : list string) : unchangedSet l (JsSet.ofArray l).
Proof.
  split_and!.
  - intros x. apply elem_of_ofArray.
  - apply NoDup_ofArray.
  - apply ofArray_NoDup.
Qed.

(** ** [toggleAchievement]: frame and unknown identifiers *)

(** C10. Whatever the achievement id (known or not) and the direction,
    [toggleAchievement] returns a state whose counter map, name and coins are
    those of its input: only the six collections can differ. *)
Theorem toggleAchievement_frame (s : SaveData) (a : string) (en : bool) :
  stats (toggleAch s a en) = stats s
  ∧ name (toggleAch s a en) = name s
  ∧ coins (toggleAch s a en) = coins s.
Proof.
  unfold toggleAchievement.
  destruct en, (findChallenge challenges a) as [c|];
    rewrite ?foldl_guarded_unmark, ?foldl_markEntry, ?foldl_unmarkEntry,
      ?foldl_grantUnlock, ?foldl_revokeUnlock; simpl; done.
Qed.

(** C7, amended. For an achievement id that matches no challenge of the
    catalog, [toggleAchievement] (a total function: it cannot fault) is not a
    no-op on the achievement fields: it still applies the directly specified
    change, adding the id to, or deleting it from, [achievements] and
    [unviewedAchievements]. It changes nothing else: [viewedUnlockables],
    [unlocks], [viewedViewables] and [discoveredPickups] are unchanged as sets
    and the counter map, name and coins are unchanged. *)
Theorem toggleAchievement_unknown_id (s : SaveData) (a : string) (en : bool) :
  (∀ c, c ∈ challenges → c_achievement c ≠ a) →
  let r := toggleAch s a en in
  unchangedSet (viewedUnlockables s) (viewedUnlockables r)
  ∧ unchangedSet (unlocks s) (unlocks r)
  ∧ unchangedSet (viewedViewables s) (viewedViewables r)
  ∧ unchangedSet (discoveredPickups s) (discoveredPickups r)
  ∧ stats r = stats s ∧ name r = name s ∧ coins r = coins s
  ∧ (∀ x, x ∈ achievements r ↔
          if en then x = a ∨ x ∈ achievements s else x ≠ a ∧ x ∈ achievements s)
  ∧ (∀ x, x ∈ unviewedAchievements r ↔
          if en then x = a ∨ x ∈ unviewedAchievements s
          else x ≠ a ∧ x ∈ unviewedAchievements s).
Proof.
  intros Hunknown r. subst r. unfold toggleAchievement.
  rewrite (findChallenge_None a Hunknown).
  destruct en; simpl;
    (split_and!; try apply unchangedSet_ofArray; try done; intros x;
     rewrite ?elem_of_add, ?elem_of_delete, elem_of_ofArray; done).
Qed.

(** ** Enable steps only add *)

Lemma setsGrow_refl w : setsGrow w w.
Proof. unfold setsGrow. split_and!; done. Qed.

Lemma setsGrow_trans w1 w2 w3 : setsGrow w1 w2 → setsGrow w2 w3 → setsGrow w1 w3.
Proof.
  unfold setsGrow. intros (?&?&?&?&?) (?&?&?&?&?).
  split_and!; etrans; done.
Qed.

Lemma foldl_grows {B} (f : SaveData → B → SaveData) (l : list B) (w : SaveData) :
  (∀ w b, setsGrow w (f w b)) → setsGrow w (foldl f w l).
Proof.
  intros H. revert w. induction l as [|b l IH]; intros w; simpl.
  - apply setsGrow_refl.
  - eapply setsGrow_trans; [apply H | apply IH].
Qed.

Local Ltac grow_fields :=
  unfold setsGrow; simpl; split_and!; try done;
  intros ? ?; rewrite ?elem_of_add, ?elem_of_addAll; auto.

Lemma grantUnlocks_grows w us : setsGrow w (foldl grantUnlock w us).
Proof. rewrite foldl_grantUnlock. grow_fields. Qed.

Lemma markEntry_grows w e : setsGrow w (markEntry w e).
Proof. unfold markEntry. destruct (pickupOf e); grow_fields. Qed.

Lemma markEntries_grows w es : setsGrow w (foldl markEntry w es).
Proof. apply foldl_grows; intros; apply markEntry_grows. Qed.

Lemma addAliases_grows e w : setsGrow w (addAliases e w).
Proof. unfold addAliases. grow_fields. Qed.

Lemma stage_enable_keeps (x : string) stages acc :
  x ∈ acc.1 → x ∈ (foldl enableStage acc stages).1.
Proof.
  revert acc. induction stages as [|g stages IH]; intros acc Hx; simpl; [done|].
  apply IH. simpl. apply elem_of_add. by right.
Qed.

Lemma updateLogbookStats_enable_keeps e u st x :
  x ∈ u → x ∈ (updateLogbookStats e true u st).1.
Proof.
  intros Hx. unfold updateLogbookStats.
  destruct (logbookNames e) as [b f].
  destruct (negb (JsString.truthy b) && negb (JsString.truthy f)); [done|].
  destruct (e_category e); try done;
    try (by apply stage_enable_keeps).
  all: repeat case_match; simpl.
  all: rewrite elem_of_add; right; exact Hx.
Qed.

Lemma applyLogbookStats_grows e w : setsGrow w (applyLogbookStats e true w).
Proof.
  unfold applyLogbookStats.
  pose proof (λ x, updateLogbookStats_enable_keeps e (unlocks w) (stats w) x) as H.
  destruct (updateLogbookStats e true (unlocks w) (stats w)) as [u st].
  unfold setsGrow; simpl. split_and!; try done; intros x; apply H.
Qed.

Lemma unlockLinkedChallenge_grows f w c : setsGrow w (unlockLinkedChallenge f w c).
Proof.
  unfold unlockLinkedChallenge. destruct (dlcSkipped f (c_dlc c)).
  - apply setsGrow_refl.
  - eapply setsGrow_trans; [|apply grantUnlocks_grows]. grow_fields.
Qed.

Lemma unlockEntry_grows f w e :
  setsGrow w (unlockEntry challenges logbookEntries f w e).
Proof.
  unfold unlockEntry. destruct (dlcSkipped f (e_dlc e)).
  - apply setsGrow_refl.
  - eapply setsGrow_trans; [|apply applyLogbookStats_grows].
    eapply setsGrow_trans; [|apply addAliases_grows].
    eapply setsGrow_trans; [|apply foldl_grows; intros; apply unlockLinkedChallenge_grows].
    apply markEntry_grows.
Qed.


(** ** The reference graph only returns catalog members *)


Lemma logbookEntryById_elem id e :
  logbookEntryById logbookEntries !! id = Some e → e ∈ logbookEntries.
Proof.
  unfold logbookEntryById. revert id e.
  apply (foldl_invariant (λ m e, <[e_id e := e]> m)
           (λ m : gmap string LogbookEntry, ∀ id e, m !! id = Some e → e ∈ logbookEntries)).
  - intros id e. by rewrite lookup_empty.
  - intros m e' He' IH id e. rewrite lookup_insert.
    case_decide; [intros [= <-]; done | apply IH].
Qed.


Lemma entriesFor_elem cid e : e ∈ entriesFor cid → e ∈ logbookEntries.
Proof.
  unfold getLogbookEntriesForChallenge. intros (id & _ & H)%list_elem_of_omap.
  by apply logbookEntryById_elem in H.
Qed.

(** ** What a loop adds to one collection *)


Lemma applyLogbookStats_fields e en w :
  let w' := applyLogbookStats e en w in
  achievements w' = achievements w
  ∧ unviewedAchievements w' = unviewedAchievements w
  ∧ viewedUnlockables w' = viewedUnlockables w
  ∧ viewedViewables w' = viewedViewables w
  ∧ discoveredPickups w' = discoveredPickups w
  ∧ name w' = name w ∧ coins w' = coins w.
Proof.
  unfold applyLogbookStats. destruct (updateLogbookStats e en (unlocks w) (stats w)).
  simpl. split_and!; done.
Qed.



Lemma unlockChallenge_achievements f w c x :
  x ∈ achievements (unlockChallenge challenges logbookEntries f w c)
  ↔ x ∈ achievements w ∨ (dlcSkipped f (c_dlc c) = false ∧ c_achievement c = x).
Proof.
  unfold unlockChallenge. destruct (dlcSkipped f (c_dlc c)).
  - split; [auto | intros [?|[? _]]; done].
  - rewrite foldl_markEntry, foldl_grantUnlock. simpl. rewrite elem_of_add. naive_solver.
Qed.




(** ** Bulk unlock *)

Lemma unlockAll_unfold s f :
  unlockAll challenges logbookEntries s f
  = updUnviewedAchievements (λ _, [])
      (foldl (unlockEntry challenges logbookEntries f)
         (openSets
            (let w := foldl (unlockChallenge challenges logbookEntries f)
                        (openSets s) challenges in
             mkSave (name s) (coins s) (achievements w) [] (viewedUnlockables w)
               (unlocks w) (stats s) (viewedViewables w) (discoveredPickups w)))
         logbookEntries).
Proof. reflexivity. Qed.

(** A state reached by the first loop of [unlockAll] is included in the
    final state. *)
Lemma unlockAll_second_phase s f :
  let w := foldl (unlockChallenge challenges logbookEntries f) (openSets s) challenges in
  let r := unlockAll challenges logbookEntries s f in
  achievements w ⊆ achievements r
  ∧ viewedUnlockables w ⊆ viewedUnlockables r
  ∧ unlocks w ⊆ unlocks r
  ∧ viewedViewables w ⊆ viewedViewables r
  ∧ discoveredPickups w ⊆ discoveredPickups r.
Proof.
  intros w r. subst r. rewrite unlockAll_unfold. fold w.
  match goal with
  | |- context [foldl ?g (openSets ?s') logbookEntries] =>
      pose proof (foldl_grows g logbookEntries (openSets s')
                    (unlockEntry_grows f)) as (H1 & H2 & H3 & H4 & H5)
  end.
  simpl in *.
  split_and!; intros x Hx;
    [apply H1 | apply H2 | apply H3 | apply H4 | apply H5];
    by apply elem_of_ofArray.
Qed.

(** C4. After [unlockAll] without a DLC filter, every challenge of the
    catalog has its achievement id in [achievements] and every logbook entry
    of the catalog, whatever its category, satisfies
    [isLogbookEntryUnlocked]. *)
Theorem unlockAll_complete (s : SaveData) :
  (∀ c, c ∈ challenges →
        c_achievement c ∈ achievements (unlockAll challenges logbookEntries s None))
  ∧ (∀ e, e ∈ logbookEntries →
          isLogbookEntryUnlocked (unlockAll challenges logbookEntries s None) e = true).
Proof.
  split.
  - intros c Hc.
    destruct (unlockAll_second_phase s None) as (H & _). apply H. clear H.
    revert c Hc.
    apply (foldl_establish (unlockChallenge challenges logbookEntries None)
             (λ c w, c_achievement c ∈ achievements w)).
    + intros w c. apply unlockChallenge_achievements. right. done.
    + intros w c c' Hin. apply unlockChallenge_achievements. by left.
  - intros e He. unfold isLogbookEntryUnlocked.
    rewrite bool_decide_eq_true_2; [done|].
    rewrite unlockAll_unfold. simpl. revert e He.
    apply (foldl_establish (unlockEntry challenges logbookEntries None)
             (λ e w, e_unlockId e ∈ unlocks w)).
    + intros w e. unfold unlockEntry. simpl.
      eapply applyLogbookStats_grows. eapply addAliases_grows.
      eapply (foldl_grows (unlockLinkedChallenge None)).
      { intros; apply unlockLinkedChallenge_grows. }
      unfold markEntry. destruct (pickupOf e); simpl; apply elem_of_add; by left.
    + intros w e e' Hin. by apply unlockEntry_grows.
Qed.



(** ** The unlock predicate and the counter map *)

Lemma existsb_false_intro {A} (P : A → bool) (l : list A) :
  (∀ x, x ∈ l → P x = false) → existsb P l = false.
Proof.
  intros H. apply not_true_iff_false. intros (x & Hx%list_elem_of_In & HP)%existsb_exists.
  rewrite (H x Hx) in HP. done.
Qed.

Lemma startsWith_append (p x : string) : JsString.startsWith (p +:+ x) p = true.
Proof.
  induction p as [|a p IH]; simpl; [done|]. by rewrite Ascii.eqb_refl.
Qed.

(** The failsafe reads the profile through the derived log id only: its
    presence in [unlocks] and, when it is not an override, among the keys of
    the counter map. *)
Lemma statsFailsafe_logId (s : SaveData) (e : LogbookEntry) :
  statsFailsafe s e
  = match failsafeLogId e with
    | Some l =>
        bool_decide (l ∈ unlocks s)
        || (negb (isLogString (failsafeBodyName e))
            && bool_decide (is_Some (stats s !! l)))
    | None => false
    end.
Proof.
  unfold statsFailsafe, failsafeLogId. fold (failsafeBodyName e).
  destruct (JsString.truthy (failsafeBodyName e)); [|done].
  destruct (isLogString (failsafeBodyName e)); simpl.
  - by rewrite orb_false_r.
  - by rewrite orb_comm.
Qed.

Lemma statsFailsafe_absent (s : SaveData) (e : LogbookEntry) :
  (∀ l, failsafeLogId e = Some l → (l ∉ unlocks s) ∧ stats s !! l = None) →
  statsFailsafe s e = false.
Proof.
  intros H. rewrite statsFailsafe_logId.
  destruct (failsafeLogId e) as [l|]; [|done].
  destruct (H l eq_refl) as [Hu Hs].
  rewrite (bool_decide_eq_false_2 _ Hu), Hs.
  rewrite bool_decide_eq_false_2 by (by intros ?%is_Some_None).
  by rewrite andb_false_r.
Qed.

Lemma statsFailsafe_same_key (s : SaveData) (e : LogbookEntry) (st' : gmap string string) :
  (∀ l, failsafeLogId e = Some l → (is_Some (st' !! l) ↔ is_Some (stats s !! l))) →
  statsFailsafe (updStats (λ _, st') s) e = statsFailsafe s e.
Proof.
  intros H. rewrite !statsFailsafe_logId. simpl.
  destruct (failsafeLogId e) as [l|]; [|done].
  by rewrite (bool_decide_ext _ _ (H l eq_refl)).
Qed.

(** C8. Progress counters never make an entry unlocked. When the canonical
    unlock id of the entry, its aliases, its legacy viewable path and its
    pickup id (for a drone without one, the pickup id of the drone table) are
    absent from [unlocks], [viewedViewables] and [discoveredPickups], and the
    one log id the failsafe derives for the entry is neither in [unlocks] nor
    a key of the counter map, the predicate is false: whatever else [unlocks]
    holds (the log ids of other entries included) and whichever and however
    many counters the counter map holds. More generally the predicate reads
    the counter map through the presence of that one key only: replacing the
    counter map by any other that agrees on it leaves the answer unchanged. *)
Theorem counters_alone_do_not_unlock (s : SaveData) (e : LogbookEntry) :
  (e_unlockId e ∉ unlocks s →
   e_unlockId e ∉ viewedViewables s →
   (∀ a, a ∈ getLogbookAliases (e_unlockId e) → a ∉ viewedViewables s) →
   (∀ v, convertToViewableId e = Some v → v ∉ viewedViewables s) →
   (∀ p, pickupOf e = Some p → p ∉ discoveredPickups s) →
   (∀ d, getDronePickupId (e_unlockId e) = Some d → d ∉ discoveredPickups s) →
   (∀ l, failsafeLogId e = Some l → (l ∉ unlocks s) ∧ stats s !! l = None) →
   isLogbookEntryUnlocked s e = false)
  ∧ (∀ st' : gmap string string,
       (∀ l, failsafeLogId e = Some l → (is_Some (st' !! l) ↔ is_Some (stats s !! l))) →
       isLogbookEntryUnlocked (updStats (λ _, st') s) e = isLogbookEntryUnlocked s e).
Proof.
  split.
  - intros Hu Hv Ha Hp Hk Hd Hlog. unfold isLogbookEntryUnlocked.
    rewrite (bool_decide_eq_false_2 _ Hu), (bool_decide_eq_false_2 _ Hv).
    rewrite existsb_false_intro
      by (intros a Hin; apply bool_decide_eq_false_2, Ha, Hin).
    assert (match convertToViewableId e with
            | Some viewableId =>
                JsString.truthy viewableId && bool_decide (viewableId ∈ viewedViewables s)
            | None => false
            end = false) as ->.
    { destruct (convertToViewableId e) as [v|]; [|done].
      by rewrite (bool_decide_eq_false_2 _ (Hp v eq_refl)), andb_false_r. }
    assert (match pickupOf e with
            | Some p => bool_decide (p ∈ discoveredPickups s)
            | None => false
            end = false) as ->.
    { destruct (pickupOf e) as [p|]; [|done].
      by rewrite (bool_decide_eq_false_2 _ (Hk p eq_refl)). }
    assert (match e_category e, pickupOf e with
            | drones, None =>
                match getDronePickupId (e_unlockId e) with
                | Some d => JsString.truthy d && bool_decide (d ∈ discoveredPickups s)
                | None => false
                end
            | _, _ => false
            end = false) as ->.
    { destruct (e_category e), (pickupOf e); try done.
      destruct (getDronePickupId (e_unlockId e)) as [d|]; [|done].
      by rewrite (bool_decide_eq_false_2 _ (Hd d eq_refl)), andb_false_r. }
    by apply statsFailsafe_absent.
  - intros st' Hst. unfold isLogbookEntryUnlocked.
    rewrite (statsFailsafe_same_key s e st' Hst). reflexivity.
Qed.

(** ** Disable steps only delete *)

Lemma stateShrinks_refl w : stateShrinks w w.
Proof. unfold stateShrinks. split_and!; done. Qed.

Lemma stateShrinks_trans w1 w2 w3 :
  stateShrinks w1 w2 → stateShrinks w2 w3 → stateShrinks w1 w3.
Proof.
  unfold stateShrinks. intros (?&?&?&?&?&?&?) (?&?&?&?&?&?&?).
  split_and!; try (etrans; done). auto.
Qed.

Lemma foldl_shrinks {B} (f : SaveData → B → SaveData) (l : list B) (w : SaveData) :
  (∀ w b, stateShrinks w (f w b)) → stateShrinks w (foldl f w l).
Proof.
  intros H. revert w. induction l as [|b l IH]; intros w; simpl.
  - apply stateShrinks_refl.
  - eapply stateShrinks_trans; [apply H | apply IH].
Qed.

Local Ltac shrink_fields :=
  unfold stateShrinks; simpl; split_and!; try done;
  try (let H := fresh in
       intros ? H;
       first [apply elem_of_delete in H | apply elem_of_deleteAll in H]; tauto);
  try (intros ? ?; rewrite ?lookup_delete; repeat case_decide; done).

Lemma revokeUnlocks_shrinks w us : stateShrinks w (foldl revokeUnlock w us).
Proof. rewrite foldl_revokeUnlock. shrink_fields. Qed.

Lemma unmarkEntry_shrinks w e : stateShrinks w (unmarkEntry w e).
Proof. unfold unmarkEntry. destruct (pickupOf e); shrink_fields. Qed.

Lemma deleteAliases_shrinks e w : stateShrinks w (deleteAliases e w).
Proof. unfold deleteAliases. shrink_fields. Qed.

Lemma deletePickup_shrinks e w :
  stateShrinks w
    match pickupOf e with
    | Some p => updDiscoveredPickups (JsSet.delete p) w
    | None => w
    end.
Proof. destruct (pickupOf e); shrink_fields. Qed.

Lemma deleteEntryId_shrinks e w :
  stateShrinks w
    (updViewedViewables (JsSet.delete (e_unlockId e))
       (updUnlocks (JsSet.delete (e_unlockId e)) w)).
Proof. shrink_fields. Qed.

Lemma stage_disable_shrinks stages (acc : list string * gmap string string) :
  (foldl disableStage acc stages).1 ⊆ acc.1
  ∧ ∀ k, acc.2 !! k = None → (foldl disableStage acc stages).2 !! k = None.
Proof.
  revert acc. induction stages as [|g stages IH]; intros acc; simpl; [done|].
  destruct (IH (disableStage acc g)) as [IH1 IH2]. split.
  - intros x Hx. apply IH1 in Hx. simpl in Hx. apply elem_of_delete in Hx. tauto.
  - intros k Hk. apply IH2. simpl. rewrite lookup_delete. by case_decide.
Qed.

Lemma updateLogbookStats_disable_shrinks e u st :
  (updateLogbookStats e false u st).1 ⊆ u
  ∧ ∀ k, st !! k = None → (updateLogbookStats e false u st).2 !! k = None.
Proof.
  unfold updateLogbookStats.
  destruct (logbookNames e) as [b f].
  destruct (negb (JsString.truthy b) && negb (JsString.truthy f)); [done|].
  destruct (e_category e); try done;
    try (apply (stage_disable_shrinks _ (u, st))).
  all: repeat case_match; simpl; split;
    try (intros x Hx; apply elem_of_delete in Hx; tauto);
    intros k Hk; rewrite ?lookup_delete; repeat case_decide; done.
Qed.

Lemma applyLogbookStats_disable_shrinks e w : stateShrinks w (applyLogbookStats e false w).
Proof.
  unfold applyLogbookStats.
  pose proof (updateLogbookStats_disable_shrinks e (unlocks w) (stats w)) as [H1 H2].
  destruct (updateLogbookStats e false (unlocks w) (stats w)) as [u st].
  unfold stateShrinks; simpl. split_and!; done.
Qed.

Lemma disableChallenge_shrinks w c :
  stateShrinks w (disableChallenge challenges logbookEntries w c).
Proof.
  unfold disableChallenge.
  eapply stateShrinks_trans; [|apply foldl_shrinks; intros; apply unmarkEntry_shrinks].
  eapply stateShrinks_trans; [|apply revokeUnlocks_shrinks].
  shrink_fields.
Qed.

(** ** What a loop removes from one collection *)

Lemma foldl_field_del {B} (f : SaveData → B → SaveData) (p : SaveData → list string)
    (Q : B → string → Prop) :
  (∀ w b x, x ∈ p (f w b) ↔ x ∈ p w ∧ ¬ Q b x) →
  ∀ l w x, x ∈ p (foldl f w l) ↔ x ∈ p w ∧ ¬ ∃ b, b ∈ l ∧ Q b x.
Proof.
  intros Hstep. induction l as [|b l IH]; intros w x; simpl.
  - split; [|tauto]. intros ?. split; [done|]. intros (b & Hb & _).
    by apply elem_of_nil in Hb.
  - rewrite IH, Hstep. split.
    + intros [[? Hb] Hl]. split; [done|]. intros (b' & Hb' & HQ).
      apply elem_of_cons in Hb' as [-> | ?]; [done|]. apply Hl. by exists b'.
    + intros [? Hn]. split_and!; [done | |].
      * intros HQ. apply Hn. exists b. split; [by left | done].
      * intros (b' & ? & ?). apply Hn. exists b'. split; [by right | done].
Qed.

Lemma disableChallenge_achievements w c x :
  x ∈ achievements (disableChallenge challenges logbookEntries w c)
  ↔ x ∈ achievements w ∧ ¬ c_achievement c = x.
Proof.
  unfold disableChallenge. rewrite foldl_unmarkEntry, foldl_revokeUnlock. simpl.
  rewrite elem_of_delete. split; intros [? ?]; split; congruence.
Qed.

Lemma disableChallenge_unviewed w c x :
  x ∈ unviewedAchievements (disableChallenge challenges logbookEntries w c)
  ↔ x ∈ unviewedAchievements w ∧ ¬ c_achievement c = x.
Proof.
  unfold disableChallenge. rewrite foldl_unmarkEntry, foldl_revokeUnlock. simpl.
  rewrite elem_of_delete. split; intros [? ?]; split; congruence.
Qed.

Lemma disableChallenge_viewedUnlockables w c x :
  x ∈ viewedUnlockables (disableChallenge challenges logbookEntries w c)
  ↔ x ∈ viewedUnlockables w ∧ ¬ x ∈ c_unlocks c.
Proof.
  unfold disableChallenge. rewrite foldl_unmarkEntry, foldl_revokeUnlock. simpl.
  rewrite elem_of_deleteAll. tauto.
Qed.

(** ** Disabling a logbook entry *)

Lemma shouldDisable_spec c E (vv : list string) :
  shouldDisableChallengeForEntry challenges logbookEntries c E vv = true
  ↔ List.length (entriesFor (c_id c)) = 1
    ∨ ∀ e, e ∈ entriesFor (c_id c) → e_id e ≠ e_id E → e_unlockId e ∉ vv.
Proof.
  unfold shouldDisableChallengeForEntry.
  destruct (Nat.eqb (List.length (entriesFor (c_id c))) 1) eqn:El.
  - apply Nat.eqb_eq in El. split; [by left | done].
  - apply Nat.eqb_neq in El. rewrite negb_true_iff. split.
    + intros Hex. right. intros e He Hne Hin.
      assert (existsb (λ entry, negb (e_id entry =? e_id E)%string
                                && JsSet.has (e_unlockId entry) vv)
                (entriesFor (c_id c)) = true) as Habs; [|congruence].
      apply existsb_exists. exists e. split; [by apply list_elem_of_In|].
      apply andb_true_iff. split.
      * apply negb_true_iff, String.eqb_neq, Hne.
      * by apply has_true.
    + intros [?|H]; [done|]. apply existsb_false_intro. intros e He.
      destruct (String.eqb (e_id e) (e_id E)) eqn:Eid; [done|]. simpl.
      apply has_false, H; [done|]. by apply String.eqb_neq.
Qed.

Lemma shouldDisable_ofArray c E (l : list string) :
  shouldDisableChallengeForEntry challenges logbookEntries c E (JsSet.ofArray l)
  = shouldDisableChallengeForEntry challenges logbookEntries c E l.
Proof.
  apply eq_true_iff_eq. rewrite !shouldDisable_spec.
  split; (intros [?|H]; [by left | right]); intros e He Hne;
    specialize (H e He Hne); by rewrite elem_of_ofArray in *.
Qed.

Lemma toggleLogbookEntry_disable_unfold s E :
  toggleEntry s E false
  = foldl (disableChallenge challenges logbookEntries)
      (applyLogbookStats E false
         match pickupOf E with
         | Some p =>
             updDiscoveredPickups (JsSet.delete p)
               (deleteAliases E
                  (updViewedViewables (JsSet.delete (e_unlockId E))
                     (updUnlocks (JsSet.delete (e_unlockId E)) (openSets s))))
         | None =>
             deleteAliases E
               (updViewedViewables (JsSet.delete (e_unlockId E))
                  (updUnlocks (JsSet.delete (e_unlockId E)) (openSets s)))
         end)
      (filter (λ c, shouldDisableChallengeForEntry challenges logbookEntries c E
                      (viewedViewables s) = true)
         (challengesFor (e_id E))).
Proof.
  unfold toggleLogbookEntry. simpl. f_equal.
  apply list_filter_iff. intros c. by rewrite shouldDisable_ofArray.
Qed.

(** C2. Disabling a logbook entry [E] disables exactly the challenges linked
    to [E] for which [shouldDisableChallengeForEntry] holds on the
    [viewedViewables] of the input state, taken before any removal. The rule
    holds when the challenge links to exactly one entry, and otherwise only
    when every other entry the challenge links to has its unlock id absent
    from that snapshot. The challenges so selected, and no other achievement
    id, leave [achievements] and [unviewedAchievements]; their unlock ids
    leave [viewedUnlockables] and [unlocks]; and the markers of every entry
    they link to are removed. *)
Theorem toggleLogbookEntry_disable_cascade (s : SaveData) (E : LogbookEntry) :
  let r := toggleEntry s E false in
  let selected c :=
    c ∈ challengesFor (e_id E)
    ∧ shouldDisableChallengeForEntry challenges logbookEntries c E (viewedViewables s) = true in
  (∀ c vv,
     shouldDisableChallengeForEntry challenges logbookEntries c E vv = true
     ↔ List.length (entriesFor (c_id c)) = 1
       ∨ ∀ e, e ∈ entriesFor (c_id c) → e_id e ≠ e_id E → e_unlockId e ∉ vv)
  ∧ (∀ a, a ∈ achievements r
          ↔ a ∈ achievements s ∧ ¬ ∃ c, selected c ∧ c_achievement c = a)
  ∧ (∀ a, a ∈ unviewedAchievements r
          ↔ a ∈ unviewedAchievements s ∧ ¬ ∃ c, selected c ∧ c_achievement c = a)
  ∧ (∀ u, u ∈ viewedUnlockables r
          ↔ u ∈ viewedUnlockables s ∧ ¬ ∃ c, selected c ∧ u ∈ c_unlocks c)
  ∧ (∀ c, selected c →
          (∀ u, u ∈ c_unlocks c → u ∉ unlocks r)
          ∧ (∀ e, e ∈ entriesFor (c_id c) →
                  (e_unlockId e ∉ viewedViewables r) ∧ (e_unlockId e ∉ unlocks r)
                  ∧ (∀ p, pickupOf e = Some p → p ∉ discoveredPickups r))).
Proof.
  intros r selected. subst r. rewrite toggleLogbookEntry_disable_unfold.
  set (w := applyLogbookStats E false _).
  assert (achievements w = JsSet.ofArray (achievements s)
          ∧ unviewedAchievements w = JsSet.ofArray (unviewedAchievements s)
          ∧ viewedUnlockables w = JsSet.ofArray (viewedUnlockables s)) as (Ha & Hn & Hv).
  { subst w.
    match goal with
    | |- context [applyLogbookStats E false ?w0] =>
        destruct (applyLogbookStats_fields E false w0) as (-> & -> & -> & _)
    end.
    destruct (pickupOf E); simpl; done. }
  assert (∀ c, (c ∈ filter (λ c, shouldDisableChallengeForEntry challenges
                                   logbookEntries c E (viewedViewables s) = true)
                      (challengesFor (e_id E))) ↔ selected c) as Hsel.
  { intros c. subst selected. simpl. rewrite list_elem_of_filter. tauto. }
  split_and!.
  - intros c vv. apply shouldDisable_spec.
  - intros a.
    rewrite (foldl_field_del _ achievements _ disableChallenge_achievements).
    rewrite Ha, elem_of_ofArray. setoid_rewrite Hsel. done.
  - intros a.
    rewrite (foldl_field_del _ unviewedAchievements _ disableChallenge_unviewed).
    rewrite Hn, elem_of_ofArray. setoid_rewrite Hsel. done.
  - intros u.
    rewrite (foldl_field_del _ viewedUnlockables _ disableChallenge_viewedUnlockables).
    rewrite Hv, elem_of_ofArray. setoid_rewrite Hsel. done.
  - intros c Hc. apply Hsel in Hc. revert c Hc.
    apply (foldl_establish (disableChallenge challenges logbookEntries)
             (λ c w,
                (∀ u, u ∈ c_unlocks c → u ∉ unlocks w)
                ∧ (∀ e, e ∈ entriesFor (c_id c) →
                        (e_unlockId e ∉ viewedViewables w) ∧ (e_unlockId e ∉ unlocks w)
                        ∧ (∀ p, pickupOf e = Some p → p ∉ discoveredPickups w)))).
    + intros w' c. unfold disableChallenge.
      rewrite foldl_unmarkEntry, foldl_revokeUnlock. simpl. split.
      * intros u Hu. rewrite !elem_of_deleteAll. tauto.
      * intros e He. split_and!.
        -- rewrite elem_of_deleteAll. intros [Hn' _]. apply Hn'.
           apply list_elem_of_fmap. by exists e.
        -- rewrite elem_of_deleteAll. intros [Hn' _]. apply Hn'.
           apply list_elem_of_fmap. by exists e.
        -- intros p Hp. rewrite elem_of_deleteAll. intros [Hn' _]. apply Hn'.
           apply list_elem_of_omap. by exists e.
    + intros w' c c' [IH1 IH2].
      destruct (disableChallenge_shrinks w' c') as (_ & _ & _ & S4 & S5 & S6 & _).
      split.
      * intros u Hu Hin. by apply (IH1 u Hu), S4.
      * intros e He. destruct (IH2 e He) as (I1 & I2 & I3). split_and!.
        -- intros Hin. by apply I1, S5.
        -- intros Hin. by apply I2, S4.
        -- intros p Hp Hin. by apply (I3 p Hp), S6.
Qed.

(** ** Enabling then disabling an achievement *)

(** Deleting what was just added to a set that held none of it. *)
Lemma deleteAll_addAll_fresh (ds xs base : list string) :
  (∀ x, x ∈ xs → x ∈ ds) → (∀ x, x ∈ base → x ∉ ds) →
  JsSet.deleteAll ds (JsSet.addAll xs base) = base.
Proof.
  intros Hxs Hbase. rewrite deleteAll_filter, filter_addAll.
  - apply filter_all, Forall_forall. intros x Hx. by apply Hbase.
  - apply Forall_forall. intros x Hx Hn. by apply Hn, Hxs.
Qed.

Lemma delete_add_fresh (a : string) (base : list string) :
  a ∉ base → JsSet.delete a (JsSet.add a base) = base.
Proof.
  intros Ha. unfold JsSet.delete. rewrite filter_add by (intros H; by apply H).
  apply filter_all, Forall_forall. intros x Hx ->. done.
Qed.

Lemma toggleAchievement_enable_unfold s a A :
  findChallenge challenges a = Some A →
  toggleAch s a true
  = foldl markEntry
      (foldl grantUnlock
         (updUnviewedAchievements (JsSet.add a)
            (updAchievements (JsSet.add a) (openSets s)))
         (c_unlocks A))
      (entriesFor (c_id A)).
Proof. intros H. unfold toggleAchievement. by rewrite H. Qed.

Lemma toggleAchievement_disable_unfold s a A :
  findChallenge challenges a = Some A →
  toggleAch s a false
  = foldl unmarkEntry
      (foldl revokeUnlock
         (updUnviewedAchievements (JsSet.delete a)
            (updAchievements (JsSet.delete a) (openSets s)))
         (c_unlocks A))
      (filter (λ e, isLogbookEntryProvidedByOtherChallenge challenges logbookEntries
                      e a (JsSet.delete a (JsSet.ofArray (achievements s))) = false)
         (entriesFor (c_id A))).
Proof.
  intros H. unfold toggleAchievement. rewrite H, foldl_guarded_unmark.
  by rewrite foldl_revokeUnlock.
Qed.

Lemma providedByOther_false e a (held : list string) :
  (∀ c, c ∈ challengesFor (e_id e) → c_achievement c ≠ a → c_achievement c ∉ held) →
  isLogbookEntryProvidedByOtherChallenge challenges logbookEntries e a held = false.
Proof.
  intros H. unfold isLogbookEntryProvidedByOtherChallenge.
  apply existsb_false_intro. intros c Hc.
  destruct (String.eqb (c_achievement c) a) eqn:Ec; [done|]. simpl.
  apply has_false, H; [done|]. by apply String.eqb_neq.
Qed.

(** C3, amended. For a challenge [A] that is not held in [s] (its achievement
    id, its unlock ids and the markers of its linked entries are absent from
    the collections of [s]) and whose linked entries are provided by no other
    achievement held in [s], enabling then disabling [A] restores each of the
    six collections to its value in [s]. *)
Theorem toggleAchievement_enable_disable (s : SaveData) (A : Challenge) :
  findChallenge challenges (c_achievement A) = Some A →
  c_achievement A ∉ achievements s →
  c_achievement A ∉ unviewedAchievements s →
  (∀ u, u ∈ c_unlocks A → (u ∉ viewedUnlockables s) ∧ (u ∉ unlocks s)) →
  (∀ e, e ∈ entriesFor (c_id A) →
        (e_unlockId e ∉ viewedViewables s) ∧ (e_unlockId e ∉ unlocks s)
        ∧ (∀ p, pickupOf e = Some p → p ∉ discoveredPickups s)) →
  (∀ e c, e ∈ entriesFor (c_id A) → c ∈ challengesFor (e_id e) →
          c_achievement c ≠ c_achievement A → c_achievement c ∉ achievements s) →
  let r := toggleAch (toggleAch s (c_achievement A) true) (c_achievement A) false in
  unchangedSet (achievements s) (achievements r)
  ∧ unchangedSet (unviewedAchievements s) (unviewedAchievements r)
  ∧ unchangedSet (viewedUnlockables s) (viewedUnlockables r)
  ∧ unchangedSet (unlocks s) (unlocks r)
  ∧ unchangedSet (viewedViewables s) (viewedViewables r)
  ∧ unchangedSet (discoveredPickups s) (discoveredPickups r).
Proof.
  intros Hfind Ha Hn Hu He Hother r.
  assert (achievements r = JsSet.ofArray (achievements s)
          ∧ unviewedAchievements r = JsSet.ofArray (unviewedAchievements s)
          ∧ viewedUnlockables r = JsSet.ofArray (viewedUnlockables s)
          ∧ unlocks r = JsSet.ofArray (unlocks s)
          ∧ viewedViewables r = JsSet.ofArray (viewedViewables s)
          ∧ discoveredPickups r = JsSet.ofArray (discoveredPickups s))
    as (-> & -> & -> & -> & -> & ->);
    [|split_and!; apply unchangedSet_ofArray].
  subst r.
  rewrite (toggleAchievement_disable_unfold _ _ A Hfind).
  rewrite (toggleAchievement_enable_unfold _ _ A Hfind).
  rewrite foldl_unmarkEntry, foldl_revokeUnlock, foldl_markEntry, foldl_grantUnlock.
  simpl.
  rewrite !(ofArray_NoDup (JsSet.addAll _ _))
    by (repeat apply NoDup_addAll; first [apply NoDup_ofArray | apply NoDup_nil_2]).
  rewrite !(ofArray_NoDup (JsSet.add _ _)) by (apply NoDup_add, NoDup_ofArray).
  rewrite !delete_add_fresh by (by rewrite elem_of_ofArray).
  assert (filter (λ e, isLogbookEntryProvidedByOtherChallenge challenges logbookEntries
                         e (c_achievement A) (JsSet.ofArray (achievements s)) = false)
            (entriesFor (c_id A)) = entriesFor (c_id A)) as ->.
  { apply filter_all, Forall_forall. intros e Hin.
    apply providedByOther_false. intros c Hc Hne.
    rewrite elem_of_ofArray. by eapply Hother. }
  split_and!; try done.
  - apply deleteAll_addAll_fresh; [done|].
    intros x Hx Hin. rewrite elem_of_ofArray in Hx. destruct (Hu x Hin) as [H1 _]. by apply H1.
  - rewrite deleteAll_filter, deleteAll_filter, list_filter_filter, !filter_addAll.
    + apply filter_all, Forall_forall. intros x Hx. rewrite elem_of_ofArray in Hx. split.
      * intros (e & -> & Hin)%list_elem_of_fmap.
        destruct (He e Hin) as (_ & H2 & _). by apply H2.
      * intros Hin. destruct (Hu x Hin) as [_ H2]. by apply H2.
    + apply Forall_forall. intros x Hx [_ Hn']. done.
    + apply Forall_forall. intros x Hx [Hn' _]. done.
  - apply deleteAll_addAll_fresh; [done|].
    intros x Hx (e & -> & Hin)%list_elem_of_fmap. rewrite elem_of_ofArray in Hx.
    destruct (He e Hin) as (H1 & _). by apply H1.
  - apply deleteAll_addAll_fresh; [done|].
    intros x Hx (e & Hin & Hp)%list_elem_of_omap. rewrite elem_of_ofArray in Hx.
    destruct (He e Hin) as (_ & _ & H3). by apply (H3 x Hp).
Qed.

(** ** Bulk lock of the logbook *)

Lemma endsWith_length (s suf : string) :
  JsString.endsWith s suf = true → (String.length suf <= String.length s)%nat.
Proof.
  induction s as [|c s IH]; cbn [JsString.endsWith].
  - destruct suf; [done | discriminate].
  - destruct (String.eqb (String c s) suf) eqn:E.
    + apply String.eqb_eq in E as <-. done.
    + intros H. specialize (IH H). cbn [String.length]. lia.
Qed.

Lemma substring_0_0 (s : string) : String.substring 0 0 s = "".
Proof. by destruct s. Qed.

Lemma endsWith_dropEnd (s suf : string) :
  JsString.endsWith s suf = true →
  JsString.dropEnd (String.length suf) s +:+ suf = s.
Proof.
  unfold JsString.dropEnd. induction s as [|c s IH].
  - simpl. destruct suf; [done | discriminate].
  - cbn [JsString.endsWith]. destruct (String.eqb (String c s) suf) eqn:E.
    + apply String.eqb_eq in E as <-. intros _.
      rewrite Nat.sub_diag, substring_0_0. done.
    + intros H. pose proof (endsWith_length _ _ H) as Hl.
      cbn [String.length].
      replace (S (String.length s) - String.length suf)
        with (S (String.length s - String.length suf)) by lia.
      cbn [String.substring].
      transitivity
        (String c (String.substring 0 (String.length s - String.length suf) s +:+ suf));
        [reflexivity | by rewrite (IH H)].
Qed.

Lemma lockStatBody_statBodyNameOf (b f : string) :
  JsString.includes f "SolusHeart" = false → lockStatBody b = statBodyNameOf b f.
Proof.
  intros Hf. unfold lockStatBody, statBodyNameOf. rewrite Hf.
  destruct (JsString.endsWith b "Body") eqn:E; simpl; [|done].
  apply (endsWith_dropEnd b "Body" E).
Qed.

Lemma lockNames_logbookNames e :
  JsString.startsWith (e_unlockId e) "Logs." = false → lockNames e = logbookNames e.
Proof. intros H. unfold lockNames, logbookNames. by rewrite H. Qed.

Lemma lockNames_log e :
  JsString.truthy (lockNames e).2 = true → isLogString (lockNames e).2 = true.
Proof.
  unfold lockNames. destruct (JsString.startsWith (e_unlockId e) "Logs."); [done|].
  destruct (isLogString (getInternalBodyName (e_unlockId e))) eqn:E; simpl; done.
Qed.

Lemma isTrackedKey_false k p :
  isTrackedKey k = false → p ∈ trackedPrefixes → JsString.startsWith k p = false.
Proof.
  unfold isTrackedKey. intros H Hp. apply not_true_iff_false. intros Hs.
  apply not_true_iff_false in H. apply H, existsb_exists.
  exists p. split; [by apply list_elem_of_In | done].
Qed.

(** A key outside the tracked families differs from every key that starts
    with a tracked prefix. *)
Lemma untracked_ne k p x :
  isTrackedKey k = false → p ∈ trackedPrefixes → p +:+ x ≠ k.
Proof.
  intros H Hp <-.
  pose proof (isTrackedKey_false _ p H Hp) as Hs.
  by rewrite startsWith_append in Hs.
Qed.

Lemma untracked_ne_log k f :
  isTrackedKey k = false → isLogString f = true → f ≠ k.
Proof.
  intros H Hf <-. unfold isLogString in Hf. apply orb_true_iff in Hf as [Hf|Hf].
  - rewrite (isTrackedKey_false _ "Logs." H) in Hf; [done|]. set_solver.
  - rewrite (isTrackedKey_false _ "Log." H) in Hf; [done|]. set_solver.
Qed.

Lemma lockEntryStats_fields e w :
  let w' := lockEntryStats e w in
  achievements w' = achievements w
  ∧ unviewedAchievements w' = unviewedAchievements w
  ∧ viewedUnlockables w' = viewedUnlockables w
  ∧ viewedViewables w' = viewedViewables w
  ∧ discoveredPickups w' = discoveredPickups w
  ∧ unlocks w' ⊆ unlocks w
  ∧ (∀ k, stats w !! k = None → stats w' !! k = None).
Proof.
  unfold lockEntryStats. destruct (lockNames e) as [b f].
  destruct (JsString.truthy b || JsString.truthy f); [|simpl; split_and!; done].
  destruct (e_category e); simpl;
    repeat case_match; simpl; split_and!; try done;
    try (let H := fresh in intros ? H; apply elem_of_delete in H; tauto);
    intros ? ?; rewrite ?lookup_delete; repeat case_decide; done.
Qed.

Lemma lockEntryStats_shrinks e w : stateShrinks w (lockEntryStats e w).
Proof.
  destruct (lockEntryStats_fields e w) as (H1 & H2 & H3 & H4 & H5 & H6 & H7).
  unfold stateShrinks. rewrite H1, H2, H3, H4, H5. split_and!; done.
Qed.

Lemma lockEntry_shrinks acc e :
  stateShrinks acc.1 (lockEntry challenges logbookEntries acc e).1.
Proof.
  destruct acc as [w cs]. unfold lockEntry. simpl.
  eapply stateShrinks_trans; [|apply (deletePickup_shrinks e)].
  eapply stateShrinks_trans; [|apply lockEntryStats_shrinks].
  eapply stateShrinks_trans; [|apply deleteAliases_shrinks].
  apply deleteEntryId_shrinks.
Qed.

Lemma lockAchievement_shrinks w a :
  stateShrinks w (lockAchievement challenges w a).
Proof.
  unfold lockAchievement. destruct (findChallenge challenges a).
  - eapply stateShrinks_trans; [|apply revokeUnlocks_shrinks]. shrink_fields.
  - shrink_fields.
Qed.

Lemma lockAllLogbook_unfold s :
  lockAllLogbook challenges logbookEntries s
  = foldl (lockAchievement challenges)
      (foldl (lockEntry challenges logbookEntries) (openSets s, []) logbookEntries).1
      (foldl (lockEntry challenges logbookEntries) (openSets s, []) logbookEntries).2.
Proof.
  unfold lockAllLogbook.
  by destruct (foldl (lockEntry challenges logbookEntries) (openSets s, []) logbookEntries).
Qed.

(** The second loop of [lockAllLogbook] can only shrink what the first left. *)
Lemma lockAllLogbook_shrinks_first s :
  stateShrinks
    (foldl (lockEntry challenges logbookEntries) (openSets s, []) logbookEntries).1
    (lockAllLogbook challenges logbookEntries s).
Proof.
  rewrite lockAllLogbook_unfold. apply foldl_shrinks. intros. apply lockAchievement_shrinks.
Qed.

Lemma lockEntryStats_frame e w k :
  isTrackedKey k = false → stats (lockEntryStats e w) !! k = stats w !! k.
Proof.
  intros Hk. unfold lockEntryStats.
  pose proof (lockNames_log e) as Hlog.
  destruct (lockNames e) as [b f]. simpl in Hlog.
  destruct (JsString.truthy b || JsString.truthy f); [|done].
  assert (∀ p x, p ∈ trackedPrefixes → p +:+ x ≠ k) as Hne
    by (intros p x Hp; by apply untracked_ne).
  assert (∀ x, "Logs." +:+ x ≠ k) as HneL by (intros x; apply Hne; set_solver).
  destruct (e_category e); simpl.
  - destruct (JsString.truthy f) eqn:Ef; simpl.
    + rewrite Ef. simpl. rewrite !lookup_delete_ne; [done|..];
        first [apply Hne; set_solver | solve [apply untracked_ne_log; auto]].
    + rewrite !lookup_delete_ne; [done|..];
        first [apply (HneL (b +:+ "Body.0")) | apply Hne; set_solver].
  - simpl. rewrite lookup_delete_ne; [done|].
    apply (HneL ("Stages." +:+ JsString.toLowerCase b)).
  - destruct (JsString.truthy f) eqn:Ef; simpl.
    + rewrite Ef. simpl. rewrite !lookup_delete_ne; [done|..];
        first [apply Hne; set_solver | solve [apply untracked_ne_log; auto]].
    + rewrite !lookup_delete_ne; [done|..];
        first [apply (HneL (b +:+ "Body.0")) | apply Hne; set_solver].
  - destruct (JsString.truthy f) eqn:Ef; simpl; [|done].
    rewrite lookup_delete_ne; [done|]. apply untracked_ne_log; auto.
  - destruct (JsString.truthy f) eqn:Ef; simpl; [|done].
    rewrite lookup_delete_ne; [done|]. apply untracked_ne_log; auto.
  - destruct (JsString.truthy f) eqn:Ef; simpl.
    + rewrite Ef. simpl. rewrite !lookup_delete_ne; [done|..];
        first [apply Hne; set_solver | solve [apply untracked_ne_log; auto]].
    + rewrite !lookup_delete_ne; [done|..];
        first [apply (HneL (b +:+ "Body.0")) | apply Hne; set_solver].
Qed.

Lemma lockEntry_frame acc e k :
  isTrackedKey k = false →
  stats (lockEntry challenges logbookEntries acc e).1 !! k = stats acc.1 !! k.
Proof.
  intros Hk. destruct acc as [w cs]. unfold lockEntry. simpl.
  assert (∀ w0, stats match pickupOf e with
                      | Some p => updDiscoveredPickups (JsSet.delete p) w0
                      | None => w0
                      end = stats w0) as -> by (intros; by destruct (pickupOf e)).
  by rewrite lockEntryStats_frame.
Qed.

Lemma lockAchievement_stats w a : stats (lockAchievement challenges w a) = stats w.
Proof.
  unfold lockAchievement. destruct (findChallenge challenges a); [|done].
  by rewrite foldl_revokeUnlock.
Qed.

Lemma lockEntry_removes_ids acc e :
  let w := (lockEntry challenges logbookEntries acc e).1 in
  (e_unlockId e ∉ unlocks w) ∧ (e_unlockId e ∉ viewedViewables w)
  ∧ (∀ p, pickupOf e = Some p → p ∉ discoveredPickups w).
Proof.
  destruct acc as [w0 cs]. unfold lockEntry. simpl.
  set (w1 := updViewedViewables (JsSet.delete (e_unlockId e))
               (updUnlocks (JsSet.delete (e_unlockId e)) w0)).
  assert ((e_unlockId e ∉ unlocks w1) ∧ (e_unlockId e ∉ viewedViewables w1)) as [U V].
  { subst w1. simpl. rewrite !elem_of_delete. tauto. }
  pose proof (stateShrinks_trans _ _ _ (deleteAliases_shrinks e w1)
                (lockEntryStats_shrinks e (deleteAliases e w1)))
    as (_ & _ & _ & S4 & S5 & _).
  destruct (pickupOf e) as [p|]; simpl; split_and!.
  - intros H. by apply U, S4.
  - intros H. by apply V, S5.
  - intros p' [= <-]. rewrite elem_of_delete. tauto.
  - intros H. by apply U, S4.
  - intros H. by apply V, S5.
  - done.
Qed.

(** For an entry whose unlock id is a viewable path, the counters that
    enabling writes are the counters that [lockAllLogbook] deletes. *)
Lemma lockEntryStats_removes_counters e w k :
  e_category e ≠ environments →
  JsString.startsWith (e_unlockId e) "Logs." = false →
  JsString.includes (logbookNames e).2 "SolusHeart" = false →
  is_Some ((updateLogbookStats e true [] ∅).2 !! k) →
  k ∉ phaseKeys →
  stats (lockEntryStats e w) !! k = None.
Proof.
  intros Hcat Hpath Hsolus Hk Hphase.
  unfold updateLogbookStats in Hk. unfold lockEntryStats.
  rewrite (lockNames_logbookNames e Hpath). clear Hpath.
  destruct (logbookNames e) as [b f]. cbn [snd] in Hsolus.
  rewrite <- (lockStatBody_statBodyNameOf b f Hsolus) in Hk. clear Hsolus.
  revert Hk. generalize (lockStatBody b). generalize (logUnlockOf b f).
  intros lu sb Hk.
  assert (∀ (m : gmap string string) a, a = k → delete a m !! k = None) as Hdel
    by (intros m a ->; apply lookup_delete_eq).
  assert (∀ (m : gmap string string) a, m !! k = None → delete a m !! k = None) as Hkeep
    by (intros m a Hm; rewrite lookup_delete; by case_decide).
  destruct (JsString.truthy b) eqn:Eb, (JsString.truthy f) eqn:Ef;
    cbn [negb andb orb fst snd] in *;
    try (by apply is_Some_None in Hk).
  all: destruct (e_category e); try congruence;
    cbn [fst snd] in Hk; try (by apply is_Some_None in Hk).
  all: destruct (String.eqb lu "Log.SolusHeart");
    cbn [fst snd] in Hk; try (by apply is_Some_None in Hk).
  all: try (destruct (String.eqb lu "Logs.MiniVoidRaidCrab"); cbn [fst snd] in Hk).
  all: rewrite ?lookup_insert in Hk; repeat case_decide;
    try (by apply is_Some_None in Hk).
  all: try (exfalso; apply Hphase; subst k;
            apply (bool_decide_unpack _); vm_compute; exact I).
  all: rewrite ?Ef; cbn [stats updStats updUnlocks JsString.truthy String.append].
  all: repeat first [by apply Hdel | apply Hkeep].
Qed.

(** C6, amended. After [lockAllLogbook], every logbook entry's canonical
    unlock id is absent from [unlocks] and [viewedViewables] and its pickup id
    from [discoveredPickups]; for a monsters, survivors or drones entry whose
    unlock id is a viewable path, the per-body counters that enabling the
    entry writes are absent; every counter key outside the tracked families
    keeps its value from the input, and among them the per-stage
    totalTimesVisited.* and totalTimesCleared.* counters, which the
    operation never removes. *)
Theorem lockAllLogbook_minimal (s : SaveData) :
  let r := lockAllLogbook challenges logbookEntries s in
  (∀ e, e ∈ logbookEntries →
        (e_unlockId e ∉ unlocks r) ∧ (e_unlockId e ∉ viewedViewables r)
        ∧ (∀ p, pickupOf e = Some p → p ∉ discoveredPickups r))
  ∧ (∀ e k, e ∈ logbookEntries →
            e_category e ≠ environments →
            JsString.startsWith (e_unlockId e) "Logs." = false →
            JsString.includes (logbookNames e).2 "SolusHeart" = false →
            is_Some ((updateLogbookStats e true [] ∅).2 !! k) →
            k ∉ phaseKeys →
            stats r !! k = None)
  ∧ (∀ k, isTrackedKey k = false → stats r !! k = stats s !! k)
  ∧ (∀ stage,
       stats r !! ("totalTimesVisited." +:+ stage)
       = stats s !! ("totalTimesVisited." +:+ stage)
       ∧ stats r !! ("totalTimesCleared." +:+ stage)
         = stats s !! ("totalTimesCleared." +:+ stage)).
Proof.
  intros r.
  pose proof (lockAllLogbook_shrinks_first s) as (_ & _ & _ & S4 & S5 & S6 & S7).
  fold r in S4, S5, S6, S7.
  assert (∀ k, isTrackedKey k = false → stats r !! k = stats s !! k) as Hframe.
  { intros k Hk. subst r. rewrite lockAllLogbook_unfold.
    rewrite (foldl_proj (lockAchievement challenges) stats)
      by (intros; apply lockAchievement_stats).
    apply (foldl_invariant (lockEntry challenges logbookEntries)
             (λ acc, stats acc.1 !! k = stats s !! k)); [done|].
    intros acc e _ IH. by rewrite lockEntry_frame. }
  split_and!.
  - intros e He.
    assert ((e_unlockId e ∉ unlocks
               (foldl (lockEntry challenges logbookEntries) (openSets s, [])
                  logbookEntries).1)
            ∧ (e_unlockId e ∉ viewedViewables
                 (foldl (lockEntry challenges logbookEntries) (openSets s, [])
                    logbookEntries).1)
            ∧ (∀ p, pickupOf e = Some p →
                    p ∉ discoveredPickups
                          (foldl (lockEntry challenges logbookEntries) (openSets s, [])
                             logbookEntries).1)) as (H1 & H2 & H3).
    { revert e He.
      apply (foldl_establish (lockEntry challenges logbookEntries)
               (λ e acc,
                  (e_unlockId e ∉ unlocks acc.1) ∧ (e_unlockId e ∉ viewedViewables acc.1)
                  ∧ (∀ p, pickupOf e = Some p → p ∉ discoveredPickups acc.1))).
      - intros acc e. apply lockEntry_removes_ids.
      - intros acc e e' (I1 & I2 & I3).
        destruct (lockEntry_shrinks acc e') as (_ & _ & _ & T4 & T5 & T6 & _).
        split_and!.
        + intros H. by apply I1, T4.
        + intros H. by apply I2, T5.
        + intros p Hp H. by apply (I3 p Hp), T6. }
    split_and!.
    + intros H. by apply H1, S4.
    + intros H. by apply H2, S5.
    + intros p Hp H. by apply (H3 p Hp), S6.
  - intros e k He Hcat Hpath Hsolus Hk Hphase. apply S7. revert e He Hcat Hpath Hsolus Hk.
    apply (foldl_establish (lockEntry challenges logbookEntries)
             (λ e acc,
                e_category e ≠ environments →
                JsString.startsWith (e_unlockId e) "Logs." = false →
                JsString.includes (logbookNames e).2 "SolusHeart" = false →
                is_Some ((updateLogbookStats e true [] ∅).2 !! k) →
                stats acc.1 !! k = None)).
    + intros [w cs] e Hcat Hpath Hsolus Hk. unfold lockEntry. simpl.
      assert (∀ w0, stats match pickupOf e with
                          | Some p => updDiscoveredPickups (JsSet.delete p) w0
                          | None => w0
                          end = stats w0) as -> by (intros; by destruct (pickupOf e)).
      by apply lockEntryStats_removes_counters.
    + intros acc e e' IH Hcat Hpath Hsolus Hk.
      destruct (lockEntry_shrinks acc e') as (_ & _ & _ & _ & _ & _ & T7).
      by apply T7, IH.
  - apply Hframe.
  - intros stage. split; by apply Hframe.
Qed.

(** ** Enabling a logbook entry *)

Lemma enableChallenge_grows w c :
  setsGrow w (enableChallenge challenges logbookEntries w c).
Proof.
  unfold enableChallenge.
  eapply setsGrow_trans; [|apply markEntries_grows].
  eapply setsGrow_trans; [|apply grantUnlocks_grows]. grow_fields.
Qed.

Lemma enableChallenge_stats w c :
  stats (enableChallenge challenges logbookEntries w c) = stats w.
Proof. unfold enableChallenge. by rewrite foldl_markEntry, foldl_grantUnlock. Qed.

Lemma disableChallenge_stats w c :
  stats (disableChallenge challenges logbookEntries w c) = stats w.
Proof. unfold disableChallenge. by rewrite foldl_unmarkEntry, foldl_revokeUnlock. Qed.

Lemma toggleLogbookEntry_enable_marks s e :
  let r := toggleEntry s e true in
  e_unlockId e ∈ unlocks r ∧ e_unlockId e ∈ viewedViewables r
  ∧ (∀ p, pickupOf e = Some p → p ∈ discoveredPickups r).
Proof.
  unfold toggleLogbookEntry.
  pose proof (setsGrow_trans _ _ _
                (foldl_grows (enableChallenge challenges logbookEntries)
                   (challengesFor (e_id e)) (markEntry (openSets s) e)
                   enableChallenge_grows)
                (setsGrow_trans _ _ _ (addAliases_grows e _)
                   (applyLogbookStats_grows e _)))
    as (_ & _ & G3 & G4 & G5).
  simpl. split_and!.
  - apply G3. unfold markEntry. destruct (pickupOf e); simpl; apply elem_of_add; by left.
  - apply G4. unfold markEntry. destruct (pickupOf e); simpl; apply elem_of_add; by left.
  - intros p Hp. apply G5. unfold markEntry. rewrite Hp. simpl. apply elem_of_add. by left.
Qed.

Lemma toggleLogbookEntry_enable_stats s e :
  stats (toggleEntry s e true)
  = (updateLogbookStats e true
       (unlocks (addAliases e (foldl (enableChallenge challenges logbookEntries)
                                 (markEntry (openSets s) e) (challengesFor (e_id e)))))
       (stats s)).2.
Proof.
  unfold toggleLogbookEntry, applyLogbookStats.
  assert (stats (addAliases e (foldl (enableChallenge challenges logbookEntries)
                                 (markEntry (openSets s) e) (challengesFor (e_id e))))
          = stats s) as ->.
  { unfold addAliases. simpl.
    rewrite (foldl_proj _ stats) by apply enableChallenge_stats.
    unfold markEntry. by destruct (pickupOf e). }
  by destruct (updateLogbookStats e true _ (stats s)).
Qed.

Lemma toggleLogbookEntry_disable_stats s e :
  stats (toggleEntry s e false)
  = (updateLogbookStats e false
       (unlocks match pickupOf e with
                | Some p =>
                    updDiscoveredPickups (JsSet.delete p)
                      (deleteAliases e
                         (updViewedViewables (JsSet.delete (e_unlockId e))
                            (updUnlocks (JsSet.delete (e_unlockId e)) (openSets s))))
                | None =>
                    deleteAliases e
                      (updViewedViewables (JsSet.delete (e_unlockId e))
                         (updUnlocks (JsSet.delete (e_unlockId e)) (openSets s)))
                end)
       (stats s)).2.
Proof.
  rewrite toggleLogbookEntry_disable_unfold.
  rewrite (foldl_proj _ stats) by apply disableChallenge_stats.
  unfold applyLogbookStats.
  match goal with
  | |- context [updateLogbookStats e false (unlocks ?w0) (stats ?w0)] =>
      assert (stats w0 = stats s) as -> by (by destruct (pickupOf e));
      by destruct (updateLogbookStats e false (unlocks w0) (stats s))
  end.
Qed.

Lemma toggleLogbookEntry_disable_unmarks s e :
  let r := toggleEntry s e false in
  (e_unlockId e ∉ unlocks r) ∧ (e_unlockId e ∉ viewedViewables r)
  ∧ (∀ p, pickupOf e = Some p → p ∉ discoveredPickups r).
Proof.
  intros r. subst r. rewrite toggleLogbookEntry_disable_unfold.
  match goal with
  | |- context [foldl ?f (applyLogbookStats e false ?w0) ?cs] =>
      pose proof (stateShrinks_trans _ _ _
                    (applyLogbookStats_disable_shrinks e w0)
                    (foldl_shrinks f cs _ disableChallenge_shrinks))
        as (_ & _ & _ & S4 & S5 & S6 & _);
      assert ((e_unlockId e ∉ unlocks w0) ∧ (e_unlockId e ∉ viewedViewables w0)
              ∧ (∀ p, pickupOf e = Some p → p ∉ discoveredPickups w0)) as (U & V & P)
  end.
  { unfold deleteAliases. destruct (pickupOf e) as [p|]; simpl; split_and!;
      rewrite ?elem_of_deleteAll, ?elem_of_delete; try tauto.
    - intros p' [= <-]. rewrite elem_of_delete. tauto.
    - done. }
  split_and!.
  - intros H. by apply U, S4.
  - intros H. by apply V, S5.
  - intros p Hp H. by apply (P p Hp), S6.
Qed.

(** Disabling an achievement deletes each of its unlock ids from [unlocks]
    before the entries are looked at, whether or not another achievement that
    is still held grants the same id. *)
Lemma toggleAchievement_disable_revokes s a A u :
  findChallenge challenges a = Some A → u ∈ c_unlocks A →
  u ∉ unlocks (toggleAch s a false).
Proof.
  intros Hfind Hu. rewrite (toggleAchievement_disable_unfold _ _ A Hfind).
  rewrite foldl_unmarkEntry, foldl_revokeUnlock. simpl.
  rewrite !elem_of_deleteAll. tauto.
Qed.

(** ** Two challenges that provide the same entry *)

Lemma toggleAchievement_enable_fields s a A :
  findChallenge challenges a = Some A →
  let r := toggleAch s a true in
  achievements r = JsSet.add a (JsSet.ofArray (achievements s))
  ∧ unlocks r = JsSet.addAll (map e_unlockId (entriesFor (c_id A)))
                  (JsSet.addAll (c_unlocks A) (JsSet.ofArray (unlocks s)))
  ∧ viewedViewables r = JsSet.addAll (map e_unlockId (entriesFor (c_id A)))
                          (JsSet.ofArray (viewedViewables s))
  ∧ discoveredPickups r = JsSet.addAll (omap pickupOf (entriesFor (c_id A)))
                            (JsSet.ofArray (discoveredPickups s)).
Proof.
  intros Hfind r. subst r. rewrite (toggleAchievement_enable_unfold _ _ A Hfind).
  rewrite foldl_markEntry, foldl_grantUnlock. simpl. done.
Qed.

Lemma toggleAchievement_disable_fields s a A :
  findChallenge challenges a = Some A →
  let r := toggleAch s a false in
  let kept :=
    filter (λ e, isLogbookEntryProvidedByOtherChallenge challenges logbookEntries
                   e a (JsSet.delete a (JsSet.ofArray (achievements s))) = false)
      (entriesFor (c_id A)) in
  achievements r = JsSet.delete a (JsSet.ofArray (achievements s))
  ∧ unlocks r = JsSet.deleteAll (map e_unlockId kept)
                  (JsSet.deleteAll (c_unlocks A) (JsSet.ofArray (unlocks s)))
  ∧ viewedViewables r = JsSet.deleteAll (map e_unlockId kept)
                          (JsSet.ofArray (viewedViewables s))
  ∧ discoveredPickups r = JsSet.deleteAll (omap pickupOf kept)
                            (JsSet.ofArray (discoveredPickups s)).
Proof.
  intros Hfind r kept. subst r kept.
  rewrite (toggleAchievement_disable_unfold _ _ A Hfind).
  rewrite foldl_unmarkEntry, foldl_revokeUnlock. simpl. done.
Qed.

Lemma providedByOther_true e a (held : list string) c :
  c ∈ challengesFor (e_id e) → c_achievement c ≠ a → c_achievement c ∈ held →
  isLogbookEntryProvidedByOtherChallenge challenges logbookEntries e a held = true.
Proof.
  intros Hc Hne Hheld. unfold isLogbookEntryProvidedByOtherChallenge.
  apply existsb_exists. exists c. split; [by apply list_elem_of_In|].
  apply andb_true_iff. split.
  - by apply negb_true_iff, String.eqb_neq.
  - by apply has_true.
Qed.

(** C1. Let [A] and [B] be two challenges with distinct achievement ids that
    are both linked to the entry [E], in a catalog where no other entry linked
    to [A] or [B] shares the unlock id or the pickup id of [E]. After both are
    enabled and [A] is disabled, [B] is still held and [E] still counts as
    unlocked: its unlock id is in [viewedViewables] and its pickup id in
    [discoveredPickups]. Its unlock id, however, being one of the unlock ids
    of [A], is no longer in [unlocks]. Disabling [B] as well removes the
    markers of [E], provided no third held challenge links to [E]. *)
Theorem shared_entry_retention (s : SaveData) (A B : Challenge) (E : LogbookEntry) :
  let a := c_achievement A in
  let b := c_achievement B in
  let both := toggleAch (toggleAch s a true) b true in
  let one := toggleAch both a false in
  let none := toggleAch one b false in
  findChallenge challenges a = Some A →
  findChallenge challenges b = Some B →
  a ≠ b →
  E ∈ entriesFor (c_id A) → E ∈ entriesFor (c_id B) →
  A ∈ challengesFor (e_id E) → B ∈ challengesFor (e_id E) →
  e_unlockId E ∈ c_unlocks A →
  (∀ e, e ∈ entriesFor (c_id A) ∨ e ∈ entriesFor (c_id B) →
        e_unlockId e = e_unlockId E ∨ (is_Some (pickupOf e) ∧ pickupOf e = pickupOf E) →
        e_id e = e_id E) →
  (∀ c, c ∈ challengesFor (e_id E) → c_achievement c ∈ achievements s →
        c_achievement c = a ∨ c_achievement c = b) →
  (b ∈ achievements one
   ∧ e_unlockId E ∈ viewedViewables one
   ∧ (∀ p, pickupOf E = Some p → p ∈ discoveredPickups one)
   ∧ isLogbookEntryUnlocked one E = true
   ∧ e_unlockId E ∉ unlocks one)
  ∧ ((e_unlockId E ∉ unlocks none) ∧ (e_unlockId E ∉ viewedViewables none)
     ∧ (∀ p, pickupOf E = Some p → p ∉ discoveredPickups none)).
Proof.
  intros a b both one none HA HB Hab EA EB AE BE HuA Huniq Hthird.
  destruct (toggleAchievement_enable_fields s a A HA) as (Ea1 & _).
  destruct (toggleAchievement_enable_fields (toggleAch s a true) b B HB)
    as (Ea2 & _ & Ev2 & Ep2).
  fold both in Ea2, Ev2, Ep2.
  destruct (toggleAchievement_disable_fields both a A HA) as (Ea3 & _ & Ev3 & Ep3).
  fold one in Ea3, Ev3, Ep3.
  destruct (toggleAchievement_disable_fields one b B HB) as (Ea4 & Eu4 & Ev4 & Ep4).
  fold none in Ea4, Eu4, Ev4, Ep4.
  assert (b ∈ achievements one) as Hb1.
  { rewrite Ea3, elem_of_delete, elem_of_ofArray, Ea2, elem_of_add. split; [done | by left]. }
  (* every entry of [A] that has the unlock id or pickup id of [E] is provided by [B] *)
  assert (∀ e, e ∈ entriesFor (c_id A) → e_id e = e_id E →
               isLogbookEntryProvidedByOtherChallenge challenges logbookEntries e a
                 (JsSet.delete a (JsSet.ofArray (achievements both))) = true) as Hprov.
  { intros e He Hid. apply (providedByOther_true e a _ B).
    - by rewrite Hid.
    - done.
    - rewrite <- Ea3. exact Hb1. }
  assert (e_unlockId E ∈ viewedViewables one) as Hv1.
  { rewrite Ev3, elem_of_deleteAll, elem_of_ofArray, Ev2, elem_of_addAll. split.
    - intros (e & Hid & [Hkept He]%list_elem_of_filter)%list_elem_of_fmap.
      rewrite Hprov in Hkept; [done | done |]. apply Huniq; [by left | by left].
    - left. apply list_elem_of_fmap. by exists E. }
  assert (∀ p, pickupOf E = Some p → p ∈ discoveredPickups one) as Hp1.
  { intros p Hp.
    rewrite Ep3, elem_of_deleteAll, elem_of_ofArray, Ep2, elem_of_addAll. split.
    - intros (e & [Hkept He]%list_elem_of_filter & Hpe)%list_elem_of_omap.
      rewrite Hprov in Hkept; [done | done |]. apply Huniq; [by left | right].
      rewrite Hpe, Hp. split; [by eexists | done].
    - left. apply list_elem_of_omap. by exists E. }
  split; [split_and!|].
  - exact Hb1.
  - exact Hv1.
  - exact Hp1.
  - unfold isLogbookEntryUnlocked.
    destruct (bool_decide (e_unlockId E ∈ unlocks one)); [done|].
    by rewrite (bool_decide_eq_true_2 _ Hv1).
  - by apply (toggleAchievement_disable_revokes both a A).
  - (* after [B] is disabled no held challenge provides [E] *)
    assert (E ∈ filter (λ e, isLogbookEntryProvidedByOtherChallenge challenges
                               logbookEntries e b
                               (JsSet.delete b (JsSet.ofArray (achievements one))) = false)
                  (entriesFor (c_id B))) as Hkept.
    { apply list_elem_of_filter. split; [|done].
      apply providedByOther_false. intros c Hc Hne.
      rewrite elem_of_delete, elem_of_ofArray, Ea3, elem_of_delete, elem_of_ofArray,
        Ea2, elem_of_add, elem_of_ofArray, Ea1, elem_of_add, elem_of_ofArray.
      intros (_ & Hna & [?|[?|Hs]]); [done | done |].
      destruct (Hthird c Hc Hs); done. }
    split_and!.
    + rewrite Eu4, elem_of_deleteAll. intros [Hn _]. apply Hn.
      apply list_elem_of_fmap. by exists E.
    + rewrite Ev4, elem_of_deleteAll. intros [Hn _]. apply Hn.
      apply list_elem_of_fmap. by exists E.
    + intros p Hp. rewrite Ep4, elem_of_deleteAll. intros [Hn _]. apply Hn.
      apply list_elem_of_omap. by exists E.
Qed.

End EngineFacts.

(** ** More on insertion-ordered sets *)

Section JsSetAbsorb.

Implicit Types (x y : string) (s l xs : list string).

Lemma add_absorb x s : x ∈ s → JsSet.add x s = s.
Proof. intros Hx. unfold JsSet.add. by rewrite (proj2 (has_true x s) Hx). Qed.

Lemma addAll_absorb xs s : (∀ x, x ∈ xs → x ∈ s) → JsSet.addAll xs s = s.
Proof.
  unfold JsSet.addAll. induction xs as [|x xs IH]; intros Hxs; simpl; [done|].
  rewrite add_absorb by (apply Hxs; by left). apply IH. intros y Hy. apply Hxs. by right.
Qed.

Lemma delete_absent x s : x ∉ s → JsSet.delete x s = s.
Proof.
  intros Hx. unfold JsSet.delete. apply filter_all, Forall_forall. intros y Hy ->. done.
Qed.

Lemma deleteAll_absent xs s : (∀ x, x ∈ xs → x ∉ s) → JsSet.deleteAll xs s = s.
Proof.
  intros Hxs. rewrite deleteAll_filter. apply filter_all, Forall_forall.
  intros y Hy Hin. by apply (Hxs y).
Qed.

End JsSetAbsorb.

(** Two profiles are equal when their nine fields are. *)
Lemma SaveData_eq (w w' : SaveData) :
  name w = name w' → coins w = coins w' →
  achievements w = achievements w' →
  unviewedAchievements w = unviewedAchievements w' →
  viewedUnlockables w = viewedUnlockables w' →
  unlocks w = unlocks w' →
  stats w = stats w' →
  viewedViewables w = viewedViewables w' →
  discoveredPickups w = discoveredPickups w' →
  w = w'.
Proof. destruct w, w'; simpl; intros; by subst. Qed.

Lemma openSets_normalised (s : SaveData) : normalised (openSets s).
Proof. unfold normalised, openSets; simpl. split_and!; apply NoDup_ofArray. Qed.

Lemma openSets_fixed (w : SaveData) : normalised w → openSets w = w.
Proof.
  intros (?&?&?&?&?&?). apply SaveData_eq; simpl; try done; by apply ofArray_NoDup.
Qed.

Lemma filter_none {A} (P : A → Prop) `{!∀ a, Decision (P a)} (l0 : list A) :
  Forall (λ a, ¬ P a) l0 → filter P l0 = [].
Proof.
  induction 1 as [|a l0 Ha _ IH]; [done|]. by rewrite filter_cons_False.
Qed.

(** ** Every operation returns a duplicate-free profile *)

Section Normalisation.

Variable challenges : list Challenge.
Variable logbookEntries : list LogbookEntry.

Local Ltac nodup_fields :=
  unfold normalised; simpl; intros (?&?&?&?&?&?); split_and!;
  auto using NoDup_add, NoDup_addAll, NoDup_delete, NoDup_deleteAll, NoDup_nil_2.

Lemma foldl_normalised {B} (f : SaveData → B → SaveData) (l : list B) (w : SaveData) :
  (∀ w b, normalised w → normalised (f w b)) → normalised w → normalised (foldl f w l).
Proof. intros H Hw. apply foldl_invariant; [done | intros; by apply H]. Qed.

Lemma grantUnlocks_normalised w us : normalised w → normalised (foldl grantUnlock w us).
Proof. rewrite foldl_grantUnlock. nodup_fields. Qed.

Lemma revokeUnlocks_normalised w us : normalised w → normalised (foldl revokeUnlock w us).
Proof. rewrite foldl_revokeUnlock. nodup_fields. Qed.

Lemma markEntry_normalised w e : normalised w → normalised (markEntry w e).
Proof. unfold markEntry. destruct (pickupOf e); nodup_fields. Qed.

Lemma unmarkEntry_normalised w e : normalised w → normalised (unmarkEntry w e).
Proof. unfold unmarkEntry. destruct (pickupOf e); nodup_fields. Qed.

Lemma enableChallenge_normalised w c :
  normalised w → normalised (enableChallenge challenges logbookEntries w c).
Proof.
  intros Hw. unfold enableChallenge.
  apply foldl_normalised; [apply markEntry_normalised|].
  apply grantUnlocks_normalised. revert Hw. nodup_fields.
Qed.

Lemma disableChallenge_normalised w c :
  normalised w → normalised (disableChallenge challenges logbookEntries w c).
Proof.
  intros Hw. unfold disableChallenge.
  apply foldl_normalised; [apply unmarkEntry_normalised|].
  apply revokeUnlocks_normalised. revert Hw. nodup_fields.
Qed.

Lemma stages_NoDup (en : bool) stages (acc : list string * gmap string string) :
  NoDup acc.1 → NoDup (foldl (if en then enableStage else disableStage) acc stages).1.
Proof.
  revert acc. induction stages as [|g stages IH]; intros acc Hacc; simpl; [done|].
  apply IH. destruct en; simpl; auto using NoDup_add, NoDup_delete.
Qed.

Lemma updateLogbookStats_NoDup e en u st :
  NoDup u → NoDup (updateLogbookStats e en u st).1.
Proof.
  intros Hu. unfold updateLogbookStats.
  destruct (logbookNames e) as [b f].
  destruct (negb (JsString.truthy b) && negb (JsString.truthy f)); [done|].
  destruct en, (e_category e); try done;
    try (by apply (stages_NoDup true)); try (by apply (stages_NoDup false)).
  all: repeat case_match; simpl; auto using NoDup_add, NoDup_delete.
Qed.

Lemma applyLogbookStats_normalised e en w :
  normalised w → normalised (applyLogbookStats e en w).
Proof.
  unfold applyLogbookStats.
  pose proof (updateLogbookStats_NoDup e en (unlocks w) (stats w)) as H.
  destruct (updateLogbookStats e en (unlocks w) (stats w)) as [u st].
  unfold normalised; simpl. intros (?&?&?&?&?&?). split_and!; auto.
Qed.

Lemma unlockLinkedChallenge_normalised f w c :
  normalised w → normalised (unlockLinkedChallenge f w c).
Proof.
  intros Hw. unfold unlockLinkedChallenge. destruct (dlcSkipped f (c_dlc c)); [done|].
  apply grantUnlocks_normalised. revert Hw. nodup_fields.
Qed.

Lemma unlockEntry_normalised f w e :
  normalised w → normalised (unlockEntry challenges logbookEntries f w e).
Proof.
  intros Hw. unfold unlockEntry. destruct (dlcSkipped f (e_dlc e)); [done|].
  apply applyLogbookStats_normalised.
  assert (normalised (foldl (unlockLinkedChallenge f) (markEntry w e)
                        (getChallengesForLogbookEntry challenges logbookEntries (e_id e))))
    as Hn.
  { apply foldl_normalised; [apply unlockLinkedChallenge_normalised|].
    by apply markEntry_normalised. }
  revert Hn. unfold addAliases. nodup_fields.
Qed.

Lemma unlockAllLogbook_normalised s f :
  normalised (unlockAllLogbook challenges logbookEntries s f).
Proof.
  unfold unlockAllLogbook.
  assert (normalised (foldl (unlockEntry challenges logbookEntries f) (openSets s)
                        logbookEntries)) as Hn.
  { apply foldl_normalised; [apply unlockEntry_normalised | apply openSets_normalised]. }
  revert Hn. nodup_fields.
Qed.

Lemma lockEntryStats_normalised e w : normalised w → normalised (lockEntryStats e w).
Proof.
  intros Hw. unfold lockEntryStats. destruct (lockNames e) as [b f].
  destruct (JsString.truthy b || JsString.truthy f); [|done].
  destruct (e_category e); repeat case_match; revert Hw; nodup_fields.
Qed.

Lemma lockEntry_normalised acc e :
  normalised acc.1 → normalised (lockEntry challenges logbookEntries acc e).1.
Proof.
  destruct acc as [w ds]. simpl. intros Hw.
  assert (normalised (lockEntryStats e
            (deleteAliases e
               (updViewedViewables (JsSet.delete (e_unlockId e))
                  (updUnlocks (JsSet.delete (e_unlockId e)) w))))) as Hn.
  { apply lockEntryStats_normalised. revert Hw. unfold deleteAliases. nodup_fields. }
  destruct (pickupOf e); [|done]. revert Hn. nodup_fields.
Qed.

Lemma lockAchievement_normalised w a :
  normalised w → normalised (lockAchievement challenges w a).
Proof.
  intros Hw. unfold lockAchievement.
  destruct (findChallenge challenges a).
  - apply revokeUnlocks_normalised. revert Hw. nodup_fields.
  - revert Hw. nodup_fields.
Qed.

Lemma toggleLogbookEntry_normalised s e en :
  normalised (toggleLogbookEntry challenges logbookEntries s e en).
Proof.
  unfold toggleLogbookEntry. destruct en.
  - apply applyLogbookStats_normalised.
    assert (normalised (foldl (enableChallenge challenges logbookEntries)
                          (markEntry (openSets s) e)
                          (getChallengesForLogbookEntry challenges logbookEntries (e_id e))))
      as Hn.
    { apply foldl_normalised; [apply enableChallenge_normalised|].
      apply markEntry_normalised, openSets_normalised. }
    revert Hn. unfold addAliases. nodup_fields.
  - apply foldl_normalised; [apply disableChallenge_normalised|].
    apply applyLogbookStats_normalised.
    pose proof (openSets_normalised s) as Hn.
    destruct (pickupOf e); revert Hn; unfold deleteAliases; nodup_fields.
Qed.

Lemma toggleAchievement_normalised s a en :
  normalised (toggleAchievement challenges logbookEntries s a en).
Proof.
  unfold toggleAchievement. pose proof (openSets_normalised s) as Hn.
  destruct en, (findChallenge challenges a) as [c|].
  - apply foldl_normalised; [apply markEntry_normalised|].
    apply grantUnlocks_normalised. revert Hn. nodup_fields.
  - revert Hn. nodup_fields.
  - rewrite foldl_guarded_unmark.
    apply foldl_normalised; [apply unmarkEntry_normalised|].
    apply revokeUnlocks_normalised. revert Hn. nodup_fields.
  - revert Hn. nodup_fields.
Qed.

(** X1. Whatever the profile they are given (its arrays may list an
    identifier several times), the two toggles and the three bulk operations
    on the logbook return a profile in which each of the six collections lists
    every identifier at most once. *)
Theorem operations_normalise (s : SaveData) :
  (∀ a en, normalised (toggleAchievement challenges logbookEntries s a en))
  ∧ (∀ e en, normalised (toggleLogbookEntry challenges logbookEntries s e en))
  ∧ (∀ f, normalised (unlockAllLogbook challenges logbookEntries s f))
  ∧ (∀ f, normalised (unlockAll challenges logbookEntries s f))
  ∧ normalised (lockAllLogbook challenges logbookEntries s).
Proof.
  split_and!.
  - intros. apply toggleAchievement_normalised.
  - intros. apply toggleLogbookEntry_normalised.
  - intros. apply unlockAllLogbook_normalised.
  - intros. unfold unlockAll. apply unlockAllLogbook_normalised.
  - unfold lockAllLogbook.
    assert (normalised (foldl (lockEntry challenges logbookEntries) (openSets s, [])
                          logbookEntries).1) as Hn.
    { apply (foldl_invariant _ (λ acc : SaveData * list string, normalised acc.1)).
      - apply openSets_normalised.
      - intros acc e _. apply lockEntry_normalised. }
    destruct (foldl (lockEntry challenges logbookEntries) (openSets s, []) logbookEntries)
      as [w ds].
    apply foldl_normalised; [apply lockAchievement_normalised | done].
Qed.

End Normalisation.

(** ** Steps that find their work already done *)

Section FixedPoints.

Variable challenges : list Challenge.
Variable logbookEntries : list LogbookEntry.

Local Abbreviation entriesFor := (getLogbookEntriesForChallenge challenges logbookEntries).
Local Abbreviation challengesFor := (getChallengesForLogbookEntry challenges logbookEntries).
Local Abbreviation toggleAch := (toggleAchievement challenges logbookEntries).
Local Abbreviation toggleEntry := (toggleLogbookEntry challenges logbookEntries).

Lemma foldl_fixed {A B} (f : A → B → A) (l : list B) (a : A) :
  (∀ b, b ∈ l → f a b = a) → foldl f a l = a.
Proof.
  induction l as [|b l IH]; intros H; simpl; [done|].
  rewrite H by (by left). apply IH. intros b' Hb'. apply H. by right.
Qed.

Lemma grantUnlocks_fixed w us :
  (∀ u, u ∈ us → u ∈ viewedUnlockables w ∧ u ∈ unlocks w) → foldl grantUnlock w us = w.
Proof.
  intros H. rewrite foldl_grantUnlock.
  apply SaveData_eq; simpl; try done; apply addAll_absorb; intros u Hu; by apply H.
Qed.

Lemma markEntries_fixed w es :
  (∀ e, e ∈ es → entryMarked w e) → foldl markEntry w es = w.
Proof.
  intros H. rewrite foldl_markEntry.
  apply SaveData_eq; simpl; try done; apply addAll_absorb; intros x Hx.
  - apply list_elem_of_fmap in Hx as (e & -> & He). by apply H.
  - apply list_elem_of_fmap in Hx as (e & -> & He). by apply H.
  - apply list_elem_of_omap in Hx as (e & He & Hp). by apply (H e He).
Qed.

Lemma markEntry_fixed w e : entryMarked w e → markEntry w e = w.
Proof.
  intros H. apply (markEntries_fixed w [e]). by intros e' ->%list_elem_of_singleton.
Qed.

Lemma entryMarked_grows w w' e : setsGrow w w' → entryMarked w e → entryMarked w' e.
Proof.
  intros (_ & _ & G3 & G4 & G5) (? & ? & Hp).
  split_and!; [by apply G3 | by apply G4 | intros p ?; by apply G5, Hp].
Qed.

Lemma challengeGranted_grows w w' c :
  setsGrow w w' → challengeGranted w c → challengeGranted w' c.
Proof.
  intros (G1 & G2 & G3 & _) (? & Hu). split; [by apply G1|].
  intros u Hin. destruct (Hu u Hin). split; [by apply G2 | by apply G3].
Qed.

Lemma entryMarked_unlocked w e : entryMarked w e → isLogbookEntryUnlocked w e = true.
Proof. intros (H & _). unfold isLogbookEntryUnlocked. by rewrite bool_decide_eq_true_2. Qed.

Lemma markEntries_marks w es e : e ∈ es → entryMarked (foldl markEntry w es) e.
Proof.
  intros He. rewrite foldl_markEntry. unfold entryMarked. simpl. split_and!.
  - apply elem_of_addAll. left. apply list_elem_of_fmap. by exists e.
  - apply elem_of_addAll. left. apply list_elem_of_fmap. by exists e.
  - intros p Hp. apply elem_of_addAll. left. apply list_elem_of_omap. by exists e.
Qed.

Lemma enableChallenge_fixed w c :
  challengeGranted w c → c_achievement c ∈ unviewedAchievements w →
  (∀ e, e ∈ entriesFor (c_id c) → entryMarked w e) →
  enableChallenge challenges logbookEntries w c = w.
Proof.
  intros (Ha & Hu) Hv He. unfold enableChallenge.
  assert (updUnviewedAchievements (JsSet.add (c_achievement c))
            (updAchievements (JsSet.add (c_achievement c)) w) = w) as ->.
  { apply SaveData_eq; simpl; try done; by apply add_absorb. }
  rewrite grantUnlocks_fixed by done. by apply markEntries_fixed.
Qed.

(** What [enableChallenge] leaves behind for its challenge. *)
Lemma enableChallenge_grants w c :
  let w' := enableChallenge challenges logbookEntries w c in
  challengeGranted w' c ∧ c_achievement c ∈ unviewedAchievements w'
  ∧ (∀ e, e ∈ entriesFor (c_id c) → entryMarked w' e).
Proof.
  unfold enableChallenge. split_and!.
  - eapply challengeGranted_grows; [apply markEntries_grows|].
    rewrite foldl_grantUnlock. unfold challengeGranted. simpl. split.
    + apply elem_of_add. by left.
    + intros u Hu. rewrite !elem_of_addAll. auto.
  - rewrite foldl_markEntry, foldl_grantUnlock. simpl. apply elem_of_add. by left.
  - intros e He. by apply markEntries_marks.
Qed.

Lemma enableChallenge_unviewed w c x :
  x ∈ unviewedAchievements w →
  x ∈ unviewedAchievements (enableChallenge challenges logbookEntries w c).
Proof.
  intros Hx. unfold enableChallenge. rewrite foldl_markEntry, foldl_grantUnlock. simpl.
  apply elem_of_add. by right.
Qed.

Lemma enableChallenges_grant w cs c :
  c ∈ cs →
  let w' := foldl (enableChallenge challenges logbookEntries) w cs in
  challengeGranted w' c ∧ c_achievement c ∈ unviewedAchievements w'
  ∧ (∀ e, e ∈ entriesFor (c_id c) → entryMarked w' e).
Proof.
  intros Hc. simpl. revert c Hc.
  apply (foldl_establish (enableChallenge challenges logbookEntries)
           (λ c w', challengeGranted w' c ∧ c_achievement c ∈ unviewedAchievements w'
                    ∧ (∀ e, e ∈ entriesFor (c_id c) → entryMarked w' e))).
  - intros w0 c. apply enableChallenge_grants.
  - intros w0 c c' (Hg & Hv & He). split_and!.
    + eapply challengeGranted_grows; [apply enableChallenge_grows | done].
    + by apply enableChallenge_unviewed.
    + intros e Hin. eapply entryMarked_grows; [apply enableChallenge_grows | by apply He].
Qed.

(** *** The stat projection applied twice *)

Lemma enableStage_present stages acc stage :
  stage ∈ stages →
  let r := foldl enableStage acc stages in
  ("Logs.Stages." +:+ stage) ∈ r.1
  ∧ r.2 !! ("totalTimesVisited." +:+ stage) = Some "1"
  ∧ r.2 !! ("totalTimesCleared." +:+ stage) = Some "1".
Proof.
  intros Hs. simpl. revert acc stage Hs.
  apply (foldl_establish enableStage
           (λ stage r, ("Logs.Stages." +:+ stage) ∈ r.1
                       ∧ r.2 !! ("totalTimesVisited." +:+ stage) = Some "1"
                       ∧ r.2 !! ("totalTimesCleared." +:+ stage) = Some "1")).
  - intros acc stage. unfold enableStage. cbn [fst snd]. split_and!.
    + apply elem_of_add. by left.
    + rewrite lookup_insert. case_decide; [done|]. by rewrite lookup_insert_eq.
    + by rewrite lookup_insert_eq.
  - intros acc stage stage' (H1 & H2 & H3). unfold enableStage. cbn [fst snd]. split_and!.
    + apply elem_of_add. by right.
    + rewrite !lookup_insert. repeat case_decide; done.
    + rewrite !lookup_insert. repeat case_decide; done.
Qed.

Lemma enableStage_fixed acc stage :
  ("Logs.Stages." +:+ stage) ∈ acc.1 →
  acc.2 !! ("totalTimesVisited." +:+ stage) = Some "1" →
  acc.2 !! ("totalTimesCleared." +:+ stage) = Some "1" →
  enableStage acc stage = acc.
Proof.
  destruct acc as [u m]. cbn [fst snd]. intros H1 H2 H3. unfold enableStage. cbn [fst snd].
  rewrite add_absorb by done. f_equal.
  rewrite (insert_id m _ _ H2). by apply insert_id.
Qed.

Lemma updateLogbookStats_enable_idemp e u st :
  let r := updateLogbookStats e true u st in
  updateLogbookStats e true r.1 r.2 = r.
Proof.
  unfold updateLogbookStats.
  destruct (logbookNames e) as [b f].
  destruct (negb (JsString.truthy b) && negb (JsString.truthy f)); [done|].
  destruct (e_category e); cbn zeta.
  2:{ pose proof (λ stage Hs,
                    enableStage_present (stagesToUnlock (JsString.toLowerCase b))
                      (u, st) stage Hs) as HP.
      cbn zeta in HP.
      destruct (foldl enableStage (u, st) _) as [u' m']. cbn [fst snd] in *.
      apply foldl_fixed. intros stage Hs. destruct (HP stage Hs) as (H1 & H2 & H3).
      by apply enableStage_fixed. }
  3,4: done.
  all: generalize (logUnlockOf b f); generalize (statBodyNameOf b f); intros sb lu.
  all: repeat case_match; cbn [fst snd].
  all: rewrite (add_absorb lu (JsSet.add lu u)) by (apply elem_of_add; by left).
  all: f_equal.
  all: repeat (rewrite insert_id;
               [|rewrite !lookup_insert; repeat case_decide; try done;
                 simplify_eq; by rewrite ?lookup_insert_eq]).
  all: try done.
Qed.

End FixedPoints.

(** ** Enabling: effect and idempotence *)

Section Enabling.

Variable challenges : list Challenge.
Variable logbookEntries : list LogbookEntry.

Local Abbreviation entriesFor := (getLogbookEntriesForChallenge challenges logbookEntries).
Local Abbreviation challengesFor := (getChallengesForLogbookEntry challenges logbookEntries).
Local Abbreviation toggleAch := (toggleAchievement challenges logbookEntries).
Local Abbreviation toggleEntry := (toggleLogbookEntry challenges logbookEntries).

Lemma openSets_grows s : setsGrow s (openSets s).
Proof. unfold setsGrow; simpl. split_and!; intros x Hx; by apply elem_of_ofArray. Qed.

Lemma toggleAchievement_enable_grows s a : setsGrow s (toggleAch s a true).
Proof.
  eapply setsGrow_trans; [apply openSets_grows|]. unfold toggleAchievement.
  destruct (findChallenge challenges a) as [A|].
  - eapply setsGrow_trans; [|apply markEntries_grows].
    eapply setsGrow_trans; [|apply grantUnlocks_grows].
    unfold setsGrow; simpl. split_and!; try done. intros x Hx. apply elem_of_add. by right.
  - unfold setsGrow; simpl. split_and!; try done. intros x Hx. apply elem_of_add. by right.
Qed.

Lemma toggleAchievement_enable_ids s a :
  a ∈ achievements (toggleAch s a true) ∧ a ∈ unviewedAchievements (toggleAch s a true).
Proof.
  unfold toggleAchievement. destruct (findChallenge challenges a) as [A|].
  - rewrite foldl_markEntry, foldl_grantUnlock. simpl.
    split; apply elem_of_add; by left.
  - simpl. split; apply elem_of_add; by left.
Qed.

Lemma toggleAchievement_enable_grants s a A :
  findChallenge challenges a = Some A →
  let r := toggleAch s a true in
  challengeGranted r A ∧ (∀ e, e ∈ entriesFor (c_id A) → entryMarked r e).
Proof.
  intros Hfind r. subst r. rewrite (toggleAchievement_enable_unfold _ _ _ _ _ Hfind).
  apply findChallenge_Some in Hfind as [_ Ha]. split.
  - eapply challengeGranted_grows; [apply markEntries_grows|].
    rewrite foldl_grantUnlock. unfold challengeGranted. simpl. split.
    + rewrite Ha. apply elem_of_add. by left.
    + intros u Hu. rewrite !elem_of_addAll. auto.
  - intros e He. by apply markEntries_marks.
Qed.

(** X2. Enabling an achievement that names a challenge [A] of the catalog
    puts its id in [achievements] and [unviewedAchievements], grants every
    unlock id of [A] (in [viewedUnlockables] and [unlocks]) and marks every
    logbook entry linked to [A], each of which then counts as unlocked; and
    nothing that was in one of the five unlock collections is removed. *)
Theorem toggleAchievement_enable_effect (s : SaveData) (a : string) (A : Challenge) :
  findChallenge challenges a = Some A →
  let r := toggleAch s a true in
  a ∈ achievements r ∧ a ∈ unviewedAchievements r
  ∧ (∀ u, u ∈ c_unlocks A → u ∈ viewedUnlockables r ∧ u ∈ unlocks r)
  ∧ (∀ e, e ∈ entriesFor (c_id A) →
          entryMarked r e ∧ isLogbookEntryUnlocked r e = true)
  ∧ setsGrow s r.
Proof.
  intros Hfind r.
  destruct (toggleAchievement_enable_ids s a) as [H1 H2].
  destruct (toggleAchievement_enable_grants s a A Hfind) as [[_ Hu] He].
  split_and!; try done.
  - intros e Hin. split; [by apply He | by apply entryMarked_unlocked, He].
  - apply toggleAchievement_enable_grows.
Qed.

Lemma toggleAchievement_enable_fixed w a :
  normalised w → a ∈ achievements w → a ∈ unviewedAchievements w →
  (∀ A, findChallenge challenges a = Some A →
        (∀ u, u ∈ c_unlocks A → u ∈ viewedUnlockables w ∧ u ∈ unlocks w)
        ∧ (∀ e, e ∈ entriesFor (c_id A) → entryMarked w e)) →
  toggleAch w a true = w.
Proof.
  intros Hn Ha Hv HA. unfold toggleAchievement. rewrite (openSets_fixed w Hn).
  assert (updUnviewedAchievements (JsSet.add a) (updAchievements (JsSet.add a) w) = w)
    as ->.
  { apply SaveData_eq; simpl; try done; by apply add_absorb. }
  destruct (findChallenge challenges a) as [A|]; [|done].
  destruct (HA A eq_refl) as [Hu He].
  rewrite grantUnlocks_fixed by done. by apply markEntries_fixed.
Qed.

Lemma toggleAchievement_disable_fixed w a :
  normalised w → a ∉ achievements w → a ∉ unviewedAchievements w →
  (∀ A, findChallenge challenges a = Some A →
        (∀ u, u ∈ c_unlocks A → (u ∉ viewedUnlockables w) ∧ (u ∉ unlocks w))
        ∧ (∀ e, e ∈ entriesFor (c_id A) →
                isLogbookEntryProvidedByOtherChallenge challenges logbookEntries
                  e a (achievements w) = false →
                (e_unlockId e ∉ unlocks w) ∧ (e_unlockId e ∉ viewedViewables w)
                ∧ (∀ p, pickupOf e = Some p → p ∉ discoveredPickups w))) →
  toggleAch w a false = w.
Proof.
  intros Hn Ha Hv HA. unfold toggleAchievement. rewrite (openSets_fixed w Hn).
  assert (updUnviewedAchievements (JsSet.delete a) (updAchievements (JsSet.delete a) w) = w)
    as ->.
  { apply SaveData_eq; simpl; try done; by apply delete_absent. }
  destruct (findChallenge challenges a) as [A|]; [|done].
  destruct (HA A eq_refl) as [Hu He].
  assert (foldl revokeUnlock w (c_unlocks A) = w) as ->.
  { rewrite foldl_revokeUnlock.
    apply SaveData_eq; simpl; try done; apply deleteAll_absent; intros u Hin; by apply Hu. }
  rewrite foldl_guarded_unmark, foldl_unmarkEntry.
  apply SaveData_eq; simpl; try done; apply deleteAll_absent; intros x Hx.
  - apply list_elem_of_fmap in Hx as (e & -> & [Hp Hin]%list_elem_of_filter).
    by apply He.
  - apply list_elem_of_fmap in Hx as (e & -> & [Hp Hin]%list_elem_of_filter).
    by apply He.
  - apply list_elem_of_omap in Hx as (e & [Hp Hin]%list_elem_of_filter & Hpk).
    by apply (He e Hin Hp).
Qed.

(** X3. [toggleAchievement] is idempotent in both directions and for every
    id, known to the catalog or not: applying it a second time with the same
    id and direction returns the profile the first application returned. *)
Theorem toggleAchievement_idempotent (s : SaveData) (a : string) (en : bool) :
  toggleAch (toggleAch s a en) a en = toggleAch s a en.
Proof.
  destruct en.
  - apply toggleAchievement_enable_fixed.
    + apply toggleAchievement_normalised.
    + apply toggleAchievement_enable_ids.
    + apply toggleAchievement_enable_ids.
    + intros A HA. destruct (toggleAchievement_enable_grants s a A HA) as [[_ ?] ?]. done.
  - destruct (findChallenge challenges a) as [A|] eqn:Hfind.
    + destruct (toggleAchievement_disable_fields challenges logbookEntries s a A Hfind)
        as (Hach & Hul & Hvv & Hdp).
      apply toggleAchievement_disable_fixed.
      * apply toggleAchievement_normalised.
      * rewrite Hach, elem_of_delete. tauto.
      * rewrite (toggleAchievement_disable_unfold _ _ _ _ _ Hfind).
        rewrite foldl_unmarkEntry, foldl_revokeUnlock. simpl.
        rewrite elem_of_delete. tauto.
      * intros A' HA'. rewrite Hfind in HA'. injection HA' as <-. split.
        -- intros u Hu. split.
           ++ rewrite (toggleAchievement_disable_unfold _ _ _ _ _ Hfind).
              rewrite foldl_unmarkEntry, foldl_revokeUnlock. simpl.
              rewrite elem_of_deleteAll. tauto.
           ++ rewrite Hul, !elem_of_deleteAll. tauto.
        -- intros e He Hp. rewrite Hach in Hp.
           assert (e ∈ filter (λ e, isLogbookEntryProvidedByOtherChallenge challenges
                                      logbookEntries e a
                                      (JsSet.delete a (JsSet.ofArray (achievements s)))
                                    = false) (entriesFor (c_id A))) as Hk.
           { by apply list_elem_of_filter. }
           rewrite Hul, Hvv, Hdp. split_and!.
           ++ rewrite elem_of_deleteAll. intros [Hn _]. apply Hn.
              apply list_elem_of_fmap. by exists e.
           ++ rewrite elem_of_deleteAll. intros [Hn _]. apply Hn.
              apply list_elem_of_fmap. by exists e.
           ++ intros p Hpk. rewrite elem_of_deleteAll. intros [Hn _]. apply Hn.
              apply list_elem_of_omap. by exists e.
    + apply toggleAchievement_disable_fixed.
      * apply toggleAchievement_normalised.
      * unfold toggleAchievement. rewrite Hfind. simpl. rewrite elem_of_delete. tauto.
      * unfold toggleAchievement. rewrite Hfind. simpl. rewrite elem_of_delete. tauto.
      * intros A HA. congruence.
Qed.

(** *** Logbook entries *)

Lemma toggleLogbookEntry_enable_grows s e : setsGrow s (toggleEntry s e true).
Proof.
  eapply setsGrow_trans; [apply openSets_grows|]. unfold toggleLogbookEntry.
  eapply setsGrow_trans; [|apply applyLogbookStats_grows].
  eapply setsGrow_trans; [|apply addAliases_grows].
  eapply setsGrow_trans; [|apply foldl_grows; intros; apply enableChallenge_grows].
  apply markEntry_grows.
Qed.

Lemma toggleLogbookEntry_enable_aliases s e x :
  x ∈ getLogbookAliases (e_unlockId e) → x ∈ viewedViewables (toggleEntry s e true).
Proof.
  intros Hx. unfold toggleLogbookEntry.
  eapply applyLogbookStats_grows. unfold addAliases. simpl.
  apply elem_of_addAll. by left.
Qed.

Lemma toggleLogbookEntry_enable_challenges s e c :
  c ∈ challengesFor (e_id e) →
  let r := toggleEntry s e true in
  challengeGranted r c ∧ c_achievement c ∈ unviewedAchievements r
  ∧ (∀ e', e' ∈ entriesFor (c_id c) → entryMarked r e').
Proof.
  intros Hc r. subst r. unfold toggleLogbookEntry.
  destruct (enableChallenges_grant challenges logbookEntries (markEntry (openSets s) e)
              _ c Hc) as (Hg & Hv & He).
  match goal with
  | |- context [applyLogbookStats e true (addAliases e ?w2)] =>
      pose proof (setsGrow_trans _ _ _ (addAliases_grows e w2)
                    (applyLogbookStats_grows e (addAliases e w2))) as G;
      destruct (applyLogbookStats_fields e true (addAliases e w2)) as (_ & Hun & _)
  end.
  split_and!.
  - by eapply challengeGranted_grows.
  - cbn zeta in Hun. rewrite Hun. exact Hv.
  - intros e' Hin. eapply entryMarked_grows; [exact G | by apply He].
Qed.

(** X4. Enabling a logbook entry marks it (its unlock id is in [unlocks]
    and [viewedViewables], its pickup id in [discoveredPickups], its aliases
    in [viewedViewables]) so that it counts as unlocked, and cascades to every
    challenge linked to it: the achievement id is held and flagged unviewed,
    every unlock id of the challenge is granted and every other entry linked to
    that challenge is marked and counts as unlocked too. Nothing that was in
    one of the five unlock collections is removed, and name and coins are
    kept. *)
Theorem toggleLogbookEntry_enable_cascade (s : SaveData) (e : LogbookEntry) :
  let r := toggleEntry s e true in
  isLogbookEntryUnlocked r e = true
  ∧ entryMarked r e
  ∧ (∀ x, x ∈ getLogbookAliases (e_unlockId e) → x ∈ viewedViewables r)
  ∧ (∀ c, c ∈ challengesFor (e_id e) →
          challengeGranted r c ∧ c_achievement c ∈ unviewedAchievements r
          ∧ (∀ e', e' ∈ entriesFor (c_id c) →
                   entryMarked r e' ∧ isLogbookEntryUnlocked r e' = true))
  ∧ setsGrow s r
  ∧ name r = name s ∧ coins r = coins s.
Proof.
  intros r.
  pose proof (toggleLogbookEntry_enable_marks challenges logbookEntries s e) as Hm.
  split_and!.
  - by apply entryMarked_unlocked.
  - exact Hm.
  - intros x. apply toggleLogbookEntry_enable_aliases.
  - intros c Hc.
    destruct (toggleLogbookEntry_enable_challenges s e c Hc) as (Hg & Hv & He).
    split_and!; try done. intros e' Hin.
    split; [by apply He | by apply entryMarked_unlocked, He].
  - apply toggleLogbookEntry_enable_grows.
  - subst r. unfold toggleLogbookEntry.
    match goal with
    | |- context [applyLogbookStats e true ?w3] =>
        destruct (applyLogbookStats_fields e true w3) as (_&_&_&_&_& -> & _)
    end.
    unfold addAliases. simpl.
    rewrite (foldl_proj _ name); [unfold markEntry; by destruct (pickupOf e)|].
    intros w c. unfold enableChallenge. by rewrite foldl_markEntry, foldl_grantUnlock.
  - subst r. unfold toggleLogbookEntry.
    match goal with
    | |- context [applyLogbookStats e true ?w3] =>
        destruct (applyLogbookStats_fields e true w3) as (_&_&_&_&_&_& ->)
    end.
    unfold addAliases. simpl.
    rewrite (foldl_proj _ coins); [unfold markEntry; by destruct (pickupOf e)|].
    intros w c. unfold enableChallenge. by rewrite foldl_markEntry, foldl_grantUnlock.
Qed.

Lemma toggleLogbookEntry_enable_fixed w e :
  normalised w → entryMarked w e →
  (∀ c, c ∈ challengesFor (e_id e) →
        challengeGranted w c ∧ c_achievement c ∈ unviewedAchievements w
        ∧ (∀ e', e' ∈ entriesFor (c_id c) → entryMarked w e')) →
  (∀ x, x ∈ getLogbookAliases (e_unlockId e) → x ∈ viewedViewables w) →
  updateLogbookStats e true (unlocks w) (stats w) = (unlocks w, stats w) →
  toggleEntry w e true = w.
Proof.
  intros Hn Hm Hc Hal Hst. unfold toggleLogbookEntry.
  rewrite (openSets_fixed w Hn), (markEntry_fixed w e Hm).
  rewrite foldl_fixed.
  2:{ intros c Hin. destruct (Hc c Hin) as (? & ? & ?). by apply enableChallenge_fixed. }
  assert (addAliases e w = w) as ->.
  { unfold addAliases. apply SaveData_eq; simpl; try done. by apply addAll_absorb. }
  unfold applyLogbookStats. rewrite Hst. by apply SaveData_eq.
Qed.

(** X5. Enabling a logbook entry is idempotent: a second application to
    the result of the first returns that result unchanged, counters
    included. *)
Theorem toggleLogbookEntry_enable_idempotent (s : SaveData) (e : LogbookEntry) :
  toggleEntry (toggleEntry s e true) e true = toggleEntry s e true.
Proof.
  apply toggleLogbookEntry_enable_fixed.
  - apply toggleLogbookEntry_normalised.
  - apply (toggleLogbookEntry_enable_marks challenges logbookEntries s e).
  - intros c Hc. apply (toggleLogbookEntry_enable_challenges s e c Hc).
  - intros x. apply toggleLogbookEntry_enable_aliases.
  - unfold toggleLogbookEntry. set (w3 := addAliases e _). unfold applyLogbookStats.
    pose proof (updateLogbookStats_enable_idemp e (unlocks w3) (stats w3)) as Hi.
    destruct (updateLogbookStats e true (unlocks w3) (stats w3)) as [u' st'].
    exact Hi.
Qed.

End Enabling.

(** ** Full reset and the statistics of a profile *)

Section ResetAndStatistics.

Variable challenges : list Challenge.
Variable logbookEntries : list LogbookEntry.

Lemma lockAll_stats (s : SaveData) (k : string) :
  stats (lockAll s) !! k = if isResetKey k then None else stats s !! k.
Proof.
  unfold lockAll. simpl. destruct (isResetKey k) eqn:E.
  - apply map_lookup_filter_None. right. intros v _. simpl. by rewrite E.
  - destruct (stats s !! k) as [v|] eqn:Ek.
    + by apply map_lookup_filter_Some.
    + apply map_lookup_filter_None. by left.
Qed.

Lemma isResetKey_Logs (x : string) : isResetKey ("Logs." +:+ x) = true.
Proof. reflexivity. Qed.

Lemma lockAll_locks_entry (s : SaveData) (e : LogbookEntry) :
  isLogbookEntryUnlocked (lockAll s) e = false.
Proof.
  assert (∀ x : string, bool_decide (x ∈ @nil string) = false) as Hnil.
  { intros x. apply bool_decide_eq_false, not_elem_of_nil. }
  unfold isLogbookEntryUnlocked. cbn [lockAll unlocks viewedViewables discoveredPickups].
  rewrite !Hnil.
  rewrite existsb_false_intro by (intros; apply Hnil).
  assert (match convertToViewableId e with
          | Some viewableId => JsString.truthy viewableId && bool_decide (viewableId ∈ @nil string)
          | None => false
          end = false) as ->.
  { destruct (convertToViewableId e); [|done]. by rewrite Hnil, andb_false_r. }
  assert (match pickupOf e with
          | Some p => bool_decide (p ∈ @nil string)
          | None => false
          end = false) as ->.
  { destruct (pickupOf e); [apply Hnil | done]. }
  assert (match e_category e, pickupOf e with
          | drones, None =>
              match getDronePickupId (e_unlockId e) with
              | Some d => JsString.truthy d && bool_decide (d ∈ @nil string)
              | None => false
              end
          | _, _ => false
          end = false) as ->.
  { destruct (e_category e), (pickupOf e); try done.
    destruct (getDronePickupId (e_unlockId e)); [|done]. by rewrite Hnil, andb_false_r. }
  unfold statsFailsafe.
  match goal with |- context [JsString.truthy ?b] => generalize b end. intros b.
  destruct (JsString.truthy b); [|done].
  destruct (isLogString b); [apply Hnil|].
  cbn [unlocks]. rewrite Hnil, orb_false_r.
  apply bool_decide_eq_false. rewrite lockAll_stats, isResetKey_Logs.
  by intros [? ?].
Qed.

(** X6. [lockAll] is a complete reset of the unlock state: the six
    collections are empty, so that no achievement is held and no logbook
    entry, of the catalog or not, counts as unlocked afterwards; a counter is
    deleted exactly when its key starts with "Logs." or one of the seven
    per-body counter prefixes ("minionKillsAs." among them), every other
    counter keeps its value, and name and coins are kept. *)
Theorem lockAll_complete_reset (s : SaveData) :
  let r := lockAll s in
  (∀ a, isAchievementUnlocked r a = false)
  ∧ (∀ e, isLogbookEntryUnlocked r e = false)
  ∧ unviewedAchievements r = [] ∧ viewedUnlockables r = [] ∧ unlocks r = []
  ∧ viewedViewables r = [] ∧ discoveredPickups r = []
  ∧ (∀ k, stats r !! k = if isResetKey k then None else stats s !! k)
  ∧ name r = name s ∧ coins r = coins s.
Proof.
  intros r. split_and!;
    [ intros a; apply bool_decide_eq_false, not_elem_of_nil
    | intros e; apply lockAll_locks_entry
    | done | done | done | done | done
    | intros k; apply lockAll_stats
    | done | done ].
Qed.

(** *** [calculateSaveStats] *)

Lemma countChallenge_fold (set : list string) (cs : list Challenge) (acc : SaveStats) :
  let held := λ c : Challenge, c_achievement c ∈ set in
  let n := λ cat, List.length (filter (λ c, held c ∧ c_category c = cat) cs) in
  let r := foldl (countChallenge set) acc cs in
  totalAchievements r = totalAchievements acc
  ∧ unlockedAchievements r = unlockedAchievements acc + List.length (filter held cs)
  ∧ unlockedSurvivors r = unlockedSurvivors acc + n cat_survivors
  ∧ unlockedSkills r = unlockedSkills acc + n cat_skills
  ∧ unlockedSkins r = unlockedSkins acc + n cat_skins
  ∧ unlockedItems r = unlockedItems acc + n cat_items
  ∧ unlockedArtifacts r = unlockedArtifacts acc + n cat_artifacts.
Proof.
  cbn zeta. revert acc. induction cs as [|c cs IH]; intros acc.
  - simpl. rewrite !Nat.add_0_r. done.
  - cbn [foldl]. destruct (IH (countChallenge set acc c)) as (-> & -> & -> & -> & -> & -> & ->).
    clear IH. unfold countChallenge.
    destruct (JsSet.has (c_achievement c) set) eqn:E.
    + apply has_true in E.
      rewrite (filter_cons_True (λ c, c_achievement c ∈ set)) by done.
      destruct (c_category c) eqn:Ecat; cbn [totalAchievements unlockedAchievements
        unlockedSurvivors unlockedSkills unlockedSkins unlockedItems unlockedArtifacts];
        repeat match goal with
        | |- context [filter ?P (c :: cs)] =>
            first [ rewrite (filter_cons_True P) by (split; [done | congruence])
                  | rewrite (filter_cons_False P) by (intros [_ ?]; congruence) ]
        end; cbn [List.length]; split_and!; lia.
    + apply has_false in E.
      rewrite (filter_cons_False (λ c, c_achievement c ∈ set)) by done.
      repeat match goal with
        | |- context [filter ?P (c :: cs)] =>
            rewrite (filter_cons_False P) by (intros [? _]; done)
        end.
      done.
Qed.

Lemma length_filter_split {A} (P Q : A → Prop) `{!∀ a, Decision (P a)}
    `{!∀ a, Decision (Q a)} (l : list A) :
  List.length (filter P l)
  = List.length (filter (λ a, P a ∧ Q a) l) + List.length (filter (λ a, P a ∧ ¬ Q a) l).
Proof.
  induction l as [|a l IH]; [done|].
  destruct (decide (P a)) as [HP|HP], (decide (Q a)) as [HQ|HQ];
    rewrite ?(filter_cons_True P), ?(filter_cons_False P),
      ?(filter_cons_True (λ a, P a ∧ Q a)), ?(filter_cons_False (λ a, P a ∧ Q a)),
      ?(filter_cons_True (λ a, P a ∧ ¬ Q a)), ?(filter_cons_False (λ a, P a ∧ ¬ Q a))
      by tauto; cbn [List.length]; lia.
Qed.

Lemma length_filter_ext {A} (P Q : A → Prop) `{!∀ a, Decision (P a)}
    `{!∀ a, Decision (Q a)} (l : list A) :
  (∀ a, a ∈ l → P a ↔ Q a) → List.length (filter P l) = List.length (filter Q l).
Proof.
  induction l as [|a l IH]; intros Hext; [done|].
  assert (P a ↔ Q a) as Ha by (apply Hext; by left).
  assert (List.length (filter P l) = List.length (filter Q l)) as IH'.
  { apply IH. intros b Hb. apply Hext. by right. }
  destruct (decide (P a)) as [HP|HP].
  - rewrite (filter_cons_True P), (filter_cons_True Q) by tauto. simpl. by rewrite IH'.
  - rewrite (filter_cons_False P), (filter_cons_False Q) by tauto. done.
Qed.

(** X7. The figures of [calculateSaveStats] count challenges of the
    catalog, not ids of the profile: [unlockedAchievements] is the number of
    challenges whose achievement id is in [achievements], each category figure
    is the number of those in that category, the five category figures add up
    to [unlockedAchievements], and [unlockedAchievements] never exceeds
    [totalAchievements], the size of the catalog. *)
Theorem calculateSaveStats_consistent (s : SaveData) :
  let r := calculateSaveStats challenges s in
  let held := λ c : Challenge, c_achievement c ∈ achievements s in
  let n := λ cat, List.length (filter (λ c, held c ∧ c_category c = cat) challenges) in
  totalAchievements r = getTotalCount challenges
  ∧ unlockedAchievements r = List.length (filter held challenges)
  ∧ unlockedSurvivors r = n cat_survivors ∧ unlockedSkills r = n cat_skills
  ∧ unlockedSkins r = n cat_skins ∧ unlockedItems r = n cat_items
  ∧ unlockedArtifacts r = n cat_artifacts
  ∧ unlockedAchievements r
    = unlockedSurvivors r + unlockedSkills r + unlockedSkins r + unlockedItems r
      + unlockedArtifacts r
  ∧ (unlockedAchievements r <= totalAchievements r)%nat.
Proof.
  intros r held n. subst r. unfold calculateSaveStats.
  destruct (countChallenge_fold (JsSet.ofArray (achievements s)) challenges
              (mkSaveStats (List.length challenges) 0 0 0 0 0 0))
    as (H0 & H1 & H2 & H3 & H4 & H5 & H6).
  cbn [totalAchievements unlockedAchievements unlockedSurvivors unlockedSkills
       unlockedSkins unlockedItems unlockedArtifacts] in *.
  rewrite H0, H1, H2, H3, H4, H5, H6. clear H0 H1 H2 H3 H4 H5 H6.
  assert (∀ cat,
            List.length (filter (λ c, c_achievement c ∈ JsSet.ofArray (achievements s)
                                       ∧ c_category c = cat) challenges) = n cat) as Hn.
  { intros cat. apply length_filter_ext. intros c _. by rewrite elem_of_ofArray. }
  assert (List.length (filter (λ c, c_achievement c ∈ JsSet.ofArray (achievements s))
                         challenges) = List.length (filter held challenges)) as Hh.
  { apply length_filter_ext. intros c _. by rewrite elem_of_ofArray. }
  rewrite !Hn, Hh. cbn [Nat.add].
  assert (List.length (filter held challenges)
          = n cat_survivors + n cat_skills + n cat_skins + n cat_items + n cat_artifacts)
    as Hsum.
  { subst n. cbn beta. clear Hn Hh.
    induction challenges as [|c cs IH]; [done|].
    destruct (decide (held c)) as [Hc|Hc].
    - rewrite (filter_cons_True held) by done. cbn [List.length]. rewrite IH.
      destruct (c_category c) eqn:Ecat;
        repeat match goal with
        | |- context [filter ?P (c :: cs)] =>
            first [ rewrite (filter_cons_True P) by (split; [done | congruence])
                  | rewrite (filter_cons_False P) by (intros [_ ?]; congruence) ]
        end; cbn [List.length]; lia.
    - rewrite (filter_cons_False held) by done. rewrite IH.
      repeat match goal with
        | |- context [filter ?P (c :: cs)] =>
            rewrite (filter_cons_False P) by (intros [? _]; done)
        end.
      done. }
  split_and!; try done.
  apply length_filter.
Qed.

(** *** [calculateLogbookStats] *)

Lemma countEntry_fold (s : SaveData) (es : list LogbookEntry) (acc : LogbookStats) :
  let U := λ e : LogbookEntry, isLogbookEntryUnlocked s e = true in
  let r := foldl (countEntry s) acc es in
  totalEntries r = totalEntries acc
  ∧ unlockedEntries r = unlockedEntries acc + List.length (filter U es)
  ∧ (∀ cat, total (byCategory r cat)
            = total (byCategory acc cat)
              + List.length (filter (λ e, e_category e = cat) es))
  ∧ (∀ cat, unlocked (byCategory r cat)
            = unlocked (byCategory acc cat)
              + List.length (filter (λ e, e_category e = cat ∧ U e) es)).
Proof.
  cbn zeta. revert acc. induction es as [|e es IH]; intros acc.
  - simpl. split_and!; intros; lia.
  - cbn [foldl]. destruct (IH (countEntry s acc e)) as (-> & -> & Ht & Hu). clear IH.
    split_and!.
    + unfold countEntry. by destruct (isLogbookEntryUnlocked s e).
    + unfold countEntry. destruct (isLogbookEntryUnlocked s e) eqn:E.
      * rewrite filter_cons_True by done. simpl. lia.
      * rewrite filter_cons_False by (rewrite E; done). done.
    + intros cat. rewrite Ht. unfold countEntry, updCategory.
      destruct (decide (e_category e = cat)) as [Hc|Hc].
      * rewrite filter_cons_True by done.
        destruct (isLogbookEntryUnlocked s e); cbn [byCategory total List.length];
          repeat (rewrite decide_True by done); cbn [total]; lia.
      * rewrite filter_cons_False by done.
        destruct (isLogbookEntryUnlocked s e); cbn [byCategory total];
          repeat (rewrite decide_False by done); done.
    + intros cat. rewrite Hu. unfold countEntry, updCategory.
      destruct (isLogbookEntryUnlocked s e) eqn:E, (decide (e_category e = cat)) as [Hc|Hc].
      * rewrite filter_cons_True by done. cbn [byCategory unlocked List.length].
        repeat (rewrite decide_True by done). cbn [unlocked]. lia.
      * rewrite filter_cons_False by tauto. cbn [byCategory unlocked].
        repeat (rewrite decide_False by done). done.
      * rewrite filter_cons_False by (rewrite E; intros [_ ?]; done).
        cbn [byCategory unlocked]. rewrite decide_True by done. done.
      * rewrite filter_cons_False by tauto. cbn [byCategory unlocked].
        rewrite decide_False by done. done.
Qed.

Lemma length_by_category (P : LogbookEntry → Prop) `{!∀ e, Decision (P e)}
    (es : list LogbookEntry) :
  List.length (filter P es)
  = List.length (filter (λ e, e_category e = monsters ∧ P e) es)
    + List.length (filter (λ e, e_category e = environments ∧ P e) es)
    + List.length (filter (λ e, e_category e = survivors ∧ P e) es)
    + List.length (filter (λ e, e_category e = items ∧ P e) es)
    + List.length (filter (λ e, e_category e = equipment ∧ P e) es)
    + List.length (filter (λ e, e_category e = drones ∧ P e) es).
Proof.
  induction es as [|e es IH]; [done|].
  destruct (decide (P e)) as [He|He].
  - rewrite (filter_cons_True P) by done. cbn [List.length]. rewrite IH.
    destruct (e_category e) eqn:Ecat;
      repeat match goal with
      | |- context [filter ?Q (e :: es)] =>
          first [ rewrite (filter_cons_True Q) by (split; [congruence | done])
                | rewrite (filter_cons_False Q) by (intros [? _]; congruence) ]
      end; cbn [List.length]; lia.
  - rewrite (filter_cons_False P) by done. rewrite IH.
    repeat match goal with
      | |- context [filter ?Q (e :: es)] =>
          rewrite (filter_cons_False Q) by (intros [_ ?]; done)
      end.
    done.
Qed.

(** X8. [calculateLogbookStats] agrees with the counts the logbook view
    computes itself: [unlockedEntries] is the number of catalog entries for
    which [isLogbookEntryUnlocked] holds (the view's [totalUnlocked]), each
    category cell holds the number of entries of that category and how many of
    them are unlocked, the six cells add up to the two global figures, and no
    unlocked figure exceeds its total. *)
Theorem calculateLogbookStats_consistent (s : SaveData) :
  let r := calculateLogbookStats logbookEntries s in
  let cell := byCategory r in
  totalEntries r = List.length logbookEntries
  ∧ unlockedEntries r = LogbookEditor.totalUnlocked logbookEntries s
  ∧ (∀ cat,
       total (cell cat) = List.length (filter (λ e, e_category e = cat) logbookEntries)
       ∧ unlocked (cell cat)
         = List.length (filter (λ e, e_category e = cat
                                    ∧ isLogbookEntryUnlocked s e = true) logbookEntries)
       ∧ (unlocked (cell cat) <= total (cell cat))%nat)
  ∧ totalEntries r
    = total (cell monsters) + total (cell environments) + total (cell survivors)
      + total (cell items) + total (cell equipment) + total (cell drones)
  ∧ unlockedEntries r
    = unlocked (cell monsters) + unlocked (cell environments) + unlocked (cell survivors)
      + unlocked (cell items) + unlocked (cell equipment) + unlocked (cell drones)
  ∧ (unlockedEntries r <= totalEntries r)%nat.
Proof.
  intros r cell. subst cell r. unfold calculateLogbookStats.
  destruct (countEntry_fold s logbookEntries
              (mkLogbookStats (List.length logbookEntries) 0 (λ _, mkCategoryCount 0 0)))
    as (H0 & H1 & Ht & Hu).
  cbn [totalEntries unlockedEntries byCategory total unlocked Nat.add] in *.
  rewrite H0, H1, !Ht, !Hu. clear H0 H1.
  split_and!.
  - done.
  - done.
  - intros cat. rewrite Ht, Hu. split_and!; [done | done |].
    rewrite (length_filter_split (λ e, e_category e = cat)
               (λ e, isLogbookEntryUnlocked s e = true) logbookEntries). lia.
  - rewrite <- (filter_all (λ _, True) logbookEntries) at 1
      by (apply Forall_forall; done).
    rewrite (length_by_category (λ _, True)).
    repeat (f_equal; try (apply length_filter_ext; intros; tauto)).
  - apply (length_by_category (λ e, isLogbookEntryUnlocked s e = true)).
  - apply length_filter.
Qed.

End ResetAndStatistics.

(** ** The bulk operations *)

Section BulkOperations.

Variable challenges : list Challenge.
Variable logbookEntries : list LogbookEntry.

Local Abbreviation entriesFor := (getLogbookEntriesForChallenge challenges logbookEntries).
Local Abbreviation challengesFor := (getChallengesForLogbookEntry challenges logbookEntries).
Local Abbreviation toggleEntry := (toggleLogbookEntry challenges logbookEntries).

Lemma unlockLinkedChallenge_grants f w c :
  dlcSkipped f (c_dlc c) = false → challengeGranted (unlockLinkedChallenge f w c) c.
Proof.
  intros Hf. unfold unlockLinkedChallenge. rewrite Hf, foldl_grantUnlock.
  unfold challengeGranted. simpl. split.
  - apply elem_of_add. by left.
  - intros u Hu. rewrite !elem_of_addAll. auto.
Qed.

Lemma unlockEntry_effect f w e :
  dlcSkipped f (e_dlc e) = false →
  let w' := unlockEntry challenges logbookEntries f w e in
  entryMarked w' e
  ∧ (∀ x, x ∈ getLogbookAliases (e_unlockId e) → x ∈ viewedViewables w')
  ∧ (∀ c, c ∈ challengesFor (e_id e) → dlcSkipped f (c_dlc c) = false →
          challengeGranted w' c).
Proof.
  intros Hf. unfold unlockEntry. rewrite Hf. cbn zeta.
  set (w1 := markEntry w e).
  set (w2 := foldl (unlockLinkedChallenge f) w1 (challengesFor (e_id e))).
  pose proof (foldl_grows (unlockLinkedChallenge f) (challengesFor (e_id e)) w1
                (unlockLinkedChallenge_grows f)) as G12. fold w2 in G12.
  pose proof (setsGrow_trans _ _ _ (addAliases_grows e w2)
                (applyLogbookStats_grows e (addAliases e w2))) as G2.
  split_and!.
  - eapply entryMarked_grows; [exact G2|]. eapply entryMarked_grows; [exact G12|].
    subst w1. apply (markEntries_marks w [e] e). by left.
  - intros x Hx. eapply applyLogbookStats_grows. unfold addAliases. simpl.
    apply elem_of_addAll. by left.
  - intros c Hc Hcf. eapply challengeGranted_grows; [exact G2|]. subst w2.
    revert Hcf. revert c Hc.
    apply (foldl_establish (unlockLinkedChallenge f)
             (λ c w', dlcSkipped f (c_dlc c) = false → challengeGranted w' c)).
    + intros w0 c. apply unlockLinkedChallenge_grants.
    + intros w0 c c' IH Hcf. eapply challengeGranted_grows;
        [apply unlockLinkedChallenge_grows | by apply IH].
Qed.

Lemma unlockEntry_frame f w e :
  name (unlockEntry challenges logbookEntries f w e) = name w
  ∧ coins (unlockEntry challenges logbookEntries f w e) = coins w.
Proof.
  unfold unlockEntry. destruct (dlcSkipped f (e_dlc e)); [done|].
  match goal with
  | |- context [applyLogbookStats e true ?w3] =>
      destruct (applyLogbookStats_fields e true w3) as (_&_&_&_&_& -> & ->)
  end.
  unfold addAliases. simpl.
  rewrite (foldl_proj _ name), (foldl_proj _ coins).
  - unfold markEntry. by destruct (pickupOf e).
  - intros w0 c. unfold unlockLinkedChallenge.
    destruct (dlcSkipped f (c_dlc c)); [done|]. by rewrite foldl_grantUnlock.
  - intros w0 c. unfold unlockLinkedChallenge.
    destruct (dlcSkipped f (c_dlc c)); [done|]. by rewrite foldl_grantUnlock.
Qed.

Lemma unlockAllLogbook_grows s f :
  setsGrow s (unlockAllLogbook challenges logbookEntries s f).
Proof.
  eapply setsGrow_trans; [apply openSets_grows|]. unfold unlockAllLogbook.
  eapply setsGrow_trans;
    [apply (foldl_grows (unlockEntry challenges logbookEntries f) logbookEntries);
     intros; apply unlockEntry_grows|].
  unfold setsGrow. simpl. split_and!; done.
Qed.

Lemma unlockAllLogbook_entries s f e :
  e ∈ logbookEntries → dlcSkipped f (e_dlc e) = false →
  let r := unlockAllLogbook challenges logbookEntries s f in
  entryMarked r e
  ∧ (∀ x, x ∈ getLogbookAliases (e_unlockId e) → x ∈ viewedViewables r)
  ∧ (∀ c, c ∈ challengesFor (e_id e) → dlcSkipped f (c_dlc c) = false →
          challengeGranted r c).
Proof.
  intros He Hf. cbn zeta. unfold unlockAllLogbook.
  assert (∀ w w', setsGrow w w' →
            (entryMarked w e
             ∧ (∀ x, x ∈ getLogbookAliases (e_unlockId e) → x ∈ viewedViewables w)
             ∧ (∀ c, c ∈ challengesFor (e_id e) → dlcSkipped f (c_dlc c) = false →
                     challengeGranted w c)) →
            (entryMarked w' e
             ∧ (∀ x, x ∈ getLogbookAliases (e_unlockId e) → x ∈ viewedViewables w')
             ∧ (∀ c, c ∈ challengesFor (e_id e) → dlcSkipped f (c_dlc c) = false →
                     challengeGranted w' c))) as Hmono.
  { intros w w' G (Hm & Ha & Hc). split_and!.
    - by eapply entryMarked_grows.
    - intros x Hx. destruct G as (_ & _ & _ & G4 & _). by apply G4, Ha.
    - intros c Hin Hcf. eapply challengeGranted_grows; [done | by apply Hc]. }
  eapply Hmono.
  { instantiate (1 := foldl (unlockEntry challenges logbookEntries f) (openSets s)
                        logbookEntries).
    unfold setsGrow. simpl. split_and!; done. }
  revert Hf. revert e He Hmono.
  intros e He _.
  revert e He.
  apply (foldl_establish (unlockEntry challenges logbookEntries f)
           (λ e w, dlcSkipped f (e_dlc e) = false →
                   entryMarked w e
                   ∧ (∀ x, x ∈ getLogbookAliases (e_unlockId e) → x ∈ viewedViewables w)
                   ∧ (∀ c, c ∈ challengesFor (e_id e) → dlcSkipped f (c_dlc c) = false →
                           challengeGranted w c))).
  - intros w e Hf. by apply unlockEntry_effect.
  - intros w e e' IH Hf. destruct (IH Hf) as (Hm & Ha & Hc).
    pose proof (unlockEntry_grows challenges logbookEntries f w e') as G.
    split_and!.
    + by eapply entryMarked_grows.
    + intros x Hx. destruct G as (_ & _ & _ & G4 & _). by apply G4, Ha.
    + intros c Hin Hcf. eapply challengeGranted_grows; [done | by apply Hc].
Qed.

(** X9. [unlockAllLogbook], with or without a filter, only adds to the
    five unlock collections and empties [unviewedAchievements]; every catalog
    entry it does not skip ends up marked, with its aliases, so that it counts
    as unlocked, and every challenge linked to such an entry that is not
    skipped itself has its achievement id held and its unlock ids granted.
    Name and coins are kept. *)
Theorem unlockAllLogbook_effect (s : SaveData) (f : option (gmap string bool)) :
  let r := unlockAllLogbook challenges logbookEntries s f in
  (∀ e, e ∈ logbookEntries → dlcSkipped f (e_dlc e) = false →
        entryMarked r e ∧ isLogbookEntryUnlocked r e = true
        ∧ (∀ x, x ∈ getLogbookAliases (e_unlockId e) → x ∈ viewedViewables r)
        ∧ (∀ c, c ∈ challengesFor (e_id e) → dlcSkipped f (c_dlc c) = false →
                challengeGranted r c))
  ∧ setsGrow s r
  ∧ unviewedAchievements r = []
  ∧ name r = name s ∧ coins r = coins s.
Proof.
  intros r. split_and!.
  - intros e He Hf. destruct (unlockAllLogbook_entries s f e He Hf) as (Hm & Ha & Hc).
    split_and!; try done. by apply entryMarked_unlocked.
  - apply unlockAllLogbook_grows.
  - done.
  - subst r. unfold unlockAllLogbook. simpl.
    rewrite (foldl_proj _ name); [done|]. intros w e. apply unlockEntry_frame.
  - subst r. unfold unlockAllLogbook. simpl.
    rewrite (foldl_proj _ coins); [done|]. intros w e. apply unlockEntry_frame.
Qed.

(** *** Statistics after a bulk operation *)

Lemma unlockAll_holds s c :
  c ∈ challenges →
  c_achievement c ∈ achievements (unlockAll challenges logbookEntries s None).
Proof.
  intros Hc. destruct (unlockAll_second_phase challenges logbookEntries s None) as (H & _).
  apply H. clear H. revert c Hc.
  apply (foldl_establish (unlockChallenge challenges logbookEntries None)
           (λ c w, c_achievement c ∈ achievements w)).
  - intros w c. apply unlockChallenge_achievements. right. done.
  - intros w c c' Hin. apply unlockChallenge_achievements. by left.
Qed.

Lemma unlockAll_unlocks_entries s e :
  e ∈ logbookEntries →
  isLogbookEntryUnlocked (unlockAll challenges logbookEntries s None) e = true.
Proof.
  intros He. unfold unlockAll.
  match goal with
  | |- context [unlockAllLogbook _ _ ?s' None] =>
      destruct (unlockAllLogbook_entries s' None e He eq_refl) as (Hm & _)
  end.
  by apply entryMarked_unlocked.
Qed.

(** X10. The two statistics at the two ends of the scale: after
    [unlockAll] without a filter, [calculateSaveStats] reports every challenge
    of the catalog as unlocked and [calculateLogbookStats] reports every
    entry, in every category, as unlocked; after [lockAll] both report
    zero. *)
Theorem statistics_after_bulk (s : SaveData) :
  let full := unlockAll challenges logbookEntries s None in
  let reset := lockAll s in
  unlockedAchievements (calculateSaveStats challenges full)
  = totalAchievements (calculateSaveStats challenges full)
  ∧ unlockedEntries (calculateLogbookStats logbookEntries full)
    = totalEntries (calculateLogbookStats logbookEntries full)
  ∧ (∀ cat, unlocked (byCategory (calculateLogbookStats logbookEntries full) cat)
            = total (byCategory (calculateLogbookStats logbookEntries full) cat))
  ∧ unlockedAchievements (calculateSaveStats challenges reset) = 0
  ∧ unlockedEntries (calculateLogbookStats logbookEntries reset) = 0
  ∧ (∀ cat, unlocked (byCategory (calculateLogbookStats logbookEntries reset) cat) = 0).
Proof.
  intros full reset.
  assert (∀ w, let r := calculateSaveStats challenges w in
               totalAchievements r = List.length challenges
               ∧ unlockedAchievements r
                 = List.length (filter (λ c, c_achievement c ∈ JsSet.ofArray (achievements w))
                                  challenges)) as HS.
  { intros w. unfold calculateSaveStats.
    destruct (countChallenge_fold (JsSet.ofArray (achievements w)) challenges
                (mkSaveStats (List.length challenges) 0 0 0 0 0 0)) as (H0 & H1 & _).
    done. }
  assert (∀ w, let r := calculateLogbookStats logbookEntries w in
               totalEntries r = List.length logbookEntries
               ∧ unlockedEntries r
                 = List.length (filter (λ e, isLogbookEntryUnlocked w e = true)
                                  logbookEntries)
               ∧ (∀ cat, total (byCategory r cat)
                         = List.length (filter (λ e, e_category e = cat) logbookEntries))
               ∧ (∀ cat, unlocked (byCategory r cat)
                         = List.length
                             (filter (λ e, e_category e = cat
                                           ∧ isLogbookEntryUnlocked w e = true)
                                logbookEntries))) as HL.
  { intros w. unfold calculateLogbookStats.
    destruct (countEntry_fold w logbookEntries
                (mkLogbookStats (List.length logbookEntries) 0 (λ _, mkCategoryCount 0 0)))
      as (H0 & H1 & Ht & Hu).
    done. }
  subst full reset.
  destruct (HS (unlockAll challenges logbookEntries s None)) as [-> ->].
  destruct (HS (lockAll s)) as [_ ->].
  destruct (HL (unlockAll challenges logbookEntries s None)) as (-> & -> & Htf & Huf).
  destruct (HL (lockAll s)) as (_ & -> & _ & Hur).
  split_and!.
  - f_equal. apply filter_all, Forall_forall. intros c Hc.
    apply elem_of_ofArray. by apply unlockAll_holds.
  - f_equal. apply filter_all, Forall_forall. intros e He.
    by apply unlockAll_unlocks_entries.
  - intros cat. rewrite Htf, Huf. apply length_filter_ext. intros e He.
    split; [tauto|]. intros ?. split; [done|]. by apply unlockAll_unlocks_entries.
  - rewrite filter_none; [done|]. apply Forall_forall.
    intros c _. rewrite elem_of_ofArray. apply not_elem_of_nil.
  - rewrite filter_none; [done|]. apply Forall_forall.
    intros e _. by rewrite lockAll_locks_entry.
  - intros cat. rewrite Hur.
    rewrite filter_none; [done|]. apply Forall_forall.
    intros e _ [_ H]. by rewrite lockAll_locks_entry in H.
Qed.

(** *** Which achievements [lockAllLogbook] takes away *)

Lemma lockEntry_fields acc e :
  let acc' := lockEntry challenges logbookEntries acc e in
  achievements acc'.1 = achievements acc.1
  ∧ unviewedAchievements acc'.1 = unviewedAchievements acc.1
  ∧ viewedUnlockables acc'.1 = viewedUnlockables acc.1
  ∧ name acc'.1 = name acc.1 ∧ coins acc'.1 = coins acc.1
  ∧ acc'.2 = JsSet.addAll (map c_achievement (challengesFor (e_id e))) acc.2.
Proof.
  destruct acc as [w ds]. unfold lockEntry. cbn [fst snd].
  set (w1 := deleteAliases e _).
  destruct (lockEntryStats_fields e w1) as (H1 & H2 & H3 & _).
  assert (name (lockEntryStats e w1) = name w1 ∧ coins (lockEntryStats e w1) = coins w1)
    as [H4 H5].
  { unfold lockEntryStats. destruct (lockNames e) as [b f].
    destruct (JsString.truthy b || JsString.truthy f); [|done].
    destruct (e_category e); repeat case_match; done. }
  cbn zeta in *.
  split_and!.
  1-5: destruct (pickupOf e); simpl; rewrite ?H1, ?H2, ?H3, ?H4, ?H5; done.
  unfold JsSet.addAll. generalize (challengesFor (e_id e)). intros cs. revert ds.
  induction cs as [|c cs IH]; intros ds; simpl; [done|]. apply IH.
Qed.

Lemma lockEntries_fields s :
  let acc := foldl (lockEntry challenges logbookEntries) (openSets s, []) logbookEntries in
  achievements acc.1 = JsSet.ofArray (achievements s)
  ∧ unviewedAchievements acc.1 = JsSet.ofArray (unviewedAchievements s)
  ∧ viewedUnlockables acc.1 = JsSet.ofArray (viewedUnlockables s)
  ∧ name acc.1 = name s ∧ coins acc.1 = coins s
  ∧ (∀ a, a ∈ acc.2 ↔ ∃ e c, e ∈ logbookEntries ∧ c ∈ challengesFor (e_id e)
                              ∧ c_achievement c = a).
Proof.
  cbn zeta. split_and!.
  1-5: match goal with
       | |- ?p (foldl _ _ _).1 = _ =>
           rewrite (foldl_proj (lockEntry challenges logbookEntries) (λ acc, p acc.1));
           [done | intros acc e; apply (lockEntry_fields acc e)]
       end.
  intros a.
  assert (∀ es acc,
            a ∈ (foldl (lockEntry challenges logbookEntries) acc es).2
            ↔ a ∈ acc.2 ∨ ∃ e c, e ∈ es ∧ c ∈ challengesFor (e_id e)
                                ∧ c_achievement c = a) as Hgen.
  { induction es as [|e es IH]; intros acc; simpl.
    - split; [auto|]. intros [?|(e & c & He & _)]; [done | by apply elem_of_nil in He].
    - rewrite IH. destruct (lockEntry_fields acc e) as (_&_&_&_&_& ->).
      rewrite elem_of_addAll, list_elem_of_fmap. split.
      + intros [[(c & -> & Hc)|?]|(e' & c & He' & Hc & Ha)].
        * right. exists e, c. split_and!; [by left | done | done].
        * by left.
        * right. exists e', c. split_and!; [by right | done | done].
      + intros [?|(e' & c & He' & Hc & Ha)]; [by left; right|].
        apply elem_of_cons in He' as [-> | He'].
        * left. left. by exists c.
        * right. by exists e', c. }
  rewrite Hgen. simpl. split; [|auto]. intros [H|H]; [by apply elem_of_nil in H | done].
Qed.

Lemma lockAchievement_achievements w a x :
  x ∈ achievements (lockAchievement challenges w a) ↔ x ∈ achievements w ∧ ¬ a = x.
Proof.
  unfold lockAchievement. destruct (findChallenge challenges a);
    rewrite ?foldl_revokeUnlock; simpl; rewrite elem_of_delete;
    split; intros [? ?]; split; congruence.
Qed.

Lemma lockAchievement_unviewed w a x :
  x ∈ unviewedAchievements (lockAchievement challenges w a)
  ↔ x ∈ unviewedAchievements w ∧ ¬ a = x.
Proof.
  unfold lockAchievement. destruct (findChallenge challenges a);
    rewrite ?foldl_revokeUnlock; simpl; rewrite elem_of_delete;
    split; intros [? ?]; split; congruence.
Qed.

Lemma lockAchievement_viewedUnlockables w a x :
  x ∈ viewedUnlockables (lockAchievement challenges w a)
  ↔ x ∈ viewedUnlockables w
    ∧ ¬ ∃ c, findChallenge challenges a = Some c ∧ x ∈ c_unlocks c.
Proof.
  unfold lockAchievement. destruct (findChallenge challenges a) as [c|].
  - rewrite foldl_revokeUnlock. simpl. rewrite elem_of_deleteAll. split.
    + intros [Hn ?]. split; [done|]. intros (c' & [= <-] & ?). done.
    + intros [? Hn]. split; [|done]. intros ?. apply Hn. by exists c.
  - simpl. split; [|tauto]. intros ?. split; [done|]. intros (c & ? & _). done.
Qed.

Lemma lockAchievement_unlocks w a x :
  x ∈ unlocks (lockAchievement challenges w a)
  ↔ x ∈ unlocks w ∧ ¬ ∃ c, findChallenge challenges a = Some c ∧ x ∈ c_unlocks c.
Proof.
  unfold lockAchievement. destruct (findChallenge challenges a) as [c|].
  - rewrite foldl_revokeUnlock. simpl. rewrite elem_of_deleteAll. split.
    + intros [Hn ?]. split; [done|]. intros (c' & [= <-] & ?). done.
    + intros [? Hn]. split; [|done]. intros ?. apply Hn. by exists c.
  - simpl. split; [|tauto]. intros ?. split; [done|]. intros (c & ? & _). done.
Qed.

(** X11. [lockAllLogbook] also takes achievements away. An achievement id
    is "linked" when it is that of a challenge linked to some entry of the
    catalog. Afterwards [achievements] and [unviewedAchievements] hold exactly
    the ids of the input that are not linked, and [viewedUnlockables] holds
    exactly the ids of the input that are not an unlock id of the challenge a
    linked achievement id resolves to; all the unlock ids of such a challenge,
    whatever their prefix, are gone from [unlocks] as well. Name and coins are
    kept. *)
Theorem lockAllLogbook_achievements (s : SaveData) :
  let r := lockAllLogbook challenges logbookEntries s in
  let linked := λ a, ∃ e c, e ∈ logbookEntries ∧ c ∈ challengesFor (e_id e)
                            ∧ c_achievement c = a in
  let revoked := λ u, ∃ a c, linked a ∧ findChallenge challenges a = Some c
                             ∧ u ∈ c_unlocks c in
  (∀ a, a ∈ achievements r ↔ a ∈ achievements s ∧ ¬ linked a)
  ∧ (∀ a, a ∈ unviewedAchievements r ↔ a ∈ unviewedAchievements s ∧ ¬ linked a)
  ∧ (∀ u, u ∈ viewedUnlockables r ↔ u ∈ viewedUnlockables s ∧ ¬ revoked u)
  ∧ (∀ u, revoked u → u ∉ unlocks r)
  ∧ name r = name s ∧ coins r = coins s.
Proof.
  intros r linked revoked. subst r. rewrite lockAllLogbook_unfold.
  destruct (lockEntries_fields s) as (Ha & Hv & Hu & Hn & Hc & Hds).
  cbn zeta in *. split_and!.
  - intros a.
    rewrite (foldl_field_del _ achievements _ lockAchievement_achievements), Ha.
    rewrite elem_of_ofArray. split.
    + intros [? Hno]. split; [done|]. intros Hl. apply Hno. exists a.
      split; [by apply Hds | done].
    + intros [? Hno]. split; [done|]. intros (a' & Hin & <-). apply Hno. by apply Hds.
  - intros a.
    rewrite (foldl_field_del _ unviewedAchievements _ lockAchievement_unviewed), Hv.
    rewrite elem_of_ofArray. split.
    + intros [? Hno]. split; [done|]. intros Hl. apply Hno. exists a.
      split; [by apply Hds | done].
    + intros [? Hno]. split; [done|]. intros (a' & Hin & <-). apply Hno. by apply Hds.
  - intros u.
    rewrite (foldl_field_del _ viewedUnlockables _ lockAchievement_viewedUnlockables), Hu.
    rewrite elem_of_ofArray. split.
    + intros [? Hno]. split; [done|]. intros (a & c & Hl & Hf & Hin). apply Hno.
      exists a. split; [by apply Hds | by exists c].
    + intros [? Hno]. split; [done|]. intros (a & Hin & c & Hf & Hc').
      apply Hno. exists a, c. split_and!; [by apply Hds | done | done].
  - intros u (a & c & Hl & Hf & Hin).
    rewrite (foldl_field_del _ unlocks _ lockAchievement_unlocks).
    intros [_ Hno]. apply Hno. exists a. split; [by apply Hds | by exists c].
  - rewrite (foldl_proj _ name); [done|]. intros w a. unfold lockAchievement.
    destruct (findChallenge challenges a); by rewrite ?foldl_revokeUnlock.
  - rewrite (foldl_proj _ coins); [done|]. intros w a. unfold lockAchievement.
    destruct (findChallenge challenges a); by rewrite ?foldl_revokeUnlock.
Qed.

(** *** Items and equipment have no counters *)

Lemma updateLogbookStats_items e en u st :
  e_category e = items ∨ e_category e = equipment →
  updateLogbookStats e en u st = (u, st).
Proof.
  intros Hc. unfold updateLogbookStats. destruct (logbookNames e) as [b f].
  destruct (negb (JsString.truthy b) && negb (JsString.truthy f)); [done|].
  destruct en, Hc as [-> | ->]; done.
Qed.

(** X12. Toggling an items or equipment entry, in either direction and
    with all the cascading to linked challenges this entails, leaves the
    counter map, the name and the coins exactly as they were. *)
Theorem toggleLogbookEntry_item_frame (s : SaveData) (e : LogbookEntry) (en : bool) :
  e_category e = items ∨ e_category e = equipment →
  stats (toggleEntry s e en) = stats s
  ∧ name (toggleEntry s e en) = name s
  ∧ coins (toggleEntry s e en) = coins s.
Proof.
  intros Hc. split_and!.
  - destruct en.
    + rewrite toggleLogbookEntry_enable_stats. by rewrite updateLogbookStats_items.
    + rewrite toggleLogbookEntry_disable_stats. by rewrite updateLogbookStats_items.
  - unfold toggleLogbookEntry, applyLogbookStats. destruct en.
    + rewrite updateLogbookStats_items by done. simpl.
      rewrite (foldl_proj _ name); [unfold markEntry; by destruct (pickupOf e)|].
      intros w c. unfold enableChallenge. by rewrite foldl_markEntry, foldl_grantUnlock.
    + rewrite (foldl_proj _ name).
      * rewrite updateLogbookStats_items by done. by destruct (pickupOf e).
      * intros w c. unfold disableChallenge.
        by rewrite foldl_unmarkEntry, foldl_revokeUnlock.
  - unfold toggleLogbookEntry, applyLogbookStats. destruct en.
    + rewrite updateLogbookStats_items by done. simpl.
      rewrite (foldl_proj _ coins); [unfold markEntry; by destruct (pickupOf e)|].
      intros w c. unfold enableChallenge. by rewrite foldl_markEntry, foldl_grantUnlock.
    + rewrite (foldl_proj _ coins).
      * rewrite updateLogbookStats_items by done. by destruct (pickupOf e).
      * intros w c. unfold disableChallenge.
        by rewrite foldl_unmarkEntry, foldl_revokeUnlock.
Qed.

End BulkOperations.

(** ** The reference graph *)

Section ReferenceGraph.

Variable challenges : list Challenge.
Variable logbookEntries : list LogbookEntry.

Local Abbreviation entriesFor := (getLogbookEntriesForChallenge challenges logbookEntries).
Local Abbreviation challengesFor := (getChallengesForLogbookEntry challenges logbookEntries).
Local Abbreviation byUnlock := (buildEntryIndices logbookEntries).1.
Local Abbreviation byPickup := (buildEntryIndices logbookEntries).2.

(** A map filled by [set] in list order returns the last element with the
    key. *)
Lemma foldl_insert_last {A} (key : A → string) (l : list A) (m : gmap string A)
    (k : string) :
  foldl (λ m a, <[key a := a]> m) m l !! k
  = match last (filter (λ a, key a = k) l) with
    | Some a => Some a
    | None => m !! k
    end.
Proof.
  revert m. induction l as [|a l IH]; intros m; simpl; [done|].
  rewrite IH. destruct (decide (key a = k)) as [Hk|Hk].
  - rewrite filter_cons_True by done. rewrite last_cons.
    destruct (last (filter (λ a, key a = k) l)); [done|].
    by rewrite <- Hk, lookup_insert_eq.
  - rewrite filter_cons_False by done.
    destruct (last (filter (λ a, key a = k) l)); [done|].
    by rewrite lookup_insert_ne.
Qed.

Lemma last_filter_unique {A} (key : A → string) (l : list A) (a : A) :
  NoDup (map key l) → a ∈ l → last (filter (λ b, key b = key a) l) = Some a.
Proof.
  induction l as [|b l IH]; intros Hnd Ha; [by apply elem_of_nil in Ha|].
  simpl in Hnd. apply NoDup_cons in Hnd as [Hb Hnd].
  apply elem_of_cons in Ha as [<- | Ha].
  - rewrite filter_cons_True by done. rewrite last_cons.
    destruct (last (filter (λ b, key b = key a) l)) as [c|] eqn:E; [|done].
    apply last_Some_elem_of, list_elem_of_filter in E as [Hc Hin].
    exfalso. apply Hb. rewrite <- Hc. apply list_elem_of_fmap. by exists c.
  - destruct (decide (key b = key a)) as [Hk|Hk].
    + exfalso. apply Hb. rewrite Hk. apply list_elem_of_fmap. by exists a.
    + rewrite filter_cons_False by done. by apply IH.
Qed.

Lemma challengeById_unique c :
  NoDup (map c_id challenges) → c ∈ challenges →
  challengeById challenges !! c_id c = Some c.
Proof.
  intros Hnd Hc. unfold challengeById.
  rewrite (foldl_insert_last c_id), (last_filter_unique c_id) by done. done.
Qed.

Lemma logbookEntryById_unique e :
  NoDup (map e_id logbookEntries) → e ∈ logbookEntries →
  logbookEntryById logbookEntries !! e_id e = Some e.
Proof.
  intros Hnd He. unfold logbookEntryById.
  rewrite (foldl_insert_last e_id), (last_filter_unique e_id) by done. done.
Qed.

(** *** The two indices *)

Lemma buildEntryIndices_lookup :
  (∀ u, byUnlock !! u = indexedByUnlock logbookEntries u)
  ∧ (∀ p, byPickup !! p = indexedByPickup logbookEntries p).
Proof.
  unfold buildEntryIndices, indexedByUnlock, indexedByPickup.
  match goal with
  | |- context [foldl ?F (∅, ∅) logbookEntries] =>
      assert (∀ l acc,
                (∀ u, (foldl F acc l).1 !! u
                      = match last (filter (λ e, isItemLike e ∧ e_unlockId e = u) l) with
                        | Some e => Some e
                        | None => acc.1 !! u
                        end)
                ∧ (∀ p, (foldl F acc l).2 !! p
                        = match last (filter (λ e, isItemLike e ∧ pickupOf e = Some p) l) with
                          | Some e => Some e
                          | None => acc.2 !! p
                          end)) as Hgen
  end.
  { induction l as [|e l IH]; intros [m q]; [done|]. cbn [foldl].
    match goal with |- context [foldl _ ?acc' l] => destruct (IH acc') as [IH1 IH2] end.
    split.
    - intros u. rewrite IH1. clear IH1 IH2 IH.
      destruct (decide (isItemLike e ∧ e_unlockId e = u)) as [[Hi Hu]|Hn].
      + rewrite filter_cons_True by done. rewrite last_cons.
        destruct (last (filter _ l)); [done|].
        destruct Hi as [Hi|Hi]; rewrite Hi; cbn [fst]; by rewrite <- Hu, lookup_insert_eq.
      + rewrite filter_cons_False by done.
        destruct (last (filter _ l)); [done|].
        destruct (e_category e) eqn:Ec; cbn [fst]; try done;
          (rewrite lookup_insert_ne; [done|]; intros Hu; apply Hn; split; [|done];
           unfold isItemLike; rewrite Ec; auto).
    - intros p. rewrite IH2. clear IH1 IH2 IH.
      destruct (decide (isItemLike e ∧ pickupOf e = Some p)) as [[Hi Hp]|Hn].
      + rewrite filter_cons_True by done. rewrite last_cons.
        destruct (last (filter _ l)); [done|].
        destruct Hi as [Hi|Hi]; rewrite Hi, Hp; cbn [snd]; by rewrite lookup_insert_eq.
      + rewrite filter_cons_False by done.
        destruct (last (filter _ l)); [done|].
        destruct (e_category e) eqn:Ec; cbn [snd]; try done;
          (destruct (pickupOf e) as [p'|] eqn:Ep; [|done];
           rewrite lookup_insert_ne; [done|]; intros ->; apply Hn; split; [|done];
           unfold isItemLike; rewrite Ec; auto). }
  destruct (Hgen logbookEntries (∅, ∅)) as [H1 H2]. split.
  - intros u. rewrite H1. by destruct (last _).
  - intros p. rewrite H2. by destruct (last _).
Qed.

Lemma indexedByUnlock_Some u e :
  indexedByUnlock logbookEntries u = Some e →
  e ∈ logbookEntries ∧ isItemLike e ∧ e_unlockId e = u.
Proof.
  unfold indexedByUnlock. intros H%last_Some_elem_of.
  apply list_elem_of_filter in H as [[? ?] ?]. done.
Qed.

Lemma indexedByUnlock_None u :
  indexedByUnlock logbookEntries u = None
  ↔ ∀ e, e ∈ logbookEntries → isItemLike e → e_unlockId e ≠ u.
Proof.
  unfold indexedByUnlock. rewrite last_None. split.
  - intros Hnil e He Hi Hu. assert (e ∈ @nil LogbookEntry) as Hin; [|by apply elem_of_nil in Hin].
    rewrite <- Hnil. by apply list_elem_of_filter.
  - intros Hno. apply filter_none, Forall_forall. intros e He [Hi Hu]. by apply (Hno e).
Qed.

Lemma linkedEntries_byUnlock c :
  linkedEntries byUnlock (c_unlocks c) = linksOf logbookEntries c.
Proof.
  unfold linkedEntries, linksOf. apply list_omap_ext.
  apply Forall_Forall2_diag, Forall_forall. intros u _.
  destruct buildEntryIndices_lookup as [H _]. by rewrite H.
Qed.

End ReferenceGraph.

(** ** The reference graph: what [buildMapping] stores *)

Section GraphStructure.

Variable challenges : list Challenge.
Variable logbookEntries : list LogbookEntry.

Local Abbreviation entriesFor := (getLogbookEntriesForChallenge challenges logbookEntries).
Local Abbreviation challengesFor := (getChallengesForLogbookEntry challenges logbookEntries).
Local Abbreviation byUnlock := (buildEntryIndices logbookEntries).1.
Local Abbreviation byPickup := (buildEntryIndices logbookEntries).2.
Local Abbreviation theMapping := (mapping challenges logbookEntries).

Lemma extendWith_app {A} (o : option (list A)) (a b : list A) :
  extendWith (extendWith o a) b = extendWith o (a ++ b).
Proof.
  destruct a as [|x a], b as [|y b]; simpl; rewrite ?app_nil_r; try done.
  by rewrite <- app_assoc.
Qed.

Lemma extendWith_None {A} (l : list A) :
  default [] (extendWith None l) = l ∧ (is_Some (extendWith None l) ↔ l ≠ []).
Proof.
  destruct l as [|x l]; simpl; (split; [done|]).
  - split; [by intros [? ?] | done].
  - split; [done | intros _; by eexists].
Qed.

Lemma linkUnlock_fold (byU : gmap string LogbookEntry) (c : Challenge) (us : list string)
    (linked : list string) (l2c : gmap string (list string))
    (u2c : gmap string (list Challenge)) :
  let r := foldl (linkUnlock byU c) (linked, l2c, u2c) us in
  r.1.1 = linked ++ map e_id (linkedEntries byU us)
  ∧ (∀ eid, r.1.2 !! eid
            = extendWith (l2c !! eid)
                (map (λ _, c_id c) (filter (λ e, e_id e = eid) (linkedEntries byU us))))
  ∧ (∀ u, r.2 !! u
          = extendWith (u2c !! u)
              (map (λ _, c) (filter (λ v, v = u) (linkedUnlocks byU us)))).
Proof.
  cbn zeta. revert linked l2c u2c. induction us as [|u us IH]; intros linked l2c u2c.
  - simpl. rewrite app_nil_r. done.
  - cbn [foldl]. unfold linkUnlock at 2 4 6. unfold linkedEntries, linkedUnlocks.
    cbn [omap list_omap]. fold (linkedEntries byU us).
    destruct (isMappedPrefix u) eqn:Em; [destruct (byU !! u) as [e|] eqn:Eu|].
    + rewrite filter_cons_True by (split; [done | by eexists]).
      fold (linkedUnlocks byU us).
      destruct (IH (linked ++ [e_id e])
                  (<[e_id e := default [] (l2c !! e_id e) ++ [c_id c]]> l2c)
                  (<[u := default [] (u2c !! u) ++ [c]]> u2c)) as (-> & H2 & H3).
      split_and!.
      * rewrite <- app_assoc. done.
      * intros eid. rewrite H2. destruct (decide (e_id e = eid)) as [<-|Hne].
        -- rewrite lookup_insert_eq, filter_cons_True by done.
           change (Some (default [] (l2c !! e_id e) ++ [c_id c]))
             with (extendWith (l2c !! e_id e) [c_id c]).
           by rewrite extendWith_app.
        -- rewrite lookup_insert_ne, filter_cons_False by done. done.
      * intros v. rewrite H3. destruct (decide (u = v)) as [<-|Hne].
        -- rewrite lookup_insert_eq, filter_cons_True by done.
           change (Some (default [] (u2c !! u) ++ [c]))
             with (extendWith (u2c !! u) [c]).
           by rewrite extendWith_app.
        -- rewrite lookup_insert_ne, filter_cons_False by done. done.
    + rewrite filter_cons_False by (intros [_ [? ?]]; congruence).
      apply IH.
    + rewrite filter_cons_False by (intros [? _]; congruence).
      apply IH.
Qed.

Lemma mapping_lookup :
  unlockIdToLogbook theMapping = byUnlock
  ∧ pickupIdToLogbook theMapping = byPickup
  ∧ (∀ cid, challengeToLogbook theMapping !! cid
            = match last (filter (λ c, c_id c = cid
                                       ∧ linkedEntries byUnlock (c_unlocks c) ≠ [])
                            challenges) with
              | Some c => Some (map e_id (linkedEntries byUnlock (c_unlocks c)))
              | None => None
              end)
  ∧ (∀ eid, logbookToChallenge theMapping !! eid
            = extendWith None
                (flat_map (λ c, map (λ _, c_id c)
                                  (filter (λ e, e_id e = eid)
                                     (linkedEntries byUnlock (c_unlocks c))))
                   challenges))
  ∧ (∀ u, unlockIdToChallenges theMapping !! u
          = extendWith None
              (flat_map (λ c, map (λ _, c)
                                (filter (λ v, v = u) (linkedUnlocks byUnlock (c_unlocks c))))
                 challenges)).
Proof.
  unfold mapping, buildMapping.
  destruct (buildEntryIndices logbookEntries) as [bu bp]. cbn [fst snd].
  match goal with
  | |- context [foldl ?F (∅, ∅, ∅) challenges] =>
      assert (∀ cs acc,
                let r := foldl F acc cs in
                (∀ cid, r.1.1 !! cid
                        = match last (filter (λ c, c_id c = cid
                                                   ∧ linkedEntries bu (c_unlocks c) ≠ [])
                                        cs) with
                          | Some c => Some (map e_id (linkedEntries bu (c_unlocks c)))
                          | None => acc.1.1 !! cid
                          end)
                ∧ (∀ eid, r.1.2 !! eid
                          = extendWith (acc.1.2 !! eid)
                              (flat_map (λ c, map (λ _, c_id c)
                                                (filter (λ e, e_id e = eid)
                                                   (linkedEntries bu (c_unlocks c)))) cs))
                ∧ (∀ u, r.2 !! u
                        = extendWith (acc.2 !! u)
                            (flat_map (λ c, map (λ _, c)
                                              (filter (λ v, v = u)
                                                 (linkedUnlocks bu (c_unlocks c)))) cs)))
        as Hgen
  end.
  { induction cs as [|c cs IH]; intros [[c2l l2c] u2c]; cbn zeta.
    - simpl. done.
    - cbn [foldl].
      destruct (linkUnlock_fold bu c (c_unlocks c) [] l2c u2c) as (H1 & H2 & H3).
      destruct (foldl (linkUnlock bu c) ([], l2c, u2c) (c_unlocks c))
        as [[linked l2c'] u2c'] eqn:Efold.
      cbn [fst snd app] in H1, H2, H3.
      match goal with |- context [foldl _ ?acc' cs] => destruct (IH acc') as (I1 & I2 & I3) end.
      cbn [fst snd] in I1, I2, I3. split_and!.
      + intros cid. rewrite I1. clear I1 I2 I3 IH.
        destruct (decide (c_id c = cid ∧ linkedEntries bu (c_unlocks c) ≠ [])) as [[Hc Hl]|Hn].
        * rewrite filter_cons_True by done. rewrite last_cons.
          destruct (last (filter _ cs)); [done|].
          destruct linked as [|x linked].
          { exfalso. apply Hl. symmetry in H1. by apply fmap_nil_inv in H1. }
          by rewrite <- Hc, lookup_insert_eq, H1.
        * rewrite filter_cons_False by done.
          destruct (last (filter _ cs)); [done|].
          destruct linked as [|x linked]; [done|].
          rewrite lookup_insert_ne; [done|]. intros Hc. apply Hn. split; [done|].
          intros Hnil. by rewrite Hnil in H1.
      + intros eid. rewrite I2, H2. cbn [flat_map]. by rewrite extendWith_app.
      + intros u. rewrite I3, H3. cbn [flat_map]. by rewrite extendWith_app. }
  specialize (Hgen challenges (∅, ∅, ∅)). cbn zeta in Hgen.
  destruct (foldl _ (∅, ∅, ∅) challenges) as [[c2l l2c] u2c].
  cbn [fst snd] in Hgen. destruct Hgen as (G1 & G2 & G3).
  cbn [unlockIdToLogbook pickupIdToLogbook challengeToLogbook logbookToChallenge
       unlockIdToChallenges].
  split_and!; try done.
  all: intros cid; rewrite G1; by destruct (last _).
Qed.

End GraphStructure.

(** ** The reference graph: what its queries return *)

Section GraphQueries.

Variable challenges : list Challenge.
Variable logbookEntries : list LogbookEntry.

Local Abbreviation entriesFor := (getLogbookEntriesForChallenge challenges logbookEntries).
Local Abbreviation challengesFor := (getChallengesForLogbookEntry challenges logbookEntries).
Local Abbreviation byUnlock := (buildEntryIndices logbookEntries).1.
Local Abbreviation theMapping := (mapping challenges logbookEntries).

(** X13. The unlock-id index and the pickup-id index return the last
    items or equipment entry of the catalog that carries the id: an entry of
    another category is never returned, whatever its ids, and the lookup
    misses exactly when no items or equipment entry carries the id. *)
Theorem entry_index_lookup (u p : string) :
  getLogbookEntryByUnlockId challenges logbookEntries u = indexedByUnlock logbookEntries u
  ∧ getLogbookEntryByPickupId challenges logbookEntries p = indexedByPickup logbookEntries p
  ∧ (∀ e, getLogbookEntryByUnlockId challenges logbookEntries u = Some e →
          e ∈ logbookEntries ∧ isItemLike e ∧ e_unlockId e = u)
  ∧ (∀ e, getLogbookEntryByPickupId challenges logbookEntries p = Some e →
          e ∈ logbookEntries ∧ isItemLike e ∧ pickupOf e = Some p)
  ∧ (getLogbookEntryByUnlockId challenges logbookEntries u = None
     ↔ ∀ e, e ∈ logbookEntries → isItemLike e → e_unlockId e ≠ u).
Proof.
  unfold getLogbookEntryByUnlockId, getLogbookEntryByPickupId.
  destruct (mapping_lookup challenges logbookEntries) as (-> & -> & _).
  destruct (buildEntryIndices_lookup logbookEntries) as [-> ->].
  split_and!; try done.
  - apply indexedByUnlock_Some.
  - unfold indexedByPickup. intros e H%last_Some_elem_of.
    apply list_elem_of_filter in H as [[? ?] ?]. done.
  - apply indexedByUnlock_None.
Qed.

Lemma index_lookup_None (u : string) :
  getLogbookEntryByUnlockId challenges logbookEntries u = None
  ↔ ∀ e, e ∈ logbookEntries → isItemLike e → e_unlockId e ≠ u.
Proof.
  unfold getLogbookEntryByUnlockId.
  destruct (mapping_lookup challenges logbookEntries) as (-> & _).
  destruct (buildEntryIndices_lookup logbookEntries) as [-> _].
  apply indexedByUnlock_None.
Qed.

(** *** Links under unique identifiers *)

Lemma last_filter_unique_and {A} (key : A → string) (Q : A → Prop)
    `{!∀ a, Decision (Q a)} (l : list A) (a : A) :
  NoDup (map key l) → a ∈ l →
  last (filter (λ b, key b = key a ∧ Q b) l) = if decide (Q a) then Some a else None.
Proof.
  induction l as [|b l IH]; intros Hnd Ha; [by apply elem_of_nil in Ha|].
  simpl in Hnd. apply NoDup_cons in Hnd as [Hb Hnd].
  assert (∀ c, c ∈ l → key c ≠ key b) as Hfresh.
  { intros c Hc Heq. apply Hb. rewrite <- Heq. apply list_elem_of_fmap. by exists c. }
  apply elem_of_cons in Ha as [<- | Ha].
  - assert (filter (λ b, key b = key a ∧ Q b) l = []) as Hnil.
    { apply filter_none, Forall_forall. intros c Hc [Hk _]. by apply (Hfresh c). }
    destruct (decide (Q a)) as [HQ|HQ].
    + rewrite filter_cons_True by done. by rewrite Hnil.
    + rewrite filter_cons_False by tauto. by rewrite Hnil.
  - rewrite filter_cons_False; [by apply IH|].
    intros [Hk _]. by apply (Hfresh a).
Qed.

Lemma unique_key_inj {A} (key : A → string) (l : list A) (a b : A) :
  NoDup (map key l) → a ∈ l → b ∈ l → key a = key b → a = b.
Proof.
  intros Hnd Ha Hb Hk.
  pose proof (last_filter_unique key l a Hnd Ha) as H1.
  pose proof (last_filter_unique key l b Hnd Hb) as H2.
  rewrite Hk, H2 in H1. by injection H1.
Qed.

Lemma omap_fmap_id {A B} (f : B → option A) (g : A → B) (l : list A) :
  (∀ x, x ∈ l → f (g x) = Some x) → omap f (map g l) = l.
Proof.
  induction l as [|a l IH]; intros H; [done|]. simpl.
  rewrite H by (by left). f_equal. apply IH. intros x Hx. apply H. by right.
Qed.

Lemma elem_of_linksOf c e :
  e ∈ linksOf logbookEntries c
  ↔ ∃ u, u ∈ c_unlocks c ∧ isMappedPrefix u = true
         ∧ indexedByUnlock logbookEntries u = Some e.
Proof.
  unfold linksOf. rewrite list_elem_of_omap. split.
  - intros (u & Hu & H). exists u. destruct (isMappedPrefix u); done.
  - intros (u & Hu & Hm & H). exists u. by rewrite Hm.
Qed.

Lemma linksOf_scope c e :
  e ∈ linksOf logbookEntries c →
  e ∈ logbookEntries ∧ isItemLike e ∧ e_unlockId e ∈ c_unlocks c
  ∧ isMappedPrefix (e_unlockId e) = true.
Proof.
  intros (u & Hu & Hm & H)%elem_of_linksOf.
  apply indexedByUnlock_Some in H as (? & ? & ->). done.
Qed.

Lemma entriesFor_unique c :
  NoDup (map c_id challenges) → NoDup (map e_id logbookEntries) → c ∈ challenges →
  entriesFor (c_id c) = linksOf logbookEntries c.
Proof.
  intros Hc He Hin. unfold getLogbookEntriesForChallenge.
  destruct (mapping_lookup challenges logbookEntries) as (_ & _ & -> & _).
  rewrite (last_filter_unique_and c_id _ challenges c Hc Hin).
  rewrite linkedEntries_byUnlock.
  assert (omap (λ id, logbookEntryById logbookEntries !! id)
            (map e_id (linksOf logbookEntries c)) = linksOf logbookEntries c) as Hom.
  { apply omap_fmap_id. intros e Hl. apply logbookEntryById_unique; [done|].
    by apply linksOf_scope in Hl as (? & _). }
  destruct (decide (linksOf logbookEntries c ≠ [])) as [Hn|Hn]; simpl;
    rewrite ?linkedEntries_byUnlock.
  - exact Hom.
  - apply dec_stable in Hn. by rewrite Hn.
Qed.

Lemma elem_of_flat_map {A B} (f : A → list B) (l : list A) (y : B) :
  y ∈ flat_map f l ↔ ∃ x, x ∈ l ∧ y ∈ f x.
Proof.
  rewrite list_elem_of_In, in_flat_map. split.
  - intros (x & Hx & Hy). exists x. by rewrite !list_elem_of_In.
  - intros (x & Hx & Hy). exists x. by rewrite <- !list_elem_of_In.
Qed.

Lemma logbookToChallenge_ids eid id :
  id ∈ default [] (logbookToChallenge theMapping !! eid)
  ↔ ∃ c e, c ∈ challenges ∧ e ∈ linksOf logbookEntries c ∧ e_id e = eid ∧ c_id c = id.
Proof.
  destruct (mapping_lookup challenges logbookEntries) as (_ & _ & _ & -> & _).
  rewrite (proj1 (extendWith_None _)), elem_of_flat_map. split.
  - intros (c & Hc & Hin). apply list_elem_of_fmap in Hin as (e & -> & Hin).
    apply list_elem_of_filter in Hin as [He Hin].
    rewrite linkedEntries_byUnlock in Hin. by exists c, e.
  - intros (c & e & Hc & Hin & He & <-). exists c. split; [done|].
    apply list_elem_of_fmap. exists e. split; [done|].
    apply list_elem_of_filter. split; [done|]. by rewrite linkedEntries_byUnlock.
Qed.

(** X14. In a catalog whose challenge ids and entry ids are unique, the
    entries linked to a challenge are read off its unlock ids: one entry for
    each unlock id that starts with "Items." or "Equipment." and is carried by
    an items or equipment entry. So every linked entry belongs to the catalog,
    is of category items or equipment, and its unlock id is one of the unlock
    ids of the challenge; the count shown for the challenge is the number of
    these links. *)
Theorem linked_entries_scope (c : Challenge) :
  NoDup (map c_id challenges) → NoDup (map e_id logbookEntries) → c ∈ challenges →
  entriesFor (c_id c) = linksOf logbookEntries c
  ∧ getLogbookCountForChallenge challenges logbookEntries (c_id c)
    = List.length (linksOf logbookEntries c)
  ∧ (∀ e, e ∈ entriesFor (c_id c) →
          e ∈ logbookEntries ∧ isItemLike e ∧ e_unlockId e ∈ c_unlocks c
          ∧ isMappedPrefix (e_unlockId e) = true).
Proof.
  intros Hc He Hin. split_and!.
  - by apply entriesFor_unique.
  - unfold getLogbookCountForChallenge.
    destruct (mapping_lookup challenges logbookEntries) as (_ & _ & -> & _).
    rewrite (last_filter_unique_and c_id _ challenges c Hc Hin).
    rewrite linkedEntries_byUnlock.
    destruct (decide (linksOf logbookEntries c ≠ [])) as [Hn|Hn]; simpl;
      rewrite ?linkedEntries_byUnlock.
    + by rewrite length_fmap.
    + apply dec_stable in Hn. by rewrite Hn.
  - intros e. rewrite entriesFor_unique by done. apply linksOf_scope.
Qed.

(** X15. In a catalog whose challenge ids and entry ids are unique the
    reference graph is symmetric: an entry is among the entries of a challenge
    exactly when the challenge is among the challenges of the entry. *)
Theorem reference_graph_symmetric (c : Challenge) (e : LogbookEntry) :
  NoDup (map c_id challenges) → NoDup (map e_id logbookEntries) →
  c ∈ challenges → e ∈ logbookEntries →
  e ∈ entriesFor (c_id c) ↔ c ∈ challengesFor (e_id e).
Proof.
  intros Hc He Hcin Hein. rewrite entriesFor_unique by done.
  unfold getChallengesForLogbookEntry. rewrite list_elem_of_omap. split.
  - intros Hl. exists (c_id c). split.
    + apply logbookToChallenge_ids. by exists c, e.
    + by apply challengeById_unique.
  - intros (id & Hid & Hlook).
    apply logbookToChallenge_ids in Hid as (c' & e' & Hc' & Hl & Heid & <-).
    rewrite (challengeById_unique challenges c' Hc Hc') in Hlook.
    injection Hlook as ->.
    assert (e' = e) as <-; [|done].
    apply (unique_key_inj e_id logbookEntries); try done.
    by apply linksOf_scope in Hl as (? & _).
Qed.

(** *** Connections and counts *)

Lemma length_omap_le {A B} (f : A → option B) (l : list A) :
  (List.length (omap f l) <= List.length l)%nat.
Proof.
  induction l as [|a l IH]; [done|]. cbn [omap list_omap]. fold (omap f l).
  destruct (f a); cbn [List.length]; lia.
Qed.

(** X16. The connection badges agree with the counts: a challenge has a
    logbook connection exactly when its entry count is positive, an entry has
    a challenge connection exactly when its challenge count is positive (no
    empty list is ever stored in the graph), and neither query returns more
    elements than the count announces. *)
Theorem connection_counts (c : Challenge) (e : LogbookEntry) :
  (hasLogbookConnection challenges logbookEntries c = true
   ↔ (0 < getLogbookCountForChallenge challenges logbookEntries (c_id c))%nat)
  ∧ (hasChallengeConnection challenges logbookEntries e = true
     ↔ (0 < getChallengeCountForLogbookEntry challenges logbookEntries (e_id e))%nat)
  ∧ (List.length (entriesFor (c_id c))
     <= getLogbookCountForChallenge challenges logbookEntries (c_id c))%nat
  ∧ (List.length (challengesFor (e_id e))
     <= getChallengeCountForLogbookEntry challenges logbookEntries (e_id e))%nat.
Proof.
  unfold hasLogbookConnection, hasChallengeConnection, getLogbookCountForChallenge,
    getChallengeCountForLogbookEntry, getLogbookEntriesForChallenge,
    getChallengesForLogbookEntry.
  destruct (mapping_lookup challenges logbookEntries) as (_ & _ & H1 & H2 & _).
  rewrite H1, H2. clear H1 H2.
  rewrite !bool_decide_eq_true. split_and!.
  - destruct (last _) as [c'|] eqn:E.
    + apply last_Some_elem_of, list_elem_of_filter in E as [[_ Hn] _].
      rewrite length_fmap. split; [intros _ | intros _; by eexists].
      destruct (linkedEntries _ (c_unlocks c')); [done | simpl; lia].
    + split; [by intros [? ?] | lia].
  - match goal with |- context [extendWith None ?L] => generalize L end.
    intros [|x L]; simpl.
    + split; [by intros [? ?] | lia].
    + split; [intros _; lia | intros _; by eexists].
  - destruct (last _) as [c'|]; simpl; [apply length_omap_le | lia].
  - match goal with |- context [extendWith None ?L] => generalize L end.
    intros [|x L]; [simpl; lia | apply length_omap_le].
Qed.

(** *** The diagnostic scan *)

Lemma unlockIdToChallenges_elem u c :
  c ∈ getChallengesForUnlockId challenges logbookEntries u
  ↔ c ∈ challenges ∧ u ∈ c_unlocks c ∧ isMappedPrefix u = true
    ∧ is_Some (getLogbookEntryByUnlockId challenges logbookEntries u).
Proof.
  unfold getChallengesForUnlockId, getLogbookEntryByUnlockId.
  destruct (mapping_lookup challenges logbookEntries) as (-> & _ & _ & _ & ->).
  rewrite (proj1 (extendWith_None _)), elem_of_flat_map. split.
  - intros (c' & Hc & Hin). apply list_elem_of_fmap in Hin as (v & -> & Hin).
    apply list_elem_of_filter in Hin as [-> Hin].
    apply list_elem_of_filter in Hin as [[? ?] ?]. done.
  - intros (Hc & Hu & Hm & Hs). exists c. split; [done|].
    apply list_elem_of_fmap. exists u. split; [done|].
    apply list_elem_of_filter. split; [done|]. by apply list_elem_of_filter.
Qed.

(** X17. [findUnmappedChallengeUnlocks] reports a pair exactly when the
    unlock id belongs to the challenge, starts with "Items." or "Equipment."
    and is carried by no items or equipment entry; and every unlock id of a
    challenge that starts with one of the two prefixes is either reported or
    answered by [getChallengesForUnlockId] with that challenge, never both. *)
Theorem unmapped_unlocks_complete (c : Challenge) (u : string) :
  ((c, u) ∈ findUnmappedChallengeUnlocks challenges logbookEntries
   ↔ c ∈ challenges ∧ u ∈ c_unlocks c ∧ isMappedPrefix u = true
     ∧ ∀ e, e ∈ logbookEntries → isItemLike e → e_unlockId e ≠ u)
  ∧ (c ∈ challenges → u ∈ c_unlocks c → isMappedPrefix u = true →
     ((c, u) ∈ findUnmappedChallengeUnlocks challenges logbookEntries
      ↔ c ∉ getChallengesForUnlockId challenges logbookEntries u)).
Proof.
  assert ((c, u) ∈ findUnmappedChallengeUnlocks challenges logbookEntries
          ↔ c ∈ challenges ∧ u ∈ c_unlocks c ∧ isMappedPrefix u = true
            ∧ getLogbookEntryByUnlockId challenges logbookEntries u = None) as Hscan.
  { unfold findUnmappedChallengeUnlocks, getLogbookEntryByUnlockId.
    rewrite elem_of_flat_map. split.
    - intros (c' & Hc & Hin). apply list_elem_of_fmap in Hin as (v & [= -> ->] & Hin).
      apply list_elem_of_filter in Hin as [Hp Hin].
      apply andb_true_iff in Hp as [Hm Hn]. apply negb_true_iff, bool_decide_eq_false in Hn.
      split_and!; try done. by apply eq_None_not_Some.
    - intros (Hc & Hu & Hm & Hn). exists c. split; [done|].
      apply list_elem_of_fmap. exists u. split; [done|].
      apply list_elem_of_filter. split; [|done].
      rewrite Hm. simpl. apply negb_true_iff, bool_decide_eq_false.
      rewrite Hn. by intros [? ?]. }
  split.
  - rewrite Hscan. destruct (index_lookup_None u) as [H1 H2].
    split; intros (? & ? & ? & ?); split_and!; auto.
  - intros Hc Hu Hm. rewrite Hscan, unlockIdToChallenges_elem. split.
    + intros (_ & _ & _ & Hn) (_ & _ & _ & [e He]). congruence.
    + intros Hno. split_and!; try done. apply eq_None_not_Some. intros Hs.
      apply Hno. done.
Qed.

End GraphQueries.

(** ** The identifier resolver *)

Section Resolver.

Lemma split_nonempty (sep : ascii) (s : string) : JsString.split sep s ≠ [].
Proof.
  destruct s as [|c s]; simpl; [done|].
  destruct (Ascii.eqb c sep); [done|]. by destruct (JsString.split sep s).
Qed.

(** Splitting at a separator splits the text before it and the text after it. *)
Lemma split_app (sep : ascii) (p x : string) :
  JsString.split sep (p +:+ String sep x) = JsString.split sep p ++ JsString.split sep x.
Proof.
  induction p as [|c p IH]; simpl.
  - by rewrite Ascii.eqb_refl.
  - rewrite IH. destruct (Ascii.eqb c sep); [done|].
    pose proof (split_nonempty sep p) as Hp.
    destruct (JsString.split sep p) as [|h t]; done.
Qed.

Lemma last_app_nonempty {A} (l1 l2 : list A) (d : A) :
  l2 ≠ [] → List.last (l1 ++ l2) d = List.last l2 d.
Proof.
  intros H2. induction l1 as [|a l1 IH]; [done|]. simpl.
  destruct (l1 ++ l2) eqn:E; [|done].
  apply app_eq_nil in E as [_ ?]. done.
Qed.

(** X18. [getInternalBodyName] reads the last path segment only: whatever
    precedes the last "/" of the id, the category segment included, has no
    influence on the result. *)
Theorem getInternalBodyName_last_segment (p x : string) :
  getInternalBodyName (p +:+ "/" +:+ x) = getInternalBodyName x.
Proof.
  unfold getInternalBodyName.
  change (p +:+ "/" +:+ x) with (p +:+ String "/"%char x).
  rewrite split_app, last_app_nonempty by apply split_nonempty. done.
Qed.

(** *** Identifiers in the "Logs." format *)

Lemma split_without (sep : ascii) (s : string) :
  JsString.includes s (String sep "") = false → JsString.split sep s = [s].
Proof.
  induction s as [|c s IH]; [done|]. cbn [JsString.includes JsString.startsWith].
  rewrite Ascii.eqb_sym. intros H. cbn [JsString.split].
  destruct (Ascii.eqb c sep); [done|]. rewrite IH; [done|].
  destruct s; done.
Qed.

Lemma endsWith_without (c : ascii) (rest s : string) :
  JsString.includes s (String c "") = false → JsString.endsWith s (String c rest) = false.
Proof.
  induction s as [|a s IH]; [done|]. cbn [JsString.includes JsString.startsWith].
  intros H. cbn [JsString.endsWith].
  destruct (Ascii.eqb c a) eqn:Eca; [done|].
  assert (String.eqb (String a s) (String c rest) = false) as ->.
  { cbn [String.eqb]. rewrite Ascii.eqb_sym, Eca. done. }
  apply IH. by destruct s.
Qed.

Lemma stripSuffix_without (c : ascii) (rest s : string) :
  JsString.includes s (String c "") = false →
  JsString.stripSuffix (String c rest) s = s.
Proof. intros H. unfold JsString.stripSuffix. by rewrite endsWith_without. Qed.

Lemma append_empty_r (s : string) : s +:+ "" = s.
Proof.
  induction s as [|c s IH]; [done|].
  change (String c (s +:+ "") = String c s). by rewrite IH.
Qed.

Lemma includes_Logs (c : ascii) (t : string) :
  bool_decide (c ∈ ["L"; "o"; "g"; "s"; "."]%char) = false →
  JsString.includes t (String c "") = false →
  JsString.includes ("Logs." +:+ t) (String c "") = false.
Proof.
  intros Hc Ht. apply bool_decide_eq_false in Hc.
  assert (∀ a, a ∈ ["L"; "o"; "g"; "s"; "."]%char → Ascii.eqb c a = false) as Hne.
  { intros a Ha. apply Ascii.eqb_neq. intros ->. done. }
  change ("Logs." +:+ t)
    with (String "L" (String "o" (String "g" (String "s" (String "." t))))).
  cbn [JsString.includes JsString.startsWith].
  rewrite !Hne by set_solver. exact Ht.
Qed.

Lemma getInternalBodyName_Logs (t : string) :
  JsString.includes t "/" = false → JsString.includes t "_" = false →
  getInternalBodyName ("Logs." +:+ t) = "Logs." +:+ JsString.toLowerCase t.
Proof.
  intros Hslash Hunder.
  assert (JsString.includes ("Logs." +:+ t) "/" = false) as Hs
    by (by apply includes_Logs).
  assert (JsString.includes ("Logs." +:+ t) "_" = false) as Hu
    by (by apply includes_Logs).
  unfold getInternalBodyName.
  rewrite (split_without "/"%char _ Hs). cbn [List.last].
  assert (JsString.truthy ("Logs." +:+ t) = true) as -> by done. cbn [negb].
  rewrite (stripSuffix_without "_"%char "BODY_NAME" _ Hu).
  rewrite (stripSuffix_without "_"%char "NAME" _ Hu).
  assert (JsString.stripPrefix "MAP_" ("Logs." +:+ t) = "Logs." +:+ t) as -> by done.
  rewrite (stripSuffix_without "_"%char "TITLE" _ Hu).
  assert (tableGet overrides ("Logs." +:+ t) = None) as -> by reflexivity.
  rewrite (split_without "_"%char _ Hu).
  cbn [map JsString.join foldr]. rewrite append_empty_r. reflexivity.
Qed.

(** X19. For an id in the "Logs." format, "Logs." followed by a text [t]
    with no "/" and no "_", [getInternalBodyName] returns "Logs." followed by
    [t] in lower case. It is therefore always taken for an override by
    [updateLogbookStats], whose own derivation from the second dot-separated
    part of the id is never reached for such an id: the log id and the body
    name the stat projection works with are the lower-cased ones. *)
Theorem logs_format_is_lowercased (t : string) (e : LogbookEntry) :
  JsString.includes t "/" = false → JsString.includes t "_" = false →
  e_unlockId e = "Logs." +:+ t →
  getInternalBodyName (e_unlockId e) = "Logs." +:+ JsString.toLowerCase t
  ∧ logbookNames e
    = (cleanLogString ("Logs." +:+ JsString.toLowerCase t),
       "Logs." +:+ JsString.toLowerCase t).
Proof.
  intros Hslash Hunder He.
  pose proof (getInternalBodyName_Logs t Hslash Hunder) as Hb.
  split; [by rewrite He|].
  unfold logbookNames. rewrite He.
  assert (JsString.startsWith ("Logs." +:+ t) "Logs." = true) as -> by reflexivity.
  rewrite Hb. reflexivity.
Qed.

(** *** The unlock predicate is monotone *)

Lemma statsFailsafe_monotone_aux (s s' : SaveData) (e : LogbookEntry) :
  unlocks s ⊆ unlocks s' →
  (∀ k, is_Some (stats s !! k) → is_Some (stats s' !! k)) →
  statsFailsafe s e = true → statsFailsafe s' e = true.
Proof.
  intros Hu Hst. unfold statsFailsafe.
  match goal with |- context [JsString.truthy ?b] => generalize b end. intros b.
  destruct (JsString.truthy b); [|done].
  destruct (isLogString b).
  - intros Hx%bool_decide_eq_true. by apply bool_decide_eq_true, Hu.
  - intros [Hx%bool_decide_eq_true | Hx%bool_decide_eq_true]%orb_true_iff;
      apply orb_true_iff; [left | right]; apply bool_decide_eq_true; auto.
Qed.

Lemma or_iff_both (A A' B B' : Prop) : (A ↔ A') → (B ↔ B') → (A ∨ B ↔ A' ∨ B').
Proof. tauto. Qed.

(** The cascade of tests of [isLogbookEntryUnlocked], as a disjunction. *)
Lemma isLogbookEntryUnlocked_spec (s : SaveData) (e : LogbookEntry) :
  isLogbookEntryUnlocked s e = true
  ↔ e_unlockId e ∈ unlocks s
    ∨ e_unlockId e ∈ viewedViewables s
    ∨ (∃ alias, alias ∈ getLogbookAliases (e_unlockId e) ∧ alias ∈ viewedViewables s)
    ∨ (∃ v, convertToViewableId e = Some v ∧ JsString.truthy v = true
            ∧ v ∈ viewedViewables s)
    ∨ (∃ p, pickupOf e = Some p ∧ p ∈ discoveredPickups s)
    ∨ (e_category e = drones ∧ pickupOf e = None
       ∧ ∃ d, getDronePickupId (e_unlockId e) = Some d ∧ JsString.truthy d = true
              ∧ d ∈ discoveredPickups s)
    ∨ statsFailsafe s e = true.
Proof.
  assert (isLogbookEntryUnlocked s e
          = bool_decide (e_unlockId e ∈ unlocks s)
            || (bool_decide (e_unlockId e ∈ viewedViewables s)
            || (existsb (λ alias, bool_decide (alias ∈ viewedViewables s))
                  (getLogbookAliases (e_unlockId e))
            || (match convertToViewableId e with
                | Some viewableId =>
                    JsString.truthy viewableId
                    && bool_decide (viewableId ∈ viewedViewables s)
                | None => false
                end
            || (match pickupOf e with
                | Some p => bool_decide (p ∈ discoveredPickups s)
                | None => false
                end
            || (match e_category e, pickupOf e with
                | drones, None =>
                    match getDronePickupId (e_unlockId e) with
                    | Some d => JsString.truthy d && bool_decide (d ∈ discoveredPickups s)
                    | None => false
                    end
                | _, _ => false
                end
            || statsFailsafe s e)))))) as -> by reflexivity.
  rewrite !orb_true_iff, !bool_decide_eq_true.
  apply or_iff_compat_l, or_iff_compat_l.
  apply or_iff_both; [|apply or_iff_both; [|apply or_iff_both; [|apply or_iff_compat_r]]].
  - rewrite existsb_exists. split.
    + intros (x & Hx & Hin%bool_decide_eq_true). exists x. by rewrite list_elem_of_In.
    + intros (x & Hx & Hin). exists x. rewrite <- list_elem_of_In.
      split; [done | by apply bool_decide_eq_true].
  - destruct (convertToViewableId e) as [v|]; split.
    + intros [? ?%bool_decide_eq_true]%andb_true_iff. by exists v.
    + intros (v' & [= <-] & ? & ?). apply andb_true_iff.
      split; [done | by apply bool_decide_eq_true].
    + done.
    + by intros (? & ? & _).
  - destruct (pickupOf e) as [p|]; split.
    + intros ?%bool_decide_eq_true. by exists p.
    + intros (p' & [= <-] & ?). by apply bool_decide_eq_true.
    + done.
    + by intros (? & ? & _).
  - destruct (e_category e), (pickupOf e) as [p|];
      try (split; [done | intros (? & ? & _); done]).
    destruct (getDronePickupId (e_unlockId e)) as [d|]; split.
    + intros [? ?%bool_decide_eq_true]%andb_true_iff. split_and!; try done. by exists d.
    + intros (_ & _ & d' & [= <-] & ? & ?). apply andb_true_iff.
      split; [done | by apply bool_decide_eq_true].
    + done.
    + by intros (_ & _ & ? & ? & _).
Qed.

(** X20. [isLogbookEntryUnlocked] is monotone in the profile: an entry
    that counts as unlocked still does after any change that only adds to
    [unlocks], [viewedViewables], [discoveredPickups] and the keys of the
    counter map; achievements, the viewed unlockables and the values of the
    counters are never looked at. *)
Theorem isLogbookEntryUnlocked_monotone (s s' : SaveData) (e : LogbookEntry) :
  unlocks s ⊆ unlocks s' → viewedViewables s ⊆ viewedViewables s' →
  discoveredPickups s ⊆ discoveredPickups s' →
  (∀ k, is_Some (stats s !! k) → is_Some (stats s' !! k)) →
  isLogbookEntryUnlocked s e = true → isLogbookEntryUnlocked s' e = true.
Proof.
  intros Hu Hv Hp Hst. rewrite !isLogbookEntryUnlocked_spec.
  intros [?|[?|[(x & ? & ?)|[(v & ? & ? & ?)|[(p & ? & ?)|[(? & ? & d & ? & ? & ?)|?]]]]]].
  - left. by apply Hu.
  - right; left. by apply Hv.
  - right; right; left. exists x. split; [done | by apply Hv].
  - right; right; right; left. exists v. split_and!; [done | done | by apply Hv].
  - right; right; right; right; left. exists p. split; [done | by apply Hp].
  - right; right; right; right; right; left. split_and!; [done | done |].
    exists d. split_and!; [done | done | by apply Hp].
  - right; right; right; right; right; right.
    by apply (statsFailsafe_monotone_aux s s').
Qed.

End Resolver.

(** ** Looking a challenge up by its achievement id *)

Section ChallengeLookup.

Variable challenges : list Challenge.

Lemma getChallengeByAchievement_last a :
  getChallengeByAchievement challenges a
  = last (filter (λ c, c_achievement c = a) challenges).
Proof.
  unfold getChallengeByAchievement, challengeByAchievement.
  rewrite (foldl_insert_last c_achievement). by destruct (last _).
Qed.

(** X21. [getChallengeByAchievement] answers from a map built over the
    catalog, in which a later challenge replaces an earlier one with the same
    achievement id, whereas [toggleAchievement] searches the catalog from the
    front. In a catalog whose achievement ids are unique the two lookups
    agree on every id. *)
Theorem challenge_lookups_agree (a : string) :
  NoDup (map c_achievement challenges) →
  getChallengeByAchievement challenges a = findChallenge challenges a.
Proof.
  rewrite getChallengeByAchievement_last. unfold findChallenge.
  induction challenges as [|c cs IH]; intros Hnd; [done|].
  simpl in Hnd. apply NoDup_cons in Hnd as [Hc Hnd]. cbn [find].
  destruct (String.eqb (c_achievement c) a) eqn:E.
  - apply String.eqb_eq in E. rewrite filter_cons_True by done.
    rewrite filter_none; [done|]. apply Forall_forall. intros c' Hc' Ha.
    apply Hc. rewrite E, <- Ha. apply list_elem_of_fmap. by exists c'.
  - apply String.eqb_neq in E. rewrite filter_cons_False by done. by apply IH.
Qed.

End ChallengeLookup.

(** ** Survivor entries and the handlers of the logbook view *)

Section LogbookView.

Variable challenges : list Challenge.
Variable logbookEntries : list LogbookEntry.

Local Abbreviation entriesFor := (getLogbookEntriesForChallenge challenges logbookEntries).
Local Abbreviation challengesFor := (getChallengesForLogbookEntry challenges logbookEntries).
Local Abbreviation toggleAch := (toggleAchievement challenges logbookEntries).
Local Abbreviation toggleEntry := (toggleLogbookEntry challenges logbookEntries).
Local Abbreviation unlockSurvivor :=
  (LogbookEditor.unlockSurvivorAchievement challenges logbookEntries).

Lemma tableGet_value (table : list (string * string)) (k v : string) :
  tableGet table k = Some v → v ∈ map snd table.
Proof.
  induction table as [|[k' v'] table IH]; [done|]. simpl.
  destruct (String.eqb k' k).
  - intros [= ->]. by left.
  - intros H. right. by apply IH.
Qed.

Lemma survivorAchievementId_value e a :
  survivorAchievementId e = Some a → a ∈ map snd SURVIVOR_UNLOCKID_TO_ACHIEVEMENT.
Proof.
  assert (∀ v, v ∈ map snd SURVIVOR_UNLOCKID_TO_ACHIEVEMENT → JsString.truthy v = true)
    as HU.
  { apply Forall_forall. apply (bool_decide_unpack _). vm_compute. exact I. }
  assert (∀ v, v ∈ map snd SURVIVOR_LOGBOOK_TO_ACHIEVEMENT →
               v ∈ map snd SURVIVOR_UNLOCKID_TO_ACHIEVEMENT) as HL.
  { apply Forall_forall. apply (bool_decide_unpack _). vm_compute. exact I. }
  unfold survivorAchievementId, truthyValue.
  destruct (tableGet SURVIVOR_UNLOCKID_TO_ACHIEVEMENT (e_unlockId e)) as [v|] eqn:E1.
  - apply tableGet_value in E1. rewrite !(HU v E1). by intros [= <-].
  - destruct (tableGet SURVIVOR_LOGBOOK_TO_ACHIEVEMENT (e_id e)) as [v|] eqn:E2.
    + apply tableGet_value, HL in E2. rewrite !(HU v E2). by intros [= <-].
    + repeat match goal with
             | |- context [String.eqb (e_id e) ?x] => destruct (String.eqb (e_id e) x)
             end; cbn [JsString.truthy]; intros [= <-];
        apply (bool_decide_unpack _); vm_compute; exact I.
Qed.

(** X22. [getAchievementForSurvivorLogbook] answers for survivors entries
    only, and what it returns is a challenge of the catalog whose achievement
    id is one of the twelve survivor achievements of the unlock-id table (the
    ids listed in the id table and the five special-cased entry ids all lead
    to one of these). *)
Theorem survivor_achievement_scope (e : LogbookEntry) (c : Challenge) :
  getAchievementForSurvivorLogbook challenges e = Some c →
  e_category e = survivors ∧ c ∈ challenges
  ∧ c_achievement c ∈ map snd SURVIVOR_UNLOCKID_TO_ACHIEVEMENT
  ∧ findChallenge challenges (c_achievement c) = Some c.
Proof.
  unfold getAchievementForSurvivorLogbook.
  destruct (decide (e_category e ≠ survivors)) as [Hn|Hs]; [done|].
  apply dec_stable in Hs.
  destruct (survivorAchievementId e) as [a|] eqn:Ea; [|done].
  intros Hfind. pose proof (findChallenge_Some challenges a c Hfind) as [Hc Hac].
  split_and!; try done.
  - rewrite Hac. by apply (survivorAchievementId_value e).
  - by rewrite Hac.
Qed.

Lemma survivor_lookup_found (e : LogbookEntry) (c : Challenge) :
  getAchievementForSurvivorLogbook challenges e = Some c →
  e_category e = survivors ∧ findChallenge challenges (c_achievement c) = Some c.
Proof.
  unfold getAchievementForSurvivorLogbook.
  destruct (decide (e_category e ≠ survivors)) as [Hn|Hs]; [done|].
  apply dec_stable in Hs.
  destruct (survivorAchievementId e) as [a|] eqn:Ea; [|done].
  intros Hfind. pose proof (findChallenge_Some challenges a c Hfind) as [Hc Hac].
  split; [done | by rewrite Hac].
Qed.

(** *** The handlers *)

Lemma toggleAchievement_enable_unviewed s a x :
  x ∈ unviewedAchievements s → x ∈ unviewedAchievements (toggleAch s a true).
Proof.
  intros Hx. unfold toggleAchievement.
  destruct (findChallenge challenges a); rewrite ?foldl_markEntry, ?foldl_grantUnlock;
    simpl; apply elem_of_add; right; by apply elem_of_ofArray.
Qed.

Lemma unlockSurvivor_grows w e :
  setsGrow w (unlockSurvivor w e)
  ∧ unviewedAchievements w ⊆ unviewedAchievements (unlockSurvivor w e).
Proof.
  unfold LogbookEditor.unlockSurvivorAchievement.
  destruct (decide (e_category e = survivors)); [|split; [apply setsGrow_refl | done]].
  destruct (getAchievementForSurvivorLogbook challenges e) as [c|];
    [|split; [apply setsGrow_refl | done]].
  split; [apply toggleAchievement_enable_grows|].
  intros x. apply toggleAchievement_enable_unviewed.
Qed.

Lemma unlockSurvivor_grants w e c :
  getAchievementForSurvivorLogbook challenges e = Some c →
  let r := unlockSurvivor w e in
  c_achievement c ∈ achievements r ∧ c_achievement c ∈ unviewedAchievements r
  ∧ challengeGranted r c ∧ (∀ e', e' ∈ entriesFor (c_id c) → entryMarked r e').
Proof.
  intros Hc. pose proof (survivor_lookup_found e c Hc) as (Hs & Hfind).
  cbn zeta. unfold LogbookEditor.unlockSurvivorAchievement.
  rewrite decide_True by done. rewrite Hc.
  destruct (toggleAchievement_enable_ids challenges logbookEntries w (c_achievement c))
    as [H1 H2].
  destruct (toggleAchievement_enable_grants challenges logbookEntries w
              (c_achievement c) c Hfind) as [H3 H4].
  done.
Qed.

(** X23. Ticking an entry in the logbook view ([handleToggleEntry] with
    [enabled] set) hands over a profile in which the entry is marked and counts
    as unlocked and nothing was removed from the five unlock collections; when
    the entry is a survivor for which the catalog holds the unlocking
    challenge, that achievement is held and flagged unviewed, its unlock ids
    are granted and its linked entries marked. For an entry of another
    category, and when unticking, the handler is [toggleLogbookEntry] alone. *)
Theorem handleToggleEntry_effect (s : SaveData) (e : LogbookEntry) :
  let r := LogbookEditor.handleToggleEntry challenges logbookEntries s e true in
  isLogbookEntryUnlocked r e = true ∧ entryMarked r e ∧ setsGrow s r
  ∧ (∀ c, getAchievementForSurvivorLogbook challenges e = Some c →
          c_achievement c ∈ achievements r ∧ c_achievement c ∈ unviewedAchievements r
          ∧ challengeGranted r c ∧ (∀ e', e' ∈ entriesFor (c_id c) → entryMarked r e'))
  ∧ (e_category e ≠ survivors → r = toggleEntry s e true)
  ∧ LogbookEditor.handleToggleEntry challenges logbookEntries s e false
    = toggleEntry s e false.
Proof.
  intros r. subst r. unfold LogbookEditor.handleToggleEntry. cbn [negb].
  destruct (unlockSurvivor_grows (toggleEntry s e true) e) as [G _].
  assert (entryMarked (unlockSurvivor (toggleEntry s e true) e) e) as Hm.
  { eapply entryMarked_grows; [exact G|].
    apply (toggleLogbookEntry_enable_marks challenges logbookEntries s e). }
  split_and!.
  - by apply entryMarked_unlocked.
  - exact Hm.
  - eapply setsGrow_trans; [apply toggleLogbookEntry_enable_grows | exact G].
  - intros c Hc. by apply unlockSurvivor_grants.
  - intros Hn. unfold LogbookEditor.unlockSurvivorAchievement.
    by rewrite decide_False.
  - done.
Qed.

Lemma allOwned_allows (d : DLC) : dlcSkipped (Some LogbookEditor.allOwned) d = false.
Proof. by destruct d. Qed.

(** X24. The two bulk buttons of the logbook view. "Unlock Everything"
    ([handleUnlockAllClick]) hands over a profile in which every entry of the
    catalog is marked and counts as unlocked; the per-category button
    ([unlockGroup]) does so for every entry of its category. Both only add to
    the five unlock collections, and for every survivors entry they reach
    whose unlocking challenge the catalog holds, that achievement is held and
    flagged unviewed: after "Unlock Everything" the list of unviewed
    achievements is not empty when there is such an entry. *)
Theorem logbook_view_bulk_handlers (s : SaveData) (category : LogbookCategory) :
  let all := LogbookEditor.handleUnlockAllClick challenges logbookEntries s in
  let group := LogbookEditor.unlockGroup challenges logbookEntries s category in
  (∀ e, e ∈ logbookEntries →
        entryMarked all e ∧ isLogbookEntryUnlocked all e = true
        ∧ (∀ c, e_category e = survivors →
                getAchievementForSurvivorLogbook challenges e = Some c →
                c_achievement c ∈ achievements all
                ∧ c_achievement c ∈ unviewedAchievements all))
  ∧ setsGrow s all
  ∧ (∀ e, e ∈ logbookEntries → e_category e = category →
          entryMarked group e ∧ isLogbookEntryUnlocked group e = true
          ∧ (∀ c, getAchievementForSurvivorLogbook challenges e = Some c →
                  c_achievement c ∈ achievements group
                  ∧ c_achievement c ∈ unviewedAchievements group))
  ∧ setsGrow s group.
Proof.
  intros all group.
  assert (∀ es w, setsGrow w (foldl unlockSurvivor w es)
                  ∧ unviewedAchievements w ⊆ unviewedAchievements (foldl unlockSurvivor w es))
    as Hfold.
  { induction es as [|e es IH]; intros w; simpl; [split; [apply setsGrow_refl | done]|].
    destruct (unlockSurvivor_grows w e) as [G1 G2].
    destruct (IH (unlockSurvivor w e)) as [G3 G4].
    split; [by eapply setsGrow_trans | by etrans]. }
  set (step := λ newData entry, unlockSurvivor (toggleEntry newData entry true) entry).
  assert (∀ w e, setsGrow w (step w e)
                 ∧ unviewedAchievements w ⊆ unviewedAchievements (step w e)) as Hstep.
  { intros w e. subst step. cbn beta.
    destruct (unlockSurvivor_grows (toggleEntry w e true) e) as [G1 G2]. split.
    - eapply setsGrow_trans; [apply toggleLogbookEntry_enable_grows | exact G1].
    - etrans; [|exact G2]. intros x Hx. unfold toggleLogbookEntry.
      match goal with
      | |- context [applyLogbookStats e true ?w3] =>
          destruct (applyLogbookStats_fields e true w3) as (_ & -> & _)
      end.
      unfold addAliases. simpl.
      apply (foldl_invariant (enableChallenge challenges logbookEntries)
               (λ w', x ∈ unviewedAchievements w')).
      + unfold markEntry. destruct (pickupOf e); simpl; by apply elem_of_ofArray.
      + intros w' c _. apply enableChallenge_unviewed. }
  split_and!.
  - intros e He. subst all. unfold LogbookEditor.handleUnlockAllClick.
    assert (entryMarked
              (foldl unlockSurvivor
                 (unlockAllLogbook challenges logbookEntries s
                    (Some LogbookEditor.allOwned)) logbookEntries) e) as Hm.
    { destruct (unlockAllLogbook_entries challenges logbookEntries s
                  (Some LogbookEditor.allOwned) e He (allOwned_allows _)) as (Hm & _).
      destruct (Hfold logbookEntries
                  (unlockAllLogbook challenges logbookEntries s
                     (Some LogbookEditor.allOwned))) as [G _].
      by eapply entryMarked_grows. }
    split_and!.
    + exact Hm.
    + by apply entryMarked_unlocked.
    + clear Hm. intros c _ Hc. revert c Hc. revert e He.
      apply (foldl_establish unlockSurvivor
               (λ e w, ∀ c, getAchievementForSurvivorLogbook challenges e = Some c →
                            c_achievement c ∈ achievements w
                            ∧ c_achievement c ∈ unviewedAchievements w)).
      * intros w e c Hc. destruct (unlockSurvivor_grants w e c Hc) as (? & ? & _). done.
      * intros w e e' IH c Hc. destruct (IH c Hc) as [H1 H2].
        destruct (unlockSurvivor_grows w e') as [(G1 & _) G2]. split; [by apply G1 | by apply G2].
  - subst all. unfold LogbookEditor.handleUnlockAllClick.
    eapply setsGrow_trans; [apply unlockAllLogbook_grows | apply Hfold].
  - intros e He Hcat. subst group. unfold LogbookEditor.unlockGroup. fold step.
    assert (e ∈ filter (λ e, e_category e = category) logbookEntries) as Hin
      by (by apply list_elem_of_filter).
    clear He Hcat. revert e Hin.
    apply (foldl_establish step
             (λ e w, entryMarked w e ∧ isLogbookEntryUnlocked w e = true
                     ∧ ∀ c, getAchievementForSurvivorLogbook challenges e = Some c →
                            c_achievement c ∈ achievements w
                            ∧ c_achievement c ∈ unviewedAchievements w)).
    + intros w e. subst step. cbn beta.
      destruct (unlockSurvivor_grows (toggleEntry w e true) e) as [G _].
      assert (entryMarked (unlockSurvivor (toggleEntry w e true) e) e) as Hm.
      { eapply entryMarked_grows; [exact G|].
        apply (toggleLogbookEntry_enable_marks challenges logbookEntries w e). }
      split_and!; [done | by apply entryMarked_unlocked |].
      intros c Hc. destruct (unlockSurvivor_grants (toggleEntry w e true) e c Hc)
        as (? & ? & _). done.
    + intros w e e' (Hm & _ & Hc). destruct (Hstep w e') as [G1 G2].
      assert (entryMarked (step w e') e) as Hm' by (by eapply entryMarked_grows).
      split_and!; [done | by apply entryMarked_unlocked |].
      intros c Hcc. destruct (Hc c Hcc) as [H1 H2]. destruct G1 as (G1 & _).
      split; [by apply G1 | by apply G2].
  - subst group. unfold LogbookEditor.unlockGroup. fold step.
    apply foldl_grows. intros w e. apply Hstep.
Qed.

End LogbookView.

(** ** Space-separated lists *)

Section SpaceSeparated.

Local Abbreviation hasChar c s := (JsString.includes s (String c "")).

Lemma hasChar_cons (c a : ascii) (s : string) :
  hasChar c (String a s) = Ascii.eqb c a || hasChar c s.
Proof.
  cbn [JsString.includes JsString.startsWith]. destruct (Ascii.eqb c a); [|done].
  by destruct s.
Qed.

Lemma trimEnd_idemp (s : string) : JsText.trimEnd (JsText.trimEnd s) = JsText.trimEnd s.
Proof.
  induction s as [|c s IH]; [done|]. cbn [JsText.trimEnd].
  destruct (JsText.trimEnd s) as [|a t] eqn:E.
  - destruct (JsText.isWhiteSpace c) eqn:Ec; [done|]. cbn [JsText.trimEnd]. by rewrite Ec.
  - change (JsText.trimEnd (String c (String a t)))
      with (match JsText.trimEnd (String a t) with
            | EmptyString =>
                if JsText.isWhiteSpace c then EmptyString else String c EmptyString
            | String b t' => String c (String b t')
            end).
    by rewrite IH.
Qed.

Lemma trimStart_idemp (s : string) :
  JsText.trimStart (JsText.trimStart s) = JsText.trimStart s.
Proof.
  induction s as [|c s IH]; [done|]. cbn [JsText.trimStart].
  destruct (JsText.isWhiteSpace c) eqn:Ec; [done|]. cbn [JsText.trimStart]. by rewrite Ec.
Qed.

Lemma trimStart_length (x : string) :
  (String.length (JsText.trimStart x) <= String.length x)%nat.
Proof.
  induction x as [|b x IH]; cbn [JsText.trimStart]; [done|].
  destruct (JsText.isWhiteSpace b); cbn [String.length]; lia.
Qed.

Lemma trimStart_trimEnd (s : string) :
  JsText.trimStart s = s → JsText.trimStart (JsText.trimEnd s) = JsText.trimEnd s.
Proof.
  destruct s as [|c s]; [done|]. cbn [JsText.trimStart].
  destruct (JsText.isWhiteSpace c) eqn:Ec.
  - intros H. pose proof (trimStart_length s) as Hle. rewrite H in Hle.
    cbn [String.length] in Hle. lia.
  - intros _. cbn [JsText.trimEnd].
    destruct (JsText.trimEnd s); rewrite ?Ec; cbn [JsText.trimStart]; by rewrite Ec.
Qed.

Lemma trim_idemp (s : string) : JsText.trim (JsText.trim s) = JsText.trim s.
Proof.
  unfold JsText.trim.
  rewrite (trimStart_trimEnd (JsText.trimStart s)) by apply trimStart_idemp.
  apply trimEnd_idemp.
Qed.

Lemma trimStart_keeps_out (c : ascii) (s : string) :
  hasChar c s = false → hasChar c (JsText.trimStart s) = false.
Proof.
  induction s as [|a s IH]; [done|]. rewrite hasChar_cons. cbn [JsText.trimStart].
  intros [Ha Hs]%orb_false_iff. destruct (JsText.isWhiteSpace a); [by apply IH|].
  rewrite hasChar_cons, Ha. done.
Qed.

Lemma trimEnd_keeps_out (c : ascii) (s : string) :
  hasChar c s = false → hasChar c (JsText.trimEnd s) = false.
Proof.
  induction s as [|a s IH]; [done|]. rewrite hasChar_cons. cbn [JsText.trimEnd].
  intros [Ha Hs]%orb_false_iff. specialize (IH Hs).
  destruct (JsText.trimEnd s) as [|b t].
  - destruct (JsText.isWhiteSpace a); [done|]. by rewrite hasChar_cons, Ha.
  - by rewrite hasChar_cons, Ha.
Qed.

Lemma split_parts_without (sep : ascii) (s y : string) :
  y ∈ JsString.split sep s → hasChar sep y = false.
Proof.
  revert y. induction s as [|c s IH]; intros y; cbn [JsString.split].
  - by intros ->%list_elem_of_singleton.
  - destruct (Ascii.eqb c sep) eqn:Ec.
    + intros [-> | Hy]%elem_of_cons; [done | by apply IH].
    + pose proof (split_nonempty sep s) as Hne.
      destruct (JsString.split sep s) as [|h t]; [done|].
      intros [-> | Hy]%elem_of_cons.
      * rewrite hasChar_cons, Ascii.eqb_sym, Ec. apply IH. by left.
      * apply IH. by right.
Qed.

Lemma split_joinWith (sep : ascii) (l : list string) :
  l ≠ [] → Forall (λ s, hasChar sep s = false) l →
  JsString.split sep (JsText.joinWith (String sep "") l) = l.
Proof.
  intros Hne Hl. induction Hl as [|p l Hp Hl IH]; [done|].
  destruct l as [|q l].
  - by apply split_without.
  - change (JsText.joinWith (String sep "") (p :: q :: l))
      with (p +:+ String sep (JsText.joinWith (String sep "") (q :: l))).
    rewrite split_app, (split_without sep p Hp), IH by done. done.
Qed.

Lemma isToken_spec (s : string) :
  isToken s = true
  ↔ JsString.truthy s = true ∧ hasChar " " s = false ∧ JsText.trim s = s.
Proof.
  unfold isToken. rewrite !andb_true_iff, negb_true_iff, String.eqb_eq. tauto.
Qed.

Lemma truthy_length (s : string) : JsString.truthy s = true ↔ (0 < String.length s)%nat.
Proof. destruct s; simpl; split; intros; try done; lia. Qed.

Lemma parse_join (l : list string) :
  Forall (λ s, isToken s = true) l →
  parseSpaceSeparatedList (Some (JsText.joinWith " " l)) = l.
Proof.
  intros Hl. unfold parseSpaceSeparatedList.
  destruct l as [|p l]; [done|].
  assert (JsString.truthy (JsText.joinWith " " (p :: l)) = true) as ->.
  { apply Forall_cons in Hl as [Hp _]. apply isToken_spec in Hp as (Hp & _).
    destruct p; [done|]. by destruct l. }
  cbn [negb].
  rewrite (split_joinWith " "%char); [|done|].
  2:{ eapply Forall_impl; [exact Hl|]. intros s Hs.
      by apply isToken_spec in Hs as (_ & ? & _). }
  assert (map JsText.trim (p :: l) = p :: l) as ->.
  { clear -Hl. induction Hl as [|s l0 Hs _ IH]; [done|]. cbn [map].
    apply isToken_spec in Hs as (_ & _ & ->). by rewrite IH. }
  apply filter_all. eapply Forall_impl; [exact Hl|].
  intros s Hs. apply isToken_spec in Hs as (Hs & _). by apply truthy_length.
Qed.

Lemma parse_tokens (v : option string) :
  Forall (λ s, isToken s = true) (parseSpaceSeparatedList v).
Proof.
  unfold parseSpaceSeparatedList. destruct v as [v|]; [|done].
  destruct (negb (JsString.truthy v)); [done|].
  apply Forall_forall. intros x [Hlen Hin]%list_elem_of_filter.
  apply list_elem_of_fmap in Hin as (y & -> & Hy).
  apply isToken_spec. split_and!.
  - by apply truthy_length.
  - unfold JsText.trim. apply trimEnd_keeps_out, trimStart_keeps_out.
    by apply (split_parts_without " "%char v).
  - apply trim_idemp.
Qed.

(** X25. Writing a list with [join(" ")] and reading it back with
    [parseSpaceSeparatedList] returns the list, provided every element is a
    token: not empty, free of spaces and without white space at either end.
    (The empty list is written as the empty string and read back as the empty
    list.) *)
Theorem space_separated_round_trip (l : list string) :
  Forall (λ s, isToken s = true) l →
  parseSpaceSeparatedList (Some (JsText.joinWith " " l)) = l.
Proof. apply parse_join. Qed.

(** X26. Whatever text it is given, [parseSpaceSeparatedList] returns
    tokens only, so that what it returns survives being written and read
    again unchanged; an absent or empty text gives the empty list. *)
Theorem parseSpaceSeparatedList_normal_form (v : option string) :
  Forall (λ s, isToken s = true) (parseSpaceSeparatedList v)
  ∧ parseSpaceSeparatedList (Some (JsText.joinWith " " (parseSpaceSeparatedList v)))
    = parseSpaceSeparatedList v
  ∧ parseSpaceSeparatedList None = []
  ∧ parseSpaceSeparatedList (Some "") = [].
Proof.
  split_and!; [apply parse_tokens | apply parse_join, parse_tokens | done | done].
Qed.

End SpaceSeparated.

(** ** Disabling only removes *)

Section Disabling.

Variable challenges : list Challenge.
Variable logbookEntries : list LogbookEntry.

Local Abbreviation entriesFor := (getLogbookEntriesForChallenge challenges logbookEntries).
Local Abbreviation challengesFor := (getChallengesForLogbookEntry challenges logbookEntries).
Local Abbreviation toggleAch := (toggleAchievement challenges logbookEntries).
Local Abbreviation toggleEntry := (toggleLogbookEntry challenges logbookEntries).

Lemma profileShrinks_intro (s r : SaveData) :
  stateShrinks s r → stats r ⊆ stats s → profileShrinks s r.
Proof. intros (?&?&?&?&?&?&_) ?. unfold profileShrinks. split_and!; done. Qed.

Lemma openSets_shrinks s : stateShrinks s (openSets s).
Proof.
  unfold stateShrinks; simpl.
  split_and!; try (intros x Hx; by apply elem_of_ofArray); done.
Qed.

Lemma disableStage_stats stages (acc : list string * gmap string string) :
  (foldl disableStage acc stages).2 ⊆ acc.2.
Proof.
  revert acc. induction stages as [|g stages IH]; intros acc; simpl; [done|].
  etrans; [apply IH|]. simpl. apply delete_subseteq.
Qed.

Lemma updateLogbookStats_disable_stats e u st :
  (updateLogbookStats e false u st).2 ⊆ st.
Proof.
  unfold updateLogbookStats. destruct (logbookNames e) as [b f].
  destruct (negb (JsString.truthy b) && negb (JsString.truthy f)); [done|].
  destruct (e_category e); try done; try apply (disableStage_stats _ (u, st)).
  all: repeat case_match; cbn [snd]; try done.
  all: repeat (etrans; [apply delete_subseteq|]); done.
Qed.

Lemma lockEntryStats_stats e w : stats (lockEntryStats e w) ⊆ stats w.
Proof.
  unfold lockEntryStats. destruct (lockNames e) as [b f].
  destruct (JsString.truthy b || JsString.truthy f); [|done].
  destruct (e_category e); repeat case_match; simplify_eq; simpl; try done.
  all: repeat (etrans; [apply delete_subseteq|]); done.
Qed.

Lemma toggleAchievement_disable_shrinks s a : stateShrinks s (toggleAch s a false).
Proof.
  eapply stateShrinks_trans; [apply openSets_shrinks|]. unfold toggleAchievement.
  assert (stateShrinks (openSets s)
            (updUnviewedAchievements (JsSet.delete a)
               (updAchievements (JsSet.delete a) (openSets s)))) as H0.
  { unfold stateShrinks; simpl.
    split_and!; try done; intros x Hx; apply elem_of_delete in Hx; tauto. }
  destruct (findChallenge challenges a) as [A|]; [|exact H0].
  rewrite foldl_guarded_unmark.
  eapply stateShrinks_trans; [exact H0|].
  eapply stateShrinks_trans; [apply revokeUnlocks_shrinks|].
  apply foldl_shrinks. intros. apply unmarkEntry_shrinks.
Qed.

Lemma toggleLogbookEntry_disable_shrinks s e : stateShrinks s (toggleEntry s e false).
Proof.
  eapply stateShrinks_trans; [apply openSets_shrinks|].
  rewrite toggleLogbookEntry_disable_unfold.
  eapply stateShrinks_trans;
    [|apply foldl_shrinks; intros; apply disableChallenge_shrinks].
  eapply stateShrinks_trans; [|apply applyLogbookStats_disable_shrinks].
  eapply stateShrinks_trans; [apply deleteEntryId_shrinks|].
  eapply stateShrinks_trans; [apply (deleteAliases_shrinks e)|].
  destruct (pickupOf e) as [p|] eqn:Ep.
  - pose proof (deletePickup_shrinks e
                  (deleteAliases e
                     (updViewedViewables (JsSet.delete (e_unlockId e))
                        (updUnlocks (JsSet.delete (e_unlockId e)) (openSets s))))) as H.
    by rewrite Ep in H.
  - apply stateShrinks_refl.
Qed.

Lemma lockAllLogbook_shrinks s :
  stateShrinks s (lockAllLogbook challenges logbookEntries s).
Proof.
  eapply stateShrinks_trans; [apply openSets_shrinks|].
  eapply stateShrinks_trans; [|apply lockAllLogbook_shrinks_first].
  apply (foldl_invariant (lockEntry challenges logbookEntries)
           (λ acc, stateShrinks (openSets s) acc.1)).
  - apply stateShrinks_refl.
  - intros acc e _ IH. eapply stateShrinks_trans; [exact IH | apply lockEntry_shrinks].
Qed.

(** X27. Disabling never adds anything. After [toggleAchievement] or
    [toggleLogbookEntry] in the disable direction, and after [lockAllLogbook],
    each of the six collections is included in that of the input and every
    counter left in the counter map was there before with the same value: no
    identifier is added, no counter is created and none is rewritten. *)
Theorem disabling_only_removes (s : SaveData) :
  (∀ a, profileShrinks s (toggleAch s a false))
  ∧ (∀ e, profileShrinks s (toggleEntry s e false))
  ∧ profileShrinks s (lockAllLogbook challenges logbookEntries s).
Proof.
  split_and!.
  - intros a. apply profileShrinks_intro; [apply toggleAchievement_disable_shrinks|].
    unfold toggleAchievement. destruct (findChallenge challenges a).
    + by rewrite foldl_guarded_unmark, foldl_unmarkEntry, foldl_revokeUnlock.
    + done.
  - intros e. apply profileShrinks_intro; [apply toggleLogbookEntry_disable_shrinks|].
    rewrite toggleLogbookEntry_disable_stats. apply updateLogbookStats_disable_stats.
  - apply profileShrinks_intro; [apply lockAllLogbook_shrinks|].
    rewrite lockAllLogbook_unfold.
    rewrite (foldl_proj (lockAchievement challenges) stats)
      by (intros; apply lockAchievement_stats).
    apply (foldl_invariant (lockEntry challenges logbookEntries)
             (λ acc, stats acc.1 ⊆ stats s)); [done|].
    intros [w ds] e _ IH. unfold lockEntry. cbn [fst snd] in *.
    etrans; [|exact IH].
    assert (∀ w0, stats match pickupOf e with
                        | Some p => updDiscoveredPickups (JsSet.delete p) w0
                        | None => w0
                        end = stats w0) as -> by (intros; by destruct (pickupOf e)).
    etrans; [apply lockEntryStats_stats|]. done.
Qed.

(** *** Locking an item *)

Lemma tableGet_key (table : list (string * string)) (k v : string) :
  tableGet table k = Some v → k ∈ map fst table.
Proof.
  induction table as [|[k' v'] table IH]; [done|]. simpl.
  destruct (String.eqb k' k) eqn:E.
  - intros _. apply String.eqb_eq in E as ->. by left.
  - intros H. right. by apply IH.
Qed.

Lemma aliases_need_path (u : string) :
  JsString.includes u "/Logbook/" = false → getLogbookAliases u = [].
Proof.
  intros Hu. unfold getLogbookAliases.
  destruct (tableGet LOGBOOK_ALIASES u) as [a|] eqn:E; [|done].
  apply tableGet_key in E.
  assert (Forall (λ k, JsString.includes k "/Logbook/" = true) (map fst LOGBOOK_ALIASES))
    as Hall by (apply (bool_decide_unpack _); vm_compute; exact I).
  rewrite Forall_forall in Hall. rewrite (Hall u E) in Hu. done.
Qed.

Lemma convertToViewableId_item e : isItemLike e → convertToViewableId e = None.
Proof.
  intros Hi. unfold convertToViewableId.
  destruct (JsString.matchRest "Logs.Stages." (e_unlockId e)),
    (JsString.matchRest "Logs." (e_unlockId e)), Hi as [-> | ->]; done.
Qed.

Lemma plain_item_locked w e :
  isItemLike e →
  JsString.startsWith (e_unlockId e) "Logs." = false →
  JsString.includes (e_unlockId e) "/Logbook/" = false →
  e_unlockId e ∉ unlocks w → e_unlockId e ∉ viewedViewables w →
  (∀ p, pickupOf e = Some p → p ∉ discoveredPickups w) →
  isLogbookEntryUnlocked w e = false.
Proof.
  intros Hi Hlogs Hpath Hu Hv Hp. apply not_true_iff_false.
  rewrite isLogbookEntryUnlocked_spec.
  rewrite (aliases_need_path _ Hpath), (convertToViewableId_item e Hi).
  intros [?|[?|[(x & Hx & _)|[(v & ? & _)|[(p & Hpk & Hin)|[(Hd & _)|Hf]]]]]]; try done.
  - by apply elem_of_nil in Hx.
  - by apply (Hp p).
  - destruct Hi as [Hi|Hi]; congruence.
  - unfold statsFailsafe in Hf. by rewrite Hlogs, Hpath in Hf.
Qed.

Lemma lockAllLogbook_unmarks s e :
  e ∈ logbookEntries →
  let r := lockAllLogbook challenges logbookEntries s in
  (e_unlockId e ∉ unlocks r) ∧ (e_unlockId e ∉ viewedViewables r)
  ∧ (∀ p, pickupOf e = Some p → p ∉ discoveredPickups r).
Proof.
  intros He r.
  pose proof (lockAllLogbook_shrinks_first challenges logbookEntries s)
    as (_ & _ & _ & S4 & S5 & S6 & _).
  fold r in S4, S5, S6.
  assert ((e_unlockId e ∉ unlocks
             (foldl (lockEntry challenges logbookEntries) (openSets s, [])
                logbookEntries).1)
          ∧ (e_unlockId e ∉ viewedViewables
               (foldl (lockEntry challenges logbookEntries) (openSets s, [])
                  logbookEntries).1)
          ∧ (∀ p, pickupOf e = Some p →
                  p ∉ discoveredPickups
                        (foldl (lockEntry challenges logbookEntries) (openSets s, [])
                           logbookEntries).1)) as (H1 & H2 & H3).
  { clear S4 S5 S6. revert e He.
    apply (foldl_establish (lockEntry challenges logbookEntries)
             (λ e acc,
                (e_unlockId e ∉ unlocks acc.1) ∧ (e_unlockId e ∉ viewedViewables acc.1)
                ∧ (∀ p, pickupOf e = Some p → p ∉ discoveredPickups acc.1))).
    - intros acc e. apply lockEntry_removes_ids.
    - intros acc e e' (I1 & I2 & I3).
      destruct (lockEntry_shrinks challenges logbookEntries acc e')
        as (_ & _ & _ & T4 & T5 & T6 & _).
      split_and!.
      + intros H. by apply I1, T4.
      + intros H. by apply I2, T5.
      + intros p Hp H. by apply (I3 p Hp), T6. }
  split_and!.
  - intros H. by apply H1, S4.
  - intros H. by apply H2, S5.
  - intros p Hp H. by apply (H3 p Hp), S6.
Qed.

(** X28. For an items or equipment entry with an ordinary unlock id (one
    that neither starts with "Logs." nor contains "/Logbook/"), locking works:
    after [toggleLogbookEntry] in the disable direction the entry no longer
    counts as unlocked, whatever the profile held before, and after
    [lockAllLogbook] this is so for every such entry of the catalog. *)
Theorem disabling_locks_items (s : SaveData) (e : LogbookEntry) :
  isItemLike e →
  JsString.startsWith (e_unlockId e) "Logs." = false →
  JsString.includes (e_unlockId e) "/Logbook/" = false →
  isLogbookEntryUnlocked (toggleEntry s e false) e = false
  ∧ (e ∈ logbookEntries →
     isLogbookEntryUnlocked (lockAllLogbook challenges logbookEntries s) e = false).
Proof.
  intros Hi Hlogs Hpath. split.
  - destruct (toggleLogbookEntry_disable_unmarks challenges logbookEntries s e)
      as (H1 & H2 & H3).
    by apply plain_item_locked.
  - intros He. destruct (lockAllLogbook_unmarks s e He) as (H1 & H2 & H3).
    by apply plain_item_locked.
Qed.

End Disabling.

(** ** The figures of [getMappingStats] *)

Section MappingStatistics.

Variable challenges : list Challenge.
Variable logbookEntries : list LogbookEntry.

Lemma size_le_keys {A} (m : gmap string A) (l : list string) :
  (∀ k, is_Some (m !! k) → k ∈ l) → (size m <= List.length l)%nat.
Proof.
  intros Hk. rewrite <- length_map_to_list, <- (length_fmap fst).
  apply submseteq_length, NoDup_submseteq; [apply NoDup_fst_map_to_list|].
  intros k Hin. apply list_elem_of_fmap in Hin as ([k' a] & -> & Hin).
  apply elem_of_map_to_list in Hin. apply Hk. by eexists.
Qed.

Lemma length_items_equipment (vs : list LogbookEntry) :
  Forall isItemLike vs →
  (List.length (filter (λ e, e_category e = items) vs)
   + List.length (filter (λ e, e_category e = equipment) vs) = List.length vs)%nat.
Proof.
  induction 1 as [|e vs [He|He] _ IH]; [done| |].
  - rewrite filter_cons_True, filter_cons_False by congruence. simpl. lia.
  - rewrite filter_cons_False, filter_cons_True by congruence. simpl. lia.
Qed.

(** X29. The diagnostic figures of [getMappingStats] are consistent: the
    items and equipment figures add up to the size of the unlock-id index
    (nothing else is indexed), which is at most the number of logbook entries;
    the number of challenges with a logbook link is at most the number of
    challenges, and the number of entries with a challenge link at most the
    number of entries. *)
Theorem mapping_stats_consistent :
  let r := getMappingStats challenges logbookEntries in
  totalChallenges r = List.length challenges
  ∧ totalLogbookEntries r = List.length logbookEntries
  ∧ (itemsMapped r + equipmentMapped r
     = size (unlockIdToLogbook (mapping challenges logbookEntries)))%nat
  ∧ (itemsMapped r + equipmentMapped r <= totalLogbookEntries r)%nat
  ∧ (challengesWithLogbook r <= totalChallenges r)%nat
  ∧ (logbookWithChallenges r <= totalLogbookEntries r)%nat.
Proof.
  cbn zeta. unfold getMappingStats.
  cbn [totalChallenges totalLogbookEntries itemsMapped equipmentMapped
       challengesWithLogbook logbookWithChallenges].
  destruct (mapping_lookup challenges logbookEntries) as (Hu & _ & Hc & Hl & _).
  destruct (buildEntryIndices_lookup logbookEntries) as [Hidx _].
  assert (∀ k e, unlockIdToLogbook (mapping challenges logbookEntries) !! k = Some e →
                 e ∈ logbookEntries ∧ isItemLike e ∧ e_unlockId e = k) as Hval.
  { intros k e. rewrite Hu, Hidx. apply indexedByUnlock_Some. }
  assert ((List.length
             (filter (λ e, e_category e = items)
                (map_to_list (unlockIdToLogbook (mapping challenges logbookEntries))).*2)
           + List.length
               (filter (λ e, e_category e = equipment)
                  (map_to_list (unlockIdToLogbook (mapping challenges logbookEntries))).*2)
           = size (unlockIdToLogbook (mapping challenges logbookEntries)))%nat) as Hsum.
  { rewrite length_items_equipment.
    - by rewrite length_fmap, length_map_to_list.
    - apply Forall_forall. intros e Hin.
      apply list_elem_of_fmap in Hin as ([k e'] & -> & Hin).
      apply elem_of_map_to_list in Hin. by apply Hval in Hin as (_ & ? & _). }
  split_and!; try done.
  - rewrite Hsum. rewrite <- (length_fmap e_unlockId logbookEntries).
    apply size_le_keys. intros k [e He]. apply Hval in He as (? & _ & <-).
    apply list_elem_of_fmap. by exists e.
  - rewrite <- (length_fmap c_id challenges). apply size_le_keys.
    intros k [ids Hk]. rewrite Hc in Hk.
    destruct (last _) as [c|] eqn:E; [|done].
    apply last_Some_elem_of, list_elem_of_filter in E as [[<- _] Hin].
    apply list_elem_of_fmap. by exists c.
  - rewrite <- (length_fmap e_id logbookEntries). apply size_le_keys.
    intros k Hk. rewrite Hl in Hk. apply extendWith_None in Hk.
    match type of Hk with ?L ≠ [] => destruct L as [|x L'] eqn:EL; [done|] end.
    assert (x ∈ x :: L') as Hx by (by left). rewrite <- EL in Hx.
    apply elem_of_flat_map in Hx as (c & Hc' & Hin).
    apply list_elem_of_fmap in Hin as (e & _ & Hin).
    apply list_elem_of_filter in Hin as [<- Hin].
    rewrite linkedEntries_byUnlock in Hin. apply linksOf_scope in Hin as (? & _).
    apply list_elem_of_fmap. by exists e.
Qed.

End MappingStatistics.

(** ** Environments: what disabling leaves behind *)

Section Environments.

Variable challenges : list Challenge.
Variable logbookEntries : list LogbookEntry.

Local Abbreviation toggleEntry := (toggleLogbookEntry challenges logbookEntries).

Lemma first_char_ne (a b : ascii) (p q x y : string) :
  a ≠ b → String a p +:+ x ≠ String b q +:+ y.
Proof.
  intros Hab H. change (String a (p +:+ x) = String b (q +:+ y)) in H. congruence.
Qed.

Lemma disableStage_keeps stages (acc : list string * gmap string string) (k : string) :
  (∀ stage, k ≠ "Logs.Stages." +:+ stage) →
  (foldl disableStage acc stages).2 !! k = acc.2 !! k.
Proof.
  intros Hk. revert acc. induction stages as [|g stages IH]; intros acc; simpl; [done|].
  rewrite IH. simpl. apply lookup_delete_ne. intros H. by apply (Hk g).
Qed.

Lemma disableStage_removes stages (acc : list string * gmap string string) stage :
  stage ∈ stages → ("Logs.Stages." +:+ stage) ∉ (foldl disableStage acc stages).1.
Proof.
  intros Hs. revert acc stage Hs.
  apply (foldl_establish disableStage (λ stage r, ("Logs.Stages." +:+ stage) ∉ r.1)).
  - intros acc stage. simpl. rewrite elem_of_delete. tauto.
  - intros acc stage stage' Hn. simpl. rewrite elem_of_delete. tauto.
Qed.

(** X30. Enabling and then disabling an environments entry is not a round
    trip on the counter map. For every stage the entry stands for (its own,
    and for the artifact world and the moon their variants), enabling writes
    the log id "Logs.Stages.<stage>" to [unlocks] and sets the counters
    "totalTimesVisited.<stage>" and "totalTimesCleared.<stage>" to "1";
    disabling removes the log id but leaves both counters at "1". *)
Theorem environment_counters_survive_disable (s : SaveData) (e : LogbookEntry)
    (stage : string) :
  e_category e = environments →
  JsString.truthy (logbookNames e).1 || JsString.truthy (logbookNames e).2 = true →
  stage ∈ stagesToUnlock (JsString.toLowerCase (logbookNames e).1) →
  let on := toggleEntry s e true in
  let off := toggleEntry on e false in
  ("Logs.Stages." +:+ stage) ∈ unlocks on
  ∧ stats on !! ("totalTimesVisited." +:+ stage) = Some "1"
  ∧ stats on !! ("totalTimesCleared." +:+ stage) = Some "1"
  ∧ (("Logs.Stages." +:+ stage) ∉ unlocks off)
  ∧ stats off !! ("totalTimesVisited." +:+ stage) = Some "1"
  ∧ stats off !! ("totalTimesCleared." +:+ stage) = Some "1".
Proof.
  intros Hcat Hnames Hstage on off.
  assert (∀ en u st,
            updateLogbookStats e en u st
            = foldl (if en then enableStage else disableStage) (u, st)
                (stagesToUnlock (JsString.toLowerCase (logbookNames e).1))) as Hupd.
  { intros en u st. unfold updateLogbookStats.
    destruct (logbookNames e) as [b f]. cbn [fst snd] in *.
    assert (negb (JsString.truthy b) && negb (JsString.truthy f) = false) as ->.
    { destruct (JsString.truthy b), (JsString.truthy f); done. }
    rewrite Hcat. by destruct en. }
  assert (("Logs.Stages." +:+ stage) ∈ unlocks on
          ∧ stats on !! ("totalTimesVisited." +:+ stage) = Some "1"
          ∧ stats on !! ("totalTimesCleared." +:+ stage) = Some "1") as (On1 & On2 & On3).
  { subst on. unfold toggleLogbookEntry. set (w3 := addAliases e _).
    unfold applyLogbookStats. rewrite Hupd.
    pose proof (enableStage_present _ (unlocks w3, stats w3) stage Hstage) as HP.
    cbn zeta in HP. destruct (foldl enableStage _ _) as [u' m']. exact HP. }
  split_and!; try done.
  - subst off. rewrite toggleLogbookEntry_disable_unfold.
    match goal with
    | |- context [foldl ?f (applyLogbookStats e false ?w0) ?cs] =>
        pose proof (foldl_shrinks f cs (applyLogbookStats e false w0)
                      (disableChallenge_shrinks challenges logbookEntries))
          as (_ & _ & _ & S4 & _);
        intros Hin; apply S4 in Hin; revert Hin;
        unfold applyLogbookStats; rewrite Hupd;
        pose proof (disableStage_removes _ (unlocks w0, stats w0) stage Hstage) as HR;
        destruct (foldl disableStage (unlocks w0, stats w0) _) as [u' m']
    end.
    exact HR.
  - subst off. rewrite toggleLogbookEntry_disable_stats, Hupd.
    rewrite disableStage_keeps; [exact On2|].
    intros g. by apply first_char_ne.
  - subst off. rewrite toggleLogbookEntry_disable_stats, Hupd.
    rewrite disableStage_keeps; [exact On3|].
    intros g. by apply first_char_ne.
Qed.

End Environments.

(** * Concrete runs *)

Section ConcreteRuns.

Import Sample.

Local Ltac by_compute := intros; apply (bool_decide_unpack _); vm_compute; exact I.

(** ** The drone scenario *)

(** The entry of the scenario, whatever its id, display name and DLC tag. *)
Local Abbreviation chirpEntry i n d :=
  (mkEntry i n drones "Logs.ChirpBody.0" (Some "DroneIndex.Chirp") d).

Lemma logbookNames_chirp (i n : string) (d : DLC) :
  logbookNames (chirpEntry i n d) = ("chirpbody", "Logs.chirpbody.0").
Proof. vm_compute. reflexivity. Qed.

Lemma updateLogbookStats_chirp_enable (i n : string) (d : DLC)
    (u : list string) (st : gmap string string) :
  updateLogbookStats (chirpEntry i n d) true u st
  = (JsSet.add "Logs.chirpbody.0" u,
     <["totalTimeAlive.chirpbodyBody" := "1"]>
       (<["timesSummoned.chirpbodyBody" := "1"]> st)).
Proof. unfold updateLogbookStats. rewrite logbookNames_chirp. reflexivity. Qed.

Lemma updateLogbookStats_chirp_disable (i n : string) (d : DLC)
    (u : list string) (st : gmap string string) :
  updateLogbookStats (chirpEntry i n d) false u st
  = (JsSet.delete "Logs.chirpbody.0" u,
     delete "totalTimeAlive.chirpbodyBody" (delete "timesSummoned.chirpbodyBody" st)).
Proof. unfold updateLogbookStats. rewrite logbookNames_chirp. reflexivity. Qed.

(** C5. For a drones entry with unlock id "Logs.ChirpBody.0" and pickup id
    "DroneIndex.Chirp", enabling puts the unlock id in [unlocks] and
    [viewedViewables] and the pickup id in [discoveredPickups], and disabling
    removes them; but the counters written are timesSummoned.chirpbodyBody and
    totalTimeAlive.chirpbodyBody: the keys timesSummoned.ChirpBody and
    totalTimeAlive.ChirpBody keep, through both operations, whatever value
    they had in the input. *)
Theorem chirp_scenario (challenges : list Challenge) (logbookEntries : list LogbookEntry)
    (s : SaveData) (i n : string) (d : DLC) :
  let entry := chirpEntry i n d in
  let on := toggleLogbookEntry challenges logbookEntries s entry true in
  let off := toggleLogbookEntry challenges logbookEntries on entry false in
  ("Logs.ChirpBody.0" ∈ unlocks on ∧ "Logs.ChirpBody.0" ∈ viewedViewables on
   ∧ "DroneIndex.Chirp" ∈ discoveredPickups on)
  ∧ (stats on !! "timesSummoned.chirpbodyBody" = Some "1"
     ∧ stats on !! "totalTimeAlive.chirpbodyBody" = Some "1")
  ∧ (stats on !! "timesSummoned.ChirpBody" = stats s !! "timesSummoned.ChirpBody"
     ∧ stats on !! "totalTimeAlive.ChirpBody" = stats s !! "totalTimeAlive.ChirpBody")
  ∧ (("Logs.ChirpBody.0" ∉ unlocks off) ∧ ("Logs.ChirpBody.0" ∉ viewedViewables off)
     ∧ ("DroneIndex.Chirp" ∉ discoveredPickups off))
  ∧ (stats off !! "timesSummoned.ChirpBody" = stats s !! "timesSummoned.ChirpBody"
     ∧ stats off !! "totalTimeAlive.ChirpBody" = stats s !! "totalTimeAlive.ChirpBody").
Proof.
  intros entry on off.
  assert (∀ k, stats on !! k
               = (<["totalTimeAlive.chirpbodyBody" := "1"]>
                    (<["timesSummoned.chirpbodyBody" := "1"]> (stats s))) !! k) as Hon.
  { intros k. subst on entry.
    by rewrite toggleLogbookEntry_enable_stats, updateLogbookStats_chirp_enable. }
  assert (∀ k, stats off !! k
               = (delete "totalTimeAlive.chirpbodyBody"
                    (delete "timesSummoned.chirpbodyBody" (stats on))) !! k) as Hoff.
  { intros k. subst off entry.
    by rewrite toggleLogbookEntry_disable_stats, updateLogbookStats_chirp_disable. }
  destruct (toggleLogbookEntry_enable_marks challenges logbookEntries s entry)
    as (M1 & M2 & M3).
  destruct (toggleLogbookEntry_disable_unmarks challenges logbookEntries on entry)
    as (U1 & U2 & U3).
  split_and!.
  - exact M1.
  - exact M2.
  - by apply M3.
  - rewrite Hon. by rewrite lookup_insert_ne, lookup_insert_eq.
  - rewrite Hon. by rewrite lookup_insert_eq.
  - rewrite Hon. by rewrite !lookup_insert_ne.
  - rewrite Hon. by rewrite !lookup_insert_ne.
  - exact U1.
  - exact U2.
  - by apply U3.
  - rewrite Hoff, !lookup_delete_ne, Hon by done. by rewrite !lookup_insert_ne.
  - rewrite Hoff, !lookup_delete_ne, Hon by done. by rewrite !lookup_insert_ne.
Qed.

(** On the empty profile the two counters of the scenario are simply not
    there after enabling. *)
Example empty_profile_chirp_counters :
  let on := toggleLogbookEntry sampleChallenges sampleEntries emptySave chirp true in
  stats on !! "timesSummoned.ChirpBody" = None
  ∧ stats on !! "totalTimeAlive.ChirpBody" = None
  ∧ stats on !! "timesSummoned.chirpbodyBody" = Some "1"
  ∧ "Logs.chirpbody.0" ∈ unlocks on.
Proof. by_compute. Qed.

(** ** Two challenges sharing an entry *)

(** The run on the sample catalog, where [eliteSlayer] and [fieldMedic] are
    both linked to [medkit]: after both are enabled and [eliteSlayer] is
    disabled, the unlock id of [medkit] is in [viewedViewables] and its pickup
    id in [discoveredPickups], but the unlock id has left [unlocks] although
    [fieldMedic], which grants it, is still held. *)
Example shared_entry_run :
  let toggle := toggleAchievement sampleChallenges sampleEntries in
  let both := toggle (toggle emptySave "KillEliteMonster" true) "HealAllies" true in
  let one := toggle both "KillEliteMonster" false in
  let none := toggle one "HealAllies" false in
  (medkit ∈ getLogbookEntriesForChallenge sampleChallenges sampleEntries "elite-slayer"
   ∧ medkit ∈ getLogbookEntriesForChallenge sampleChallenges sampleEntries "field-medic")
  ∧ ("Items.Medkit" ∈ unlocks both ∧ "Items.Medkit" ∈ viewedViewables both
     ∧ "ItemIndex.Medkit" ∈ discoveredPickups both)
  ∧ ("HealAllies" ∈ achievements one
     ∧ "Items.Medkit" ∈ viewedViewables one
     ∧ "ItemIndex.Medkit" ∈ discoveredPickups one
     ∧ isLogbookEntryUnlocked one medkit = true
     ∧ "Items.Medkit" ∉ unlocks one)
  ∧ (("Items.Medkit" ∉ unlocks none) ∧ ("Items.Medkit" ∉ viewedViewables none)
     ∧ ("ItemIndex.Medkit" ∉ discoveredPickups none)).
Proof. by_compute. Qed.

(** ** Inputs on which statements of the specification fail *)

(** C3 as stated: the challenge [blockadeBreaker] is the only one held, so no
    other held achievement grants its unlock ids; yet enabling it (again) and
    disabling it empties the collections instead of restoring them. *)
Lemma symmetry_fails_when_already_held :
  let toggle := toggleAchievement sampleChallenges sampleEntries in
  let s := toggle emptySave "KillBossQuantityInRun" true in
  let r := toggle (toggle s "KillBossQuantityInRun" true) "KillBossQuantityInRun" false in
  achievements s = ["KillBossQuantityInRun"]
  ∧ unlocks s = ["Items.LunarUtilityReplacement"; "Items.LunarPrimaryReplacement"]
  ∧ achievements r = [] ∧ unlocks r = []
  ∧ achievements r ≠ achievements s
  ∧ ¬ (∀ x, x ∈ unlocks r ↔ x ∈ unlocks s).
Proof.
  intros toggle s r. split_and!; try by_compute.
  intros H. assert ("Items.LunarUtilityReplacement" ∉ unlocks r) as Hn by by_compute.
  apply Hn, H. by_compute.
Qed.

(** C6 as stated: the per-stage counters written when the stage entry is
    enabled are still there after [lockAllLogbook]. *)
Lemma lockAllLogbook_keeps_stage_counters :
  let s := toggleLogbookEntry sampleChallenges sampleEntries emptySave distantRoost true in
  let r := lockAllLogbook sampleChallenges sampleEntries s in
  distantRoost ∈ sampleEntries
  ∧ stats emptySave !! "totalTimesVisited.blackbeach" = None
  ∧ stats s !! "totalTimesVisited.blackbeach" = Some "1"
  ∧ stats s !! "totalTimesCleared.blackbeach" = Some "1"
  ∧ stats r !! "totalTimesVisited.blackbeach" = Some "1"
  ∧ stats r !! "totalTimesCleared.blackbeach" = Some "1".
Proof. by_compute. Qed.

(** C7 as stated: an achievement id unknown to the catalog is still written
    to [achievements] and [unviewedAchievements] when enabled, and deleted
    from them when disabled. *)
Lemma unknown_id_changes_achievements :
  let toggle := toggleAchievement sampleChallenges sampleEntries in
  findChallenge sampleChallenges "NoSuchAchievement" = None
  ∧ ("NoSuchAchievement" ∉ achievements medicSave)
  ∧ "NoSuchAchievement" ∈ achievements (toggle medicSave "NoSuchAchievement" true)
  ∧ "NoSuchAchievement" ∈ unviewedAchievements (toggle medicSave "NoSuchAchievement" true)
  ∧ findChallenge sampleChallenges "OldAchievement" = None
  ∧ achievements
      (toggle (mkSave "Player" 0 ["OldAchievement"] [] [] [] ∅ [] [])
         "OldAchievement" false) = [].
Proof. by_compute. Qed.


(** ** The theorems at work on the sample catalog *)

(** An id of no challenge, enabled on a profile that holds [fieldMedic]. *)
Lemma toggleAchievement_unknown_id_witness :
  (∀ c, c ∈ sampleChallenges → c_achievement c ≠ "NoSuchAchievement")
  ∧ unchangedSet (unlocks medicSave)
      (unlocks (toggleAchievement sampleChallenges sampleEntries medicSave
                  "NoSuchAchievement" true))
  ∧ stats (toggleAchievement sampleChallenges sampleEntries medicSave
             "NoSuchAchievement" true) = stats medicSave.
Proof.
  assert (∀ c, c ∈ sampleChallenges → c_achievement c ≠ "NoSuchAchievement") as H.
  { apply (proj1 (Forall_forall (λ c, c_achievement c ≠ "NoSuchAchievement")
                    sampleChallenges)).
    by_compute. }
  destruct (toggleAchievement_unknown_id sampleChallenges sampleEntries medicSave
              "NoSuchAchievement" true H) as (_ & Hu & _ & _ & Hs & _).
  split_and!; [exact H | exact Hu | exact Hs].
Defined.

(** Bulk unlock of a profile: one challenge and one drone entry checked. *)
Lemma unlockAll_complete_witness :
  eliteSlayer ∈ sampleChallenges ∧ chirp ∈ sampleEntries
  ∧ "KillEliteMonster" ∈ achievements (unlockAll sampleChallenges sampleEntries medicSave None)
  ∧ isLogbookEntryUnlocked (unlockAll sampleChallenges sampleEntries medicSave None) chirp
    = true.
Proof.
  assert (eliteSlayer ∈ sampleChallenges) as Hc by by_compute.
  assert (chirp ∈ sampleEntries) as He by by_compute.
  destruct (unlockAll_complete sampleChallenges sampleEntries medicSave) as [H1 H2].
  split_and!; [exact Hc | exact He | exact (H1 eliteSlayer Hc) | exact (H2 chirp He)].
Defined.


(** A "Logs.<name>Body.0" key in the counter map is not a progress counter:
    the failsafe of the predicate accepts it. *)
Example log_key_in_counter_map_unlocks :
  isLogbookEntryUnlocked
    (mkSave "Player" 0 [] [] [] [] {[ "Logs.BeetleBody.0" := "1" ]} [] []) beetle = true.
Proof. vm_compute. reflexivity. Qed.

(** Kill and death counters for the beetle in a profile that holds the log
    of another monster: the beetle is locked, and stays so when the counter
    map is emptied. *)
Lemma counters_alone_do_not_unlock_witness :
  stats beetleCountersSave !! "killsAgainst.BeetleBody" = Some "5"
  ∧ "Logs.LemurianBody.0" ∈ unlocks beetleCountersSave
  ∧ failsafeLogId beetle = Some "Logs.BeetleBody.0"
  ∧ isLogbookEntryUnlocked beetleCountersSave beetle = false
  ∧ isLogbookEntryUnlocked (updStats (λ _, ∅) beetleCountersSave) beetle
    = isLogbookEntryUnlocked beetleCountersSave beetle.
Proof.
  destruct (counters_alone_do_not_unlock beetleCountersSave beetle) as [H1 H2].
  split_and!.
  - vm_compute; reflexivity.
  - by_compute.
  - vm_compute; reflexivity.
  - apply H1.
    + by_compute.
    + by_compute.
    + intros a _. by_compute.
    + intros v _. by_compute.
    + intros p _. by_compute.
    + intros d _. by_compute.
    + intros l Hl. vm_compute in Hl. injection Hl as <-.
      split; [by_compute | vm_compute; reflexivity].
  - apply H2. intros l Hl. vm_compute in Hl. injection Hl as <-.
    split; intros [x Hx]; vm_compute in Hx; discriminate.
Defined.

(** Disabling the medkit entry disables the one-entry challenge that grants it. *)
Lemma toggleLogbookEntry_disable_cascade_witness :
  let s := toggleAchievement sampleChallenges sampleEntries emptySave
             "KillEliteMonster" true in
  let r := toggleLogbookEntry sampleChallenges sampleEntries s medkit false in
  "KillEliteMonster" ∈ achievements s
  ∧ eliteSlayer ∈ getChallengesForLogbookEntry sampleChallenges sampleEntries (e_id medkit)
  ∧ shouldDisableChallengeForEntry sampleChallenges sampleEntries eliteSlayer medkit
      (viewedViewables s) = true
  ∧ ("Items.Medkit" ∉ unlocks r).
Proof.
  intros s r.
  assert (eliteSlayer
          ∈ getChallengesForLogbookEntry sampleChallenges sampleEntries (e_id medkit))
    as Hc by by_compute.
  assert (shouldDisableChallengeForEntry sampleChallenges sampleEntries eliteSlayer medkit
            (viewedViewables s) = true) as Hd by (vm_compute; reflexivity).
  destruct (toggleLogbookEntry_disable_cascade sampleChallenges sampleEntries s medkit)
    as (_ & _ & _ & _ & H).
  destruct (H eliteSlayer (conj Hc Hd)) as [Hu _].
  split_and!; [by_compute | exact Hc | exact Hd |]. apply (Hu "Items.Medkit"). by_compute.
Defined.

(** [blockadeBreaker] enabled then disabled on a profile that holds [fieldMedic]. *)
Lemma toggleAchievement_enable_disable_witness :
  let r := toggleAchievement sampleChallenges sampleEntries
             (toggleAchievement sampleChallenges sampleEntries medicSave
                "KillBossQuantityInRun" true)
             "KillBossQuantityInRun" false in
  findChallenge sampleChallenges (c_achievement blockadeBreaker) = Some blockadeBreaker
  ∧ unchangedSet (achievements medicSave) (achievements r)
  ∧ unchangedSet (unlocks medicSave) (unlocks r)
  ∧ unchangedSet (viewedViewables medicSave) (viewedViewables r)
  ∧ unchangedSet (discoveredPickups medicSave) (discoveredPickups r).
Proof.
  intros r.
  assert (findChallenge sampleChallenges (c_achievement blockadeBreaker)
          = Some blockadeBreaker) as Hf by (vm_compute; reflexivity).
  destruct (toggleAchievement_enable_disable sampleChallenges sampleEntries medicSave
              blockadeBreaker Hf) as (Ha & _ & _ & Hu & Hv & Hp).
  - by_compute.
  - by_compute.
  - apply (proj1 (Forall_forall
                    (λ u, (u ∉ viewedUnlockables medicSave) ∧ (u ∉ unlocks medicSave))
                    (c_unlocks blockadeBreaker))).
    by_compute.
  - intros e He. vm_compute in He.
    apply elem_of_cons in He as [-> | He]; [|apply elem_of_cons in He as [-> | He]].
    + split_and!; [by_compute | by_compute |]. intros p [= <-]. by_compute.
    + split_and!; [by_compute | by_compute |]. intros p [= <-]. by_compute.
    + by apply elem_of_nil in He.
  - intros e c He. vm_compute in He.
    apply elem_of_cons in He as [-> | He]; [|apply elem_of_cons in He as [-> | He]].
    + intros Hc. vm_compute in Hc.
      apply elem_of_cons in Hc as [-> | Hc]; [done | by apply elem_of_nil in Hc].
    + intros Hc. vm_compute in Hc.
      apply elem_of_cons in Hc as [-> | Hc]; [done | by apply elem_of_nil in Hc].
    + by apply elem_of_nil in He.
  - split_and!; [exact Hf | exact Ha | exact Hu | exact Hv | exact Hp].
Defined.

(** Bulk lock after bulk unlock: the beetle counters go, the telemetry stays. *)
Lemma lockAllLogbook_minimal_witness :
  let s := unlockAll sampleChallenges sampleEntries medicSave None in
  let r := lockAllLogbook sampleChallenges sampleEntries s in
  beetle ∈ sampleEntries
  ∧ stats s !! "killsAgainst.BeetleBody" = Some "1"
  ∧ stats r !! "killsAgainst.BeetleBody" = None
  ∧ (e_unlockId beetle ∉ unlocks r)
  ∧ isTrackedKey "totalGamesPlayed" = false
  ∧ stats r !! "totalGamesPlayed" = stats s !! "totalGamesPlayed".
Proof.
  intros s r.
  assert (beetle ∈ sampleEntries) as He by by_compute.
  assert (isTrackedKey "totalGamesPlayed" = false) as Hk by (vm_compute; reflexivity).
  destruct (lockAllLogbook_minimal sampleChallenges sampleEntries s) as (H1 & H2 & H3 & _).
  destruct (H1 beetle He) as (Hu & _).
  split_and!; [exact He | by_compute | | exact Hu | exact Hk | exact (H3 _ Hk)].
  apply (H2 beetle "killsAgainst.BeetleBody" He).
  - by_compute.
  - vm_compute; reflexivity.
  - vm_compute; reflexivity.
  - by_compute.
  - by_compute.
Defined.

(** [eliteSlayer] and [fieldMedic], which share [medkit], on the empty profile. *)
Lemma shared_entry_retention_witness :
  let toggle := toggleAchievement sampleChallenges sampleEntries in
  let both := toggle (toggle emptySave "KillEliteMonster" true) "HealAllies" true in
  let one := toggle both "KillEliteMonster" false in
  medkit ∈ getLogbookEntriesForChallenge sampleChallenges sampleEntries (c_id eliteSlayer)
  ∧ medkit ∈ getLogbookEntriesForChallenge sampleChallenges sampleEntries (c_id fieldMedic)
  ∧ "HealAllies" ∈ achievements one
  ∧ "Items.Medkit" ∈ viewedViewables one
  ∧ ("Items.Medkit" ∉ unlocks one).
Proof.
  intros toggle both one.
  assert (medkit ∈ getLogbookEntriesForChallenge sampleChallenges sampleEntries
                     (c_id eliteSlayer)) as EA by by_compute.
  assert (medkit ∈ getLogbookEntriesForChallenge sampleChallenges sampleEntries
                     (c_id fieldMedic)) as EB by by_compute.
  destruct (shared_entry_retention sampleChallenges sampleEntries emptySave
              eliteSlayer fieldMedic medkit) as ((H1 & H2 & _ & _ & H5) & _).
  - vm_compute; reflexivity.
  - vm_compute; reflexivity.
  - by_compute.
  - exact EA.
  - exact EB.
  - by_compute.
  - by_compute.
  - by_compute.
  - intros e He _. destruct He as [He|He]; vm_compute in He;
      (apply elem_of_cons in He as [-> | He]; [done | by apply elem_of_nil in He]).
  - intros c _ Hin. vm_compute in Hin. by apply elem_of_nil in Hin.
  - split_and!; [exact EA | exact EB | exact H1 | exact H2 | exact H5].
Defined.

End ConcreteRuns.

(** * Further concrete runs *)

Section MoreRuns.

Import Sample.

Local Ltac by_compute := intros; apply (bool_decide_unpack _); vm_compute; exact I.

(** A survivors entry for the Void Fiend, and a challenge that grants an item
    the logbook does not hold. *)
Local Abbreviation voidFiend :=
  (mkEntry "void-fiend" "Void Fiend" survivors
     "/Logbook/LOGBOOK_CATEGORY_SURVIVOR/VOIDSURVIVOR_BODY_NAME" None dlc_sotv).
Local Abbreviation ghostHunter :=
  (mkChallenge "ghost-hunter" "Ghost Hunter" "FindGhost" ["Items.Ghost"; "Items.Medkit"]
     cat_items None dlc_base).

(** Enabling [fieldMedic] on the empty profile marks the medkit. *)
Lemma toggleAchievement_enable_effect_witness :
  findChallenge sampleChallenges "HealAllies" = Some fieldMedic
  ∧ entryMarked (toggleAchievement sampleChallenges sampleEntries emptySave "HealAllies" true)
      medkit
  ∧ isLogbookEntryUnlocked
      (toggleAchievement sampleChallenges sampleEntries emptySave "HealAllies" true) medkit
    = true.
Proof.
  assert (findChallenge sampleChallenges "HealAllies" = Some fieldMedic) as Hf
    by reflexivity.
  destruct (toggleAchievement_enable_effect sampleChallenges sampleEntries emptySave
              "HealAllies" fieldMedic Hf) as (_ & _ & _ & He & _).
  assert (medkit ∈ getLogbookEntriesForChallenge sampleChallenges sampleEntries
                     (c_id fieldMedic)) as Hin by by_compute.
  destruct (He medkit Hin) as [H1 H2].
  split_and!; [exact Hf | exact H1 | exact H2].
Defined.

(** Enabling the medkit entry reaches both challenges that grant it. *)
Lemma toggleLogbookEntry_enable_cascade_witness :
  eliteSlayer ∈ getChallengesForLogbookEntry sampleChallenges sampleEntries (e_id medkit)
  ∧ fieldMedic ∈ getChallengesForLogbookEntry sampleChallenges sampleEntries (e_id medkit)
  ∧ challengeGranted (toggleLogbookEntry sampleChallenges sampleEntries emptySave medkit true)
      eliteSlayer
  ∧ challengeGranted (toggleLogbookEntry sampleChallenges sampleEntries emptySave medkit true)
      fieldMedic.
Proof.
  assert (eliteSlayer ∈ getChallengesForLogbookEntry sampleChallenges sampleEntries
                          (e_id medkit)) as H1 by by_compute.
  assert (fieldMedic ∈ getChallengesForLogbookEntry sampleChallenges sampleEntries
                         (e_id medkit)) as H2 by by_compute.
  destruct (toggleLogbookEntry_enable_cascade sampleChallenges sampleEntries emptySave
              medkit) as (_ & _ & _ & Hc & _).
  destruct (Hc eliteSlayer H1) as (G1 & _). destruct (Hc fieldMedic H2) as (G2 & _).
  split_and!; [exact H1 | exact H2 | exact G1 | exact G2].
Defined.

(** [lockAllLogbook] takes the achievement of [fieldMedic] away. *)
Lemma lockAllLogbook_achievements_witness :
  medkit ∈ sampleEntries
  ∧ fieldMedic ∈ getChallengesForLogbookEntry sampleChallenges sampleEntries (e_id medkit)
  ∧ "HealAllies" ∈ achievements medicSave
  ∧ ("HealAllies" ∉ achievements (lockAllLogbook sampleChallenges sampleEntries medicSave)).
Proof.
  assert (medkit ∈ sampleEntries) as H1 by by_compute.
  assert (fieldMedic ∈ getChallengesForLogbookEntry sampleChallenges sampleEntries
                         (e_id medkit)) as H2 by by_compute.
  assert ("HealAllies" ∈ achievements medicSave) as H3 by by_compute.
  destruct (lockAllLogbook_achievements sampleChallenges sampleEntries medicSave)
    as (Ha & _).
  split_and!; [exact H1 | exact H2 | exact H3 |].
  intros Hin. apply Ha in Hin as [_ Hno]. apply Hno. by exists medkit, fieldMedic.
Defined.

(** Disabling the medkit entry leaves the telemetry of the profile alone. *)
Lemma toggleLogbookEntry_item_frame_witness :
  (e_category medkit = items ∨ e_category medkit = equipment)
  ∧ stats (toggleLogbookEntry sampleChallenges sampleEntries medicSave medkit false)
    = stats medicSave.
Proof.
  assert (e_category medkit = items ∨ e_category medkit = equipment) as H
    by (left; reflexivity).
  destruct (toggleLogbookEntry_item_frame sampleChallenges sampleEntries medicSave medkit
              false H) as (Hs & _).
  split; [exact H | exact Hs].
Defined.

(** The two entries of [blockadeBreaker], read off its unlock ids. *)
Lemma linked_entries_scope_witness :
  NoDup (map c_id sampleChallenges) ∧ NoDup (map e_id sampleEntries)
  ∧ blockadeBreaker ∈ sampleChallenges
  ∧ getLogbookEntriesForChallenge sampleChallenges sampleEntries (c_id blockadeBreaker)
    = [strides; visions]
  ∧ getLogbookCountForChallenge sampleChallenges sampleEntries (c_id blockadeBreaker) = 2.
Proof.
  assert (NoDup (map c_id sampleChallenges)) as H1 by by_compute.
  assert (NoDup (map e_id sampleEntries)) as H2 by by_compute.
  assert (blockadeBreaker ∈ sampleChallenges) as H3 by by_compute.
  destruct (linked_entries_scope sampleChallenges sampleEntries blockadeBreaker H1 H2 H3)
    as (He & Hn & _).
  split_and!; [exact H1 | exact H2 | exact H3 | |].
  - rewrite He. vm_compute. reflexivity.
  - rewrite Hn. vm_compute. reflexivity.
Defined.

(** [fieldMedic] and the medkit point at each other. *)
Lemma reference_graph_symmetric_witness :
  NoDup (map c_id sampleChallenges) ∧ NoDup (map e_id sampleEntries)
  ∧ fieldMedic ∈ sampleChallenges ∧ medkit ∈ sampleEntries
  ∧ fieldMedic ∈ getChallengesForLogbookEntry sampleChallenges sampleEntries (e_id medkit).
Proof.
  assert (NoDup (map c_id sampleChallenges)) as H1 by by_compute.
  assert (NoDup (map e_id sampleEntries)) as H2 by by_compute.
  assert (fieldMedic ∈ sampleChallenges) as H3 by by_compute.
  assert (medkit ∈ sampleEntries) as H4 by by_compute.
  split_and!; [exact H1 | exact H2 | exact H3 | exact H4 |].
  apply (reference_graph_symmetric sampleChallenges sampleEntries fieldMedic medkit
           H1 H2 H3 H4).
  by_compute.
Defined.

(** A challenge that grants an item the logbook does not hold is reported,
    with that item only. *)
Lemma unmapped_unlocks_complete_witness :
  (ghostHunter, "Items.Ghost") ∈ findUnmappedChallengeUnlocks [ghostHunter] sampleEntries
  ∧ ((ghostHunter, "Items.Medkit") ∉ findUnmappedChallengeUnlocks [ghostHunter] sampleEntries)
  ∧ ghostHunter ∈ getChallengesForUnlockId [ghostHunter] sampleEntries "Items.Medkit".
Proof.
  destruct (unmapped_unlocks_complete [ghostHunter] sampleEntries ghostHunter "Items.Ghost")
    as [H1 _].
  destruct (unmapped_unlocks_complete [ghostHunter] sampleEntries ghostHunter "Items.Medkit")
    as [_ H2].
  assert (ghostHunter ∈ [ghostHunter]) as Hc by by_compute.
  assert (ghostHunter ∈ getChallengesForUnlockId [ghostHunter] sampleEntries "Items.Medkit")
    as Hm by by_compute.
  split_and!.
  - apply H1. split_and!; [exact Hc | by_compute | reflexivity |].
    apply (proj1 (Forall_forall (λ e, isItemLike e → e_unlockId e ≠ "Items.Ghost")
                    sampleEntries)).
    by_compute.
  - intros Hin. apply (H2 Hc) in Hin; [by apply Hin | by_compute | reflexivity].
  - exact Hm.
Defined.

(** The unlock id of the drone of the specification's scenario. *)
Lemma logs_format_is_lowercased_witness :
  JsString.includes "ChirpBody.0" "/" = false
  ∧ JsString.includes "ChirpBody.0" "_" = false
  ∧ e_unlockId chirp = "Logs." +:+ "ChirpBody.0"
  ∧ getInternalBodyName (e_unlockId chirp) = "Logs.chirpbody.0"
  ∧ logbookNames chirp = ("chirpbody", "Logs.chirpbody.0").
Proof.
  assert (JsString.includes "ChirpBody.0" "/" = false) as H1 by reflexivity.
  assert (JsString.includes "ChirpBody.0" "_" = false) as H2 by reflexivity.
  assert (e_unlockId chirp = "Logs." +:+ "ChirpBody.0") as H3 by reflexivity.
  destruct (logs_format_is_lowercased "ChirpBody.0" chirp H1 H2 H3) as [Hb Hn].
  split_and!; [exact H1 | exact H2 | exact H3 | exact Hb | exact Hn].
Defined.

(** The medkit stays unlocked when a profile that holds its unlock id gains
    everything [medicSave] holds. *)
Lemma isLogbookEntryUnlocked_monotone_witness :
  isLogbookEntryUnlocked (mkSave "Player" 0 [] [] [] ["Items.Medkit"] ∅ [] []) medkit = true
  ∧ isLogbookEntryUnlocked medicSave medkit = true.
Proof.
  assert (isLogbookEntryUnlocked (mkSave "Player" 0 [] [] [] ["Items.Medkit"] ∅ [] [])
            medkit = true) as H by reflexivity.
  split; [exact H|].
  apply (isLogbookEntryUnlocked_monotone
           (mkSave "Player" 0 [] [] [] ["Items.Medkit"] ∅ [] []) medicSave medkit).
  - intros x Hx. exact Hx.
  - intros x Hx. by apply elem_of_nil in Hx.
  - intros x Hx. by apply elem_of_nil in Hx.
  - intros k [v Hk]. cbn [stats] in Hk. by rewrite lookup_empty in Hk.
  - exact H.
Defined.

(** The sample catalog has no two challenges with the same achievement id. *)
Lemma challenge_lookups_agree_witness :
  NoDup (map c_achievement sampleChallenges)
  ∧ getChallengeByAchievement sampleChallenges "HealAllies" = Some fieldMedic.
Proof.
  assert (NoDup (map c_achievement sampleChallenges)) as H by by_compute.
  split; [exact H|].
  rewrite (challenge_lookups_agree sampleChallenges "HealAllies" H). reflexivity.
Defined.

(** The Void Fiend entry resolves to [voidTouched]. *)
Lemma survivor_achievement_scope_witness :
  getAchievementForSurvivorLogbook sampleChallenges voidFiend = Some voidTouched
  ∧ c_achievement voidTouched ∈ map snd SURVIVOR_UNLOCKID_TO_ACHIEVEMENT.
Proof.
  assert (getAchievementForSurvivorLogbook sampleChallenges voidFiend = Some voidTouched)
    as H by reflexivity.
  destruct (survivor_achievement_scope sampleChallenges voidFiend voidTouched H)
    as (_ & _ & Ha & _).
  split; [exact H | exact Ha].
Defined.

(** Two achievement ids written and read back. *)
Lemma space_separated_round_trip_witness :
  Forall (λ s, isToken s = true) ["KillEliteMonster"; "HealAllies"]
  ∧ parseSpaceSeparatedList (Some "KillEliteMonster HealAllies")
    = ["KillEliteMonster"; "HealAllies"].
Proof.
  assert (Forall (λ s, isToken s = true) ["KillEliteMonster"; "HealAllies"]) as H
    by by_compute.
  split; [exact H|].
  exact (space_separated_round_trip ["KillEliteMonster"; "HealAllies"] H).
Defined.

(** The medkit of [medicSave], locked either way. *)
Lemma disabling_locks_items_witness :
  isItemLike medkit
  ∧ isLogbookEntryUnlocked medicSave medkit = true
  ∧ isLogbookEntryUnlocked
      (toggleLogbookEntry sampleChallenges sampleEntries medicSave medkit false) medkit
    = false
  ∧ isLogbookEntryUnlocked (lockAllLogbook sampleChallenges sampleEntries medicSave) medkit
    = false.
Proof.
  assert (isItemLike medkit) as Hi by (left; reflexivity).
  destruct (disabling_locks_items sampleChallenges sampleEntries medicSave medkit Hi
              eq_refl eq_refl) as [H1 H2].
  split_and!; [exact Hi | reflexivity | exact H1 | apply H2; by_compute].
Defined.

(** Distant Roost, enabled and disabled on the empty profile. *)
Lemma environment_counters_survive_disable_witness :
  let on := toggleLogbookEntry sampleChallenges sampleEntries emptySave distantRoost true in
  let off := toggleLogbookEntry sampleChallenges sampleEntries on distantRoost false in
  e_category distantRoost = environments
  ∧ "blackbeach" ∈ stagesToUnlock (JsString.toLowerCase (logbookNames distantRoost).1)
  ∧ stats emptySave !! "totalTimesVisited.blackbeach" = None
  ∧ ("Logs.Stages.blackbeach" ∉ unlocks off)
  ∧ stats off !! "totalTimesVisited.blackbeach" = Some "1".
Proof.
  intros on off.
  assert ("blackbeach"
          ∈ stagesToUnlock (JsString.toLowerCase (logbookNames distantRoost).1)) as Hs
    by by_compute.
  destruct (environment_counters_survive_disable sampleChallenges sampleEntries emptySave
              distantRoost "blackbeach" eq_refl eq_refl Hs)
    as (_ & _ & _ & H4 & H5 & _).
  split_and!; [reflexivity | exact Hs | reflexivity | exact H4 | exact H5].
Defined.

End MoreRuns.
